(** * Verification of [AwsSimpleStorageService] (src/lib/AwsSimpleStorageService.ts)

    A shallow embedding of the path helpers and of the asynchronous
    object-store operations of the class, followed by the properties that
    the specification states about them.

    Conventions of the embedding.
    - A JavaScript string is a [string]; every [ascii] stands for one code
      unit below 256.
    - [undefined] is [None]; an optional parameter or field is an [option].
    - A number is a [Number]: [NaN], an infinity, a zero, or a finite
      number held by the decimal that the language prints for it.
    - [path] is the POSIX flavour of the module of the Node.js runtime.
    - An asynchronous method is a function in the monad [Async]: it
      threads the state of the store behind the client and the log of the
      commands sent, and ends with a value, a thrown error, or exhausted
      fuel.  The methods that call themselves or one another take a fuel
      argument, which bounds the depth of the calls. *)

From Stdlib Require Import String Ascii List ZArith Lia Bool Arith.
From Stdlib Require Import DecimalString.
From Stdlib Require DecimalFacts DecimalPos.
Import ListNotations.
Open Scope string_scope.
Open Scope nat_scope.

(* ================================================================== *)
(** * JavaScript string primitives *)
(* ================================================================== *)

Module Js.

(** [s.startsWith(t)] *)
Fixpoint startsWith (s t : string) {struct t} : bool :=
  match t, s with
  | EmptyString, _ => true
  | String b t', String a s' => Ascii.eqb a b && startsWith s' t'
  | String _ _, EmptyString => false
  end.

(** [s.endsWith(t)]: [t] is [s] or a suffix of a tail of [s]. *)
Fixpoint endsWith (s t : string) : bool :=
  (s =? t)%string ||
  match s with
  | EmptyString => false
  | String _ s' => endsWith s' t
  end.

(** [s.slice(1)] *)
Definition slice1 (s : string) : string :=
  match s with
  | EmptyString => EmptyString
  | String _ s' => s'
  end.

(** [s.slice(0, n)] for [0 <= n]. *)
Definition slice0 (n : nat) (s : string) : string := String.substring 0 n s.

(** [s.charCodeAt(n) === c]; out of range the code is [NaN] and the test fails. *)
Definition charIs (s : string) (n : nat) (c : ascii) : bool :=
  match String.get n s with
  | Some a => Ascii.eqb a c
  | None => false
  end.

(** [s.lastIndexOf(c)]; [None] stands for [-1]. *)
Fixpoint lastIndexOf (c : ascii) (s : string) : option nat :=
  match s with
  | EmptyString => None
  | String a s' =>
      match lastIndexOf c s' with
      | Some k => Some (S k)
      | None => if Ascii.eqb a c then Some 0 else None
      end
  end.

(** White space and line terminators below code unit 256:
    TAB, LF, VT, FF, CR, SPACE and NBSP. *)
Definition isWhiteSpace (c : ascii) : bool :=
  let n := nat_of_ascii c in
  ((9 <=? n) && (n <=? 13)) || (n =? 32) || (n =? 160).

Fixpoint trimStart (s : string) : string :=
  match s with
  | EmptyString => EmptyString
  | String c s' => if isWhiteSpace c then trimStart s' else s
  end.

Fixpoint trimEnd (s : string) : string :=
  match s with
  | EmptyString => EmptyString
  | String c s' =>
      match trimEnd s' with
      | EmptyString => if isWhiteSpace c then EmptyString else String c EmptyString
      | t => String c t
      end
  end.

(** [s.trim()] *)
Definition trim (s : string) : string := trimEnd (trimStart s).

(** Truthiness of a string: [!!s]. *)
Definition truthy (s : string) : bool := negb (s =? "")%string.

End Js.

(* ================================================================== *)
(** * [path.normalize] of the Node.js runtime (POSIX flavour) *)
(* ================================================================== *)

Module NodePath.

Definition CHAR_FORWARD_SLASH : ascii := "/"%char.
Definition CHAR_DOT : ascii := "."%char.

Definition isPosixPathSeparator (c : ascii) : bool :=
  Ascii.eqb c CHAR_FORWARD_SLASH.

(** The variables of the loop of [normalizeString].  The loop keeps the
    index [lastSlash] of the last separator met; the embedding keeps
    instead [seg], the characters read since that separator, which is
    [path.slice(lastSlash + 1, i)]: [lastSlash === i - 1] is [seg = ""]. *)
Record nstate : Type := mkN {
  res : string;
  lastSegmentLength : nat;
  seg : string;
  dots : Z;
  code : ascii
}.

Definition initial : nstate := mkN "" 0 "" 0 zero.

(** [lastSlash = i; dots = 0], at the end of the separator branch and
    before each [continue]. *)
Definition newSegment (r : string) (l : nat) (st : nstate) : nstate :=
  mkN r l "" 0 (code st).

Definition lastSegmentOf (r : string) : nat :=
  match Js.lastIndexOf CHAR_FORWARD_SLASH r with
  | Some k => String.length r - 1 - k
  | None => String.length r
  end.

(** The branch [if (allowAboveRoot) { res += ... '..' }]. *)
Definition aboveRoot (allowAboveRoot : bool) (st : nstate) : nstate :=
  if allowAboveRoot
  then newSegment (if 0 <? String.length (res st)
                   then res st ++ "/.." else "..") 2 st
  else newSegment (res st) (lastSegmentLength st) st.

(** Body of [if (isPathSeparator(code)) { ... }]. *)
Definition onSeparator (allowAboveRoot : bool) (st : nstate) : nstate :=
  let r := res st in
  let n := String.length r in
  if (seg st =? "")%string || (dots st =? 1)%Z then
    newSegment r (lastSegmentLength st) st
  else if (dots st =? 2)%Z then
    if (n <? 2) || negb (lastSegmentLength st =? 2)
       || negb (Js.charIs r (n - 1) CHAR_DOT)
       || negb (Js.charIs r (n - 2) CHAR_DOT)
    then
      if 2 <? n then
        match Js.lastIndexOf CHAR_FORWARD_SLASH r with
        | None => newSegment "" 0 st
        | Some k =>
            let r' := Js.slice0 k r in
            newSegment r' (lastSegmentOf r') st
        end
      else if negb (n =? 0) then newSegment "" 0 st
      else aboveRoot allowAboveRoot st
    else aboveRoot allowAboveRoot st
  else
    newSegment (if 0 <? n then r ++ "/" ++ seg st else seg st)
               (String.length (seg st)) st.

Definition snoc (s : string) (c : ascii) : string := s ++ String c "".

(** One iteration with [i < path.length]. *)
Definition onChar (allowAboveRoot : bool) (c : ascii) (st : nstate) : nstate :=
  let st := mkN (res st) (lastSegmentLength st) (seg st) (dots st) c in
  if isPosixPathSeparator c then onSeparator allowAboveRoot st
  else if Ascii.eqb c CHAR_DOT && negb (dots st =? -1)%Z then
    mkN (res st) (lastSegmentLength st) (snoc (seg st) c) (dots st + 1) c
  else
    mkN (res st) (lastSegmentLength st) (snoc (seg st) c) (-1) c.

(** The loop [for (let i = 0; i <= path.length; ++i)]: the last
    iteration stops if the last character was a separator and otherwise
    acts as if one more separator had been read. *)
Fixpoint normalizeLoop (allowAboveRoot : bool) (path : string) (st : nstate) : string :=
  match path with
  | EmptyString =>
      if isPosixPathSeparator (code st) then res st
      else res (onSeparator allowAboveRoot
                  (mkN (res st) (lastSegmentLength st) (seg st) (dots st)
                       CHAR_FORWARD_SLASH))
  | String c rest => normalizeLoop allowAboveRoot rest (onChar allowAboveRoot c st)
  end.

Definition normalizeString (path : string) (allowAboveRoot : bool) : string :=
  normalizeLoop allowAboveRoot path initial.

(** Modelled from the spec: [path.normalize] belongs to the Node.js
    runtime and is not part of the sources of the library; the spec asks
    for "platform-neutral path canonicalization semantics" that collapse
    [.], [..] and redundant separators.  The definition follows the POSIX
    implementation of the runtime ([posix.normalize] over
    [normalizeString]). *)
Definition normalize (path : string) : string :=
  if String.length path =? 0 then "." else
  let isAbsolute := Js.charIs path 0 CHAR_FORWARD_SLASH in
  let trailingSeparator :=
    Js.charIs path (String.length path - 1) CHAR_FORWARD_SLASH in
  let p := normalizeString path (negb isAbsolute) in
  if String.length p =? 0 then
    if isAbsolute then "/" else if trailingSeparator then "./" else "."
  else
    let p := if trailingSeparator then p ++ "/" else p in
    if isAbsolute then "/" ++ p else p.

End NodePath.

(* ================================================================== *)
(** * Path helpers of the class *)
(* ================================================================== *)

(** [export const AwsSimpleStorageServiceHiddenPrefix = '_.'] *)
Definition AwsSimpleStorageServiceHiddenPrefix : string := "_.".

Record IAwsSimpleStorageServiceNormalizedPath : Type := mkNormalizedPath {
  directory : bool;
  path : string
}.

(** [s.replace(/\/|\\+/g, '/')]: every forward slash is replaced by
    itself and every maximal run of backslashes by one forward slash.
    [inRun] tells that the previous character was a backslash. *)
Fixpoint replaceSeparatorsFrom (inRun : bool) (s : string) : string :=
  match s with
  | EmptyString => EmptyString
  | String c s' =>
      if Ascii.eqb c "\"%char then
        if inRun then replaceSeparatorsFrom true s'
        else String "/"%char (replaceSeparatorsFrom true s')
      else String c (replaceSeparatorsFrom false s')
  end.

Definition replaceSeparators (s : string) : string := replaceSeparatorsFrom false s.

(** [directory === true] *)
Definition isTrue (b : option bool) : bool :=
  match b with Some true => true | _ => false end.

(** [b ?? false] *)
Definition orFalse (b : option bool) : bool :=
  match b with Some v => v | None => false end.

Definition normalizePath (objectPath : string) (directory : option bool)
  : IAwsSimpleStorageServiceNormalizedPath :=
  let response_directory := orFalse directory in
  let response_path := replaceSeparators objectPath in
  let response_directory :=
    if (isTrue directory || Js.endsWith response_path "/" || Js.endsWith objectPath "/")
       && negb response_directory
    then true else response_directory in
  let response_path := replaceSeparators (NodePath.normalize (Js.trim response_path)) in
  let response_path :=
    if Js.startsWith response_path "/" then Js.slice1 response_path else response_path in
  let response_path :=
    if (isTrue directory || response_directory || Js.endsWith objectPath "/")
       && negb (Js.endsWith response_path "/")
    then replaceSeparators (NodePath.normalize (response_path ++ "/"))
    else response_path in
  mkNormalizedPath response_directory response_path.

Definition generateHiddenName (objectName : string) : string :=
  if Js.startsWith objectName AwsSimpleStorageServiceHiddenPrefix
  then AwsSimpleStorageServiceHiddenPrefix ++ objectName
  else objectName.

(* ================================================================== *)
(** * The store client *)
(* ================================================================== *)

(** Modelled from the spec: the commands and their outputs are declared by
    the client package of the object store ([@aws-sdk/client-s3]), not by
    the sources of the library; the spec lists them as [get], [put],
    [delete], [deleteMany], [headMeta] and [list(prefix, delimiter,
    continuationToken?)].  The fields are the ones the class reads or
    writes; [NextContinuationToken] is the cursor the store hands out with
    a truncated page, [ContinuationToken] echoes the token of the request. *)

Definition Body : Type := string.

(** Content of a [PutObjectCommand]: [content ?? (new Date).toISOString()]. *)
Inductive PutBody : Type :=
| BodyContent (content : Body)
| BodyIsoDate.

Inductive Command : Type :=
| DeleteObjectCommand (Bucket Key : string)
| DeleteObjectsCommand (Bucket : string) (Objects : list string)
| GetObjectCommand (Bucket Key : string) (Range : option string)
| HeadObjectCommand (Bucket Key : string)
| ListObjectsV2Command (Bucket : string) (ContinuationToken Delimiter : option string)
                       (Prefix : string)
| PutObjectCommand (ACL : string) (Body : PutBody) (Bucket Key : string)
                   (ServerSideEncryption SSEKMSKeyId : option string).

Record S3Object : Type := mkObject { Key : option string }.
Record CommonPrefix : Type := mkCommonPrefix { Prefix : option string }.

Record ListObjectsV2CommandOutput : Type := mkListing {
  Contents : option (list S3Object);
  CommonPrefixes : option (list CommonPrefix);
  IsTruncated : option bool;
  ContinuationToken : option string;
  NextContinuationToken : option string
}.

Record GetObjectCommandOutput : Type := mkGetOutput { GetBody : option Body }.
Record PutObjectCommandOutput : Type := mkPutOutput { ETag : option string }.
Record HeadObjectCommandOutput : Type := mkHeadOutput { ContentLength : option nat }.
Record DeleteObjectCommandOutput : Type := mkDeleteOutput { DeleteMarker : option bool }.
Record DeleteObjectsCommandOutput : Type := mkDeletesOutput { Deleted : option (list string) }.

(** A JavaScript error: [error.name] and [error.message]. *)
Record Error : Type := mkError { name : string; message : string }.

(** The settlement of the promise that [client.send] returns. *)
Inductive Response (A : Type) : Type :=
| Fulfilled (a : A)
| Rejected (e : Error).
Arguments Fulfilled {A} a.
Arguments Rejected {A} e.

(** The client, over the state [St] of the store behind it: one entry per
    command, from the command input and the state to the response and the
    next state. *)
Record S3 (St : Type) : Type := mkS3 {
  sendDeleteObject : string -> string -> St -> Response DeleteObjectCommandOutput * St;
  sendDeleteObjects : string -> list string -> St -> Response DeleteObjectsCommandOutput * St;
  sendGetObject : string -> string -> option string -> St -> Response GetObjectCommandOutput * St;
  sendHeadObject : string -> string -> St -> Response HeadObjectCommandOutput * St;
  sendListObjectsV2 : string -> option string -> option string -> string -> St ->
                      Response ListObjectsV2CommandOutput * St;
  sendPutObject : string -> PutBody -> string -> string -> option string -> option string ->
                  St -> Response PutObjectCommandOutput * St
}.
Arguments sendDeleteObject {St}.
Arguments sendDeleteObjects {St}.
Arguments sendGetObject {St}.
Arguments sendHeadObject {St}.
Arguments sendListObjectsV2 {St}.
Arguments sendPutObject {St}.

Record IAwsSimpleStorageServiceConfiguration : Type := mkConfiguration {
  accessKeyId : string;
  bucket : string;
  keyManagementServiceKeyId : option string;
  region : string;
  secretAccessKey : string;
  userAgent : option string
}.

(* ================================================================== *)
(** * The monad of asynchronous methods *)
(* ================================================================== *)

(** What a method sees and changes: the state of the store and the log of
    the commands sent so far, oldest first. *)
Record World (St : Type) : Type := mkWorld {
  store : St;
  log : list Command
}.
Arguments mkWorld {St}.
Arguments store {St}.
Arguments log {St}.

Inductive Outcome (A : Type) : Type :=
| Return (a : A)          (* the promise is fulfilled *)
| Throw (e : Error)       (* the promise is rejected *)
| OutOfFuel.              (* the call stack is deeper than the fuel *)
Arguments Return {A} a.
Arguments Throw {A} e.
Arguments OutOfFuel {A}.

Definition Async (St A : Type) : Type := World St -> Outcome A * World St.

Definition ret {St A} (a : A) : Async St A := fun w => (Return a, w).
Definition throw {St A} (e : Error) : Async St A := fun w => (Throw e, w).
Definition outOfFuel {St A} : Async St A := fun w => (OutOfFuel, w).

Definition bind {St A B} (m : Async St A) (k : A -> Async St B) : Async St B :=
  fun w =>
    match m w with
    | (Return a, w') => k a w'
    | (Throw e, w') => (Throw e, w')
    | (OutOfFuel, w') => (OutOfFuel, w')
    end.

(** [try { m } catch (error) { h error }] *)
Definition tryCatch {St A} (m : Async St A) (h : Error -> Async St A) : Async St A :=
  fun w =>
    match m w with
    | (Throw e, w') => h e w'
    | r => r
    end.

(** [await client.send(command)] *)
Definition send {St A} (c : Command) (f : St -> Response A * St) : Async St A :=
  fun w =>
    let '(r, s) := f (store w) in
    let w' := mkWorld s (log w ++ [c])%list in
    match r with
    | Fulfilled a => (Return a, w')
    | Rejected e => (Throw e, w')
    end.

Declare Scope async_scope.
Delimit Scope async_scope with async.
Notation "x <- m ;; k" := (bind m (fun x => k))
  (at level 61, m at next level, right associativity) : async_scope.
Notation "m ;;; k" := (bind m (fun _ => k))
  (at level 61, right associativity) : async_scope.
Open Scope async_scope.

(** [for (const x of xs) acc = await f(acc, x)] *)
Fixpoint forOf {St A B} (xs : list A) (acc : B) (f : B -> A -> Async St B) : Async St B :=
  match xs with
  | [] => ret acc
  | x :: xs' => acc' <- f acc x ;; forOf xs' acc' f
  end.

(** [xs ?? []] *)
Definition orEmpty {A} (xs : option (list A)) : list A :=
  match xs with Some l => l | None => [] end.

(** [!!o.Key], [!!p.Prefix], [!!id]: defined and not the empty string. *)
Definition truthyKey (k : option string) : option string :=
  match k with
  | Some s => if Js.truthy s then Some s else None
  | None => None
  end.

(* ================================================================== *)
(** * [String.prototype.replace] with a string pattern *)
(* ================================================================== *)

(** [s.slice(n)] *)
Fixpoint sliceFrom (n : nat) (s : string) : string :=
  match n, s with
  | 0, _ => s
  | S n', String _ s' => sliceFrom n' s'
  | S _, EmptyString => EmptyString
  end.

(** The text before and after the first occurrence of [pat] in [s]. *)
Fixpoint splitAtFirst (pat s : string) : option (string * string) :=
  if Js.startsWith s pat then Some ("", sliceFrom (String.length pat) s)
  else match s with
       | EmptyString => None
       | String c s' =>
           match splitAtFirst pat s' with
           | Some (before, after) => Some (String c before, after)
           | None => None
           end
       end.

(** The replacement text: [$$], [$&], [$`] and [$'] are expanded; a
    string pattern has no captures, so any other [$] stands for itself. *)
Fixpoint getSubstitution (matched before after replacement : string) : string :=
  match replacement with
  | EmptyString => EmptyString
  | String c r =>
      if Ascii.eqb c "$"%char then
        match r with
        | String d r' =>
            if Ascii.eqb d "$"%char then String "$"%char (getSubstitution matched before after r')
            else if Ascii.eqb d "&"%char then matched ++ getSubstitution matched before after r'
            else if Ascii.eqb d "`"%char then before ++ getSubstitution matched before after r'
            else if Ascii.eqb d "'"%char then after ++ getSubstitution matched before after r'
            else String c (getSubstitution matched before after r)
        | EmptyString => String c EmptyString
        end
      else String c (getSubstitution matched before after r)
  end.

(** [s.replace(pat, replacement)]: only the first occurrence is replaced. *)
Definition replace (s pat replacement : string) : string :=
  match splitAtFirst pat s with
  | Some (before, after) => before ++ getSubstitution pat before after replacement ++ after
  | None => s
  end.

(* ================================================================== *)
(** * JavaScript numbers *)
(* ================================================================== *)

(** A number of the language, which is a binary64 value, held by what
    the language tells of it: [NaN], an infinity, a zero with its sign, or
    a finite number other than zero with its sign and the decimal
    [significand * 10 ^ exponent] that the language prints for it.  That
    decimal is the shortest one that denotes the number (ECMA-262,
    [Number::toString], step 5); for an integer of magnitude up to
    [2 ^ 53] it is the integer itself.  Zeros at the end of the
    significand count with the exponent.  The methods apply [!!] and
    template literals to their numbers and nothing else, so this is all
    of a number that they can tell. *)
Inductive Number : Type :=
| NaN
| Infinity (negative : bool)
| Zero (negative : bool)
| Finite (negative : bool) (significand : positive) (exponent : Z).

(** [!!x] for a number: [NaN], [+0] and [-0] are the falsy ones. *)
Definition numberToBoolean (x : Number) : bool :=
  match x with
  | NaN => false
  | Zero _ => false
  | Infinity _ => true
  | Finite _ _ _ => true
  end.

(** [n] occurrences of the digit zero. *)
Fixpoint zeros (n : nat) : string :=
  match n with
  | 0 => ""
  | S n' => String "0" (zeros n')
  end.

(** [Number::toString] in radix ten for the positive finite number
    [significand * 10 ^ exponent] (ECMA-262, steps 5 to 11): [s] holds
    the [k] digits without the zeros at the end, and [n] places the
    decimal point after the first [n] digits.  Plain digits for [n] from
    [-5] to [21], exponent notation outside. *)
Definition decimalToString (significand : positive) (exponent : Z) : string :=
  let (s, trailing) := Decimal.nztail (Pos.to_uint significand) in
  let k := Decimal.nb_digits s in
  let n := (Z.of_nat k + Z.of_nat trailing + exponent)%Z in
  if ((-5 <=? n) && (n <=? 21))%Z then
    if (Z.of_nat k <=? n)%Z then
      NilEmpty.string_of_uint s ++ zeros (Z.to_nat (n - Z.of_nat k))
    else if (0 <? n)%Z then
      NilEmpty.string_of_uint (Decimal.del_tail (k - Z.to_nat n) s) ++ "." ++
      NilEmpty.string_of_uint (Decimal.del_head (Z.to_nat n) s)
    else
      "0." ++ zeros (Z.to_nat (- n)) ++ NilEmpty.string_of_uint s
  else
    let exponentSign := if (n <? 0)%Z then "-" else "+" in
    let e := NilZero.string_of_int (Z.to_int (Z.abs (n - 1))) in
    if k =? 1 then
      NilEmpty.string_of_uint s ++ "e" ++ exponentSign ++ e
    else
      NilEmpty.string_of_uint (Decimal.del_tail (k - 1) s) ++ "." ++
      NilEmpty.string_of_uint (Decimal.del_head 1 s) ++ "e" ++ exponentSign ++ e.

(** [`${x}`] for a number. *)
Definition numberToString (x : Number) : string :=
  match x with
  | NaN => "NaN"
  | Zero _ => "0"
  | Infinity negative => (if negative then "-" else "") ++ "Infinity"
  | Finite negative significand exponent =>
      (if negative then "-" else "") ++ decimalToString significand exponent
  end.

(** [!!n] for an optional number: the number when it is defined and
    truthy. *)
Definition truthyNumber (n : option Number) : option Number :=
  match n with
  | Some v => if numberToBoolean v then Some v else None
  | None => None
  end.

(* ================================================================== *)
(** * The asynchronous methods of the class *)
(* ================================================================== *)

(** [DeleteObjectCommandOutput | DeleteObjectsCommandOutput]; [null] is
    [None] of the option around it. *)
Inductive DeleteOutput : Type :=
| OneDeleted (o : DeleteObjectCommandOutput)
| ManyDeleted (o : DeleteObjectsCommandOutput).

(** [string | string[]] *)
Inductive Keys : Type :=
| OneKey (k : string)
| ManyKeys (ks : list string).

Section Service.

(** The static properties [client] and [configuration] once
    [configure] has run; every method runs it on first use. *)
Context {St : Type}.
Variable client : S3 St.
Variable configuration : IAwsSimpleStorageServiceConfiguration.

Let Promise := Async St.

Definition headObjectAsync (objectPath : string) : Promise HeadObjectCommandOutput :=
  let normalizedObjectPath := normalizePath objectPath None in
  send (HeadObjectCommand (bucket configuration) (path normalizedObjectPath))
       (sendHeadObject client (bucket configuration) (path normalizedObjectPath)).

Definition objectExistsAsync (objectPath : string) : Promise bool :=
  let normalizedObjectPath := normalizePath objectPath None in
  tryCatch
    (headObjectAsync (path normalizedObjectPath) ;;; ret true)
    (fun error => if (name error =? "NotFound")%string then ret false else throw error).

Fixpoint listObjectsAsync (fuel : nat) (directoryPath continuationToken : option string)
  : Promise ListObjectsV2CommandOutput :=
  match fuel with
  | 0 => outOfFuel
  | S fuel' =>
      let normalizedObjectPath :=
        normalizePath (match directoryPath with Some d => d | None => "/" end) (Some true) in
      let delimiter :=
        if Js.truthy (path normalizedObjectPath) then Some "/" else None in
      request <- send (ListObjectsV2Command (bucket configuration) continuationToken
                         delimiter (path normalizedObjectPath))
                      (sendListObjectsV2 client (bucket configuration) continuationToken
                         delimiter (path normalizedObjectPath)) ;;
      if isTrue (IsTruncated request) then
        secondRequest <- listObjectsAsync fuel' directoryPath (ContinuationToken request) ;;
        ret (mkListing
               (Some (orEmpty (Contents request) ++ orEmpty (Contents secondRequest))%list)
               (CommonPrefixes request) (IsTruncated request)
               (ContinuationToken request) (NextContinuationToken request))
      else ret request
  end.

Definition directoryExistsAsync (fuel : nat) (objectPath : string) : Promise bool :=
  let objectPath := path (normalizePath objectPath (Some true)) in
  let objectPath := if Js.endsWith objectPath "/" then objectPath else objectPath ++ "/" in
  exists_ <- objectExistsAsync objectPath ;;
  if (exists_ : bool) then ret true
  else
    tryCatch
      (directoryContents <- listObjectsAsync fuel (Some objectPath) None ;;
       ret ((0 <? List.length (orEmpty (Contents directoryContents)))
            || (0 <? List.length (orEmpty (CommonPrefixes directoryContents)))))
      (fun error => if (name error =? "NotFound")%string then ret false else throw error).

Definition getObjectAsync (objectPath : string) (start end_ : option Number)
  : Promise GetObjectCommandOutput :=
  let normalizedObjectPath := normalizePath objectPath None in
  let range :=
    match truthyNumber start, truthyNumber end_ with
    | Some s, Some e => Some ("range=" ++ numberToString s ++ "-" ++ numberToString e)
    | Some s, None => Some ("range=" ++ numberToString s)
    | None, Some e => Some ("range=0-" ++ numberToString e)
    | None, None => None
    end in
  send (GetObjectCommand (bucket configuration) (path normalizedObjectPath) range)
       (sendGetObject client (bucket configuration) (path normalizedObjectPath) range).

Definition putObjectAsync (objectPath : string) (content : option Body)
  : Promise PutObjectCommandOutput :=
  let normalizedObjectPath := normalizePath objectPath None in
  let body := match content with Some c => BodyContent c | None => BodyIsoDate end in
  let kms := truthyKey (keyManagementServiceKeyId configuration) in
  let sse := match kms with Some _ => Some "aws:kms" | None => None end in
  send (PutObjectCommand "private" body (bucket configuration)
          (path normalizedObjectPath) sse kms)
       (sendPutObject client "private" body (bucket configuration)
          (path normalizedObjectPath) sse kms).

(** [deleteDirectoryAsync], [deleteObjectAsync] and [deleteObjectsAsync]
    call one another; each call takes one unit of fuel. *)
Fixpoint deleteDirectoryAsync (fuel : nat) (directoryPath : string) {struct fuel}
  : Promise (option DeleteOutput) :=
  match fuel with
  | 0 => outOfFuel
  | S fuel' =>
      let normalizedObjectPath := normalizePath directoryPath (Some true) in
      if negb (directory normalizedObjectPath)
      then throw (mkError "Error" "Path Not A Directory")
      else
        data <- listObjectsAsync fuel' (Some (path normalizedObjectPath)) None ;;
        if List.length (orEmpty (Contents data)) =? 0 then ret None
        else
          forOf (orEmpty (CommonPrefixes data)) tt
            (fun _ prefix =>
               match truthyKey (Prefix prefix) with
               | Some p => deleteDirectoryAsync fuel' p ;;; ret tt
               | None => ret tt
               end) ;;;
          let keysToDelete :=
            List.flat_map (fun o => match truthyKey (Key o) with
                                    | Some k => [k] | None => [] end)
                          (orEmpty (Contents data)) in
          deleteObjectsAsync fuel' (ManyKeys keysToDelete) ;;;
          o <- send (DeleteObjectCommand (bucket configuration) (path normalizedObjectPath))
                    (sendDeleteObject client (bucket configuration)
                       (path normalizedObjectPath)) ;;
          ret (Some (OneDeleted o))
  end

with deleteObjectAsync (fuel : nat) (objectPath : Keys) {struct fuel}
  : Promise (option DeleteOutput) :=
  match fuel with
  | 0 => outOfFuel
  | S fuel' =>
      match objectPath with
      | ManyKeys ks => deleteObjectsAsync fuel' (ManyKeys ks)
      | OneKey objectPath =>
          let normalizedObjectPath := normalizePath objectPath None in
          if directory normalizedObjectPath
          then deleteDirectoryAsync fuel' (path normalizedObjectPath)
          else
            o <- send (DeleteObjectCommand (bucket configuration) (path normalizedObjectPath))
                      (sendDeleteObject client (bucket configuration)
                         (path normalizedObjectPath)) ;;
            ret (Some (OneDeleted o))
      end
  end

with deleteObjectsAsync (fuel : nat) (keys : Keys) {struct fuel}
  : Promise (option DeleteOutput) :=
  match fuel with
  | 0 => outOfFuel
  | S fuel' =>
      match keys with
      | OneKey k =>
          if String.length k =? 0 then ret None
          else deleteObjectAsync fuel' (OneKey k)
      | ManyKeys ks =>
          if List.length ks =? 0 then ret None
          else
            let objects := List.map (fun k => path (normalizePath k None)) ks in
            o <- send (DeleteObjectsCommand (bucket configuration) objects)
                      (sendDeleteObjects client (bucket configuration) objects) ;;
            ret (Some (ManyDeleted o))
      end
  end.

(** The temporary file name that the method computes is never written
    to, so its [finally] block finds nothing to remove. *)
Definition copyObjectAsync (fuel : nat) (sourceObjectPath destinationObjectPath : string)
           (deleteOriginal : option bool) : Promise PutObjectCommandOutput :=
  let normalizedDestinationObjectPath := normalizePath destinationObjectPath None in
  let normalizedSourceObjectPath := normalizePath sourceObjectPath None in
  currentObject <- getObjectAsync (path normalizedSourceObjectPath) None None ;;
  newObject <- putObjectAsync (path normalizedDestinationObjectPath)
                              (GetBody currentObject) ;;
  (if isTrue deleteOriginal
   then deleteObjectAsync fuel (OneKey (path normalizedDestinationObjectPath)) ;;; ret tt
   else ret tt) ;;;
  ret newObject.

Fixpoint copyDirectoryAsync (fuel : nat) (sourceDirectoryPath destinationDirectoryPath : string)
         (deleteOriginal : option bool) : Promise (list PutObjectCommandOutput) :=
  match fuel with
  | 0 => outOfFuel
  | S fuel' =>
      let normalizedSourceDirectoryPath := normalizePath sourceDirectoryPath (Some true) in
      let normalizedDestinationDirectoryPath :=
        normalizePath destinationDirectoryPath (Some true) in
      found <- directoryExistsAsync fuel' (path normalizedSourceDirectoryPath) ;;
      if negb found then throw (mkError "Error" "Object Directory Not Found")
      else
        directory_ <- listObjectsAsync fuel' (Some (path normalizedSourceDirectoryPath)) None ;;
        response <-
          forOf (orEmpty (Contents directory_)) []
            (fun response object =>
               match truthyKey (Key object) with
               | Some key =>
                   r <- copyObjectAsync fuel' key
                          (replace key (path normalizedSourceDirectoryPath)
                                   (path normalizedDestinationDirectoryPath))
                          deleteOriginal ;;
                   ret (response ++ [r])%list
               | None => ret response
               end) ;;
        response <-
          forOf (orEmpty (CommonPrefixes directory_)) response
            (fun response subDirectory =>
               match truthyKey (Prefix subDirectory) with
               | Some prefix =>
                   rs <- copyDirectoryAsync fuel' prefix
                           (replace prefix (path normalizedSourceDirectoryPath)
                                    (path normalizedDestinationDirectoryPath))
                           deleteOriginal ;;
                   ret (response ++ rs)%list
               | None => ret response
               end) ;;
        (if isTrue deleteOriginal
         then
           found <- directoryExistsAsync fuel' (path normalizedSourceDirectoryPath) ;;
           if (found : bool)
           then deleteDirectoryAsync fuel' (path normalizedSourceDirectoryPath) ;;; ret tt
           else ret tt
         else ret tt) ;;;
        ret response
  end.

Definition moveDirectoryAsync (fuel : nat) (sourceDirectoryPath destinationDirectoryPath : string)
  : Promise (list PutObjectCommandOutput) :=
  copyDirectoryAsync fuel sourceDirectoryPath destinationDirectoryPath (Some true).

Definition moveObjectAsync (fuel : nat) (sourceObjectPath destinationObjectPath : string)
  : Promise unit :=
  copyObjectAsync fuel sourceObjectPath destinationObjectPath (Some true) ;;; ret tt.

End Service.

(* ================================================================== *)
(** * Stores to run the methods against *)
(* ================================================================== *)

(** An in-memory bucket with the listing rules of the object store: keys
    in stored order, a listing of [prefix] with a delimiter reports the
    keys without a delimiter after the prefix as contents and groups the
    others under their common prefix.  Every listing fits on one page. *)
Module MemoryStore.

Definition Objects : Type := list (string * Body).

Fixpoint get (k : string) (s : Objects) : option Body :=
  match s with
  | [] => None
  | (k', b) :: s' => if (k' =? k)%string then Some b else get k s'
  end.

Fixpoint put (k : string) (b : Body) (s : Objects) : Objects :=
  match s with
  | [] => [(k, b)]
  | (k', b') :: s' => if (k' =? k)%string then (k, b) :: s' else (k', b') :: put k b s'
  end.

Definition remove (k : string) (s : Objects) : Objects :=
  List.filter (fun e => negb (fst e =? k)%string) s.

Definition removeAll (ks : list string) (s : Objects) : Objects :=
  List.fold_left (fun s k => remove k s) ks s.

Definition keys (s : Objects) : list string := List.map fst s.

Definition isoDate : Body := "1970-01-01T00:00:00.000Z".

(** The common prefix of key [k] under [prefix], if the delimiter occurs
    after the prefix. *)
Definition commonPrefixOf (delimiter : option string) (prefix k : string) : option string :=
  match delimiter with
  | None => None
  | Some d =>
      match splitAtFirst d (sliceFrom (String.length prefix) k) with
      | Some (before, _) => Some (prefix ++ before ++ d)
      | None => None
      end
  end.

Fixpoint listing (delimiter : option string) (prefix : string) (ks : list string)
         (contents prefixes : list string) : list string * list string :=
  match ks with
  | [] => (contents, prefixes)
  | k :: ks' =>
      if Js.startsWith k prefix then
        match commonPrefixOf delimiter prefix k with
        | Some p =>
            if List.existsb (String.eqb p) prefixes
            then listing delimiter prefix ks' contents prefixes
            else listing delimiter prefix ks' contents (prefixes ++ [p])
        | None => listing delimiter prefix ks' (contents ++ [k]) prefixes
        end
      else listing delimiter prefix ks' contents prefixes
  end.

Definition nonEmpty {A} (l : list A) : option (list A) :=
  match l with [] => None | _ => Some l end.

Definition list_ (token delimiter : option string) (prefix : string) (s : Objects)
  : ListObjectsV2CommandOutput :=
  let '(contents, prefixes) := listing delimiter prefix (keys s) [] [] in
  mkListing (nonEmpty (List.map (fun k => mkObject (Some k)) contents))
            (nonEmpty (List.map (fun p => mkCommonPrefix (Some p)) prefixes))
            (Some false) token None.

Definition client : S3 Objects :=
  mkS3 Objects
    (fun _ k s => (Fulfilled (mkDeleteOutput None), remove k s))
    (fun _ ks s => (Fulfilled (mkDeletesOutput (Some ks)), removeAll ks s))
    (fun _ k _ s =>
       match get k s with
       | Some b => (Fulfilled (mkGetOutput (Some b)), s)
       | None => (Rejected (mkError "NoSuchKey" "The specified key does not exist."), s)
       end)
    (fun _ k s =>
       match get k s with
       | Some b => (Fulfilled (mkHeadOutput (Some (String.length b))), s)
       | None => (Rejected (mkError "NotFound" "UnknownError"), s)
       end)
    (fun _ token delimiter prefix s => (Fulfilled (list_ token delimiter prefix s), s))
    (fun _ body _ k _ _ s =>
       (Fulfilled (mkPutOutput None),
        put k (match body with BodyContent c => c | BodyIsoDate => isoDate end) s)).

Definition configuration : IAwsSimpleStorageServiceConfiguration :=
  mkConfiguration "id" "bucket" None "us-east-1" "secret" None.

Definition start (s : Objects) : World Objects := mkWorld s [].

End MemoryStore.

(** A store that only lists, and follows the paging protocol of the
    object store: a page that is not the last one is truncated and carries
    the cursor of the next page in [NextContinuationToken]; the response
    echoes the token of the request in [ContinuationToken].  The first
    page answers a request without a token. *)
Module PagedStore.

Definition tokenOf (i : nat) : string := "page-" ++ NilZero.string_of_uint (Nat.to_uint i).

(** The index of the page that [token] asks for, among [n] pages. *)
Fixpoint pageIndex (token : string) (n : nat) : option nat :=
  match n with
  | 0 => None
  | S n' => if (tokenOf n' =? token)%string then Some n' else pageIndex token n'
  end.

Definition page (pages : list (list string)) (token : option string)
  : Response ListObjectsV2CommandOutput :=
  let index := match token with
               | None => Some 0
               | Some t => pageIndex t (List.length pages)
               end in
  match index with
  | Some i =>
      match List.nth_error pages i with
      | Some ks =>
          let more := S i <? List.length pages in
          Fulfilled (mkListing (Some (List.map (fun k => mkObject (Some k)) ks)) None
                               (Some more) token
                               (if more then Some (tokenOf (S i)) else None))
      | None => Rejected (mkError "NoSuchKey" "no such page")
      end
  | None => Rejected (mkError "InvalidArgument" "The continuation token provided is incorrect")
  end.

Definition unsupported {A} : Response A := Rejected (mkError "NotImplemented" "").

Definition client (pages : list (list string)) : S3 unit :=
  mkS3 unit
    (fun _ _ s => (unsupported, s))
    (fun _ _ s => (unsupported, s))
    (fun _ _ _ s => (unsupported, s))
    (fun _ _ s => (unsupported, s))
    (fun _ token _ _ s => (page pages token, s))
    (fun _ _ _ _ _ _ s => (unsupported, s)).

End PagedStore.

(** A store that answers the successive list calls with the successive
    pages of a script, whatever the request says. *)
Module ScriptedStore.

Definition Script : Type := list ListObjectsV2CommandOutput.

Definition next (s : Script) : Response ListObjectsV2CommandOutput * Script :=
  match s with
  | p :: s' => (Fulfilled p, s')
  | [] => (Rejected (mkError "NoSuchKey" "end of script"), [])
  end.

Definition client : S3 Script :=
  mkS3 Script
    (fun _ _ s => (PagedStore.unsupported, s))
    (fun _ _ s => (PagedStore.unsupported, s))
    (fun _ _ _ s => (PagedStore.unsupported, s))
    (fun _ _ s => (PagedStore.unsupported, s))
    (fun _ _ _ _ s => next s)
    (fun _ _ _ _ _ _ s => (PagedStore.unsupported, s)).

End ScriptedStore.

(* ================================================================== *)
(** * Vocabulary of the properties *)
(* ================================================================== *)

(** ** Paths as lists of segments *)

(** [allChars f s]: every character of [s] passes the test [f]. *)
Fixpoint allChars (f : ascii -> bool) (s : string) : bool :=
  match s with
  | EmptyString => true
  | String c s' => f c && allChars f s'
  end.

Definition notSlash (c : ascii) : bool := negb (Ascii.eqb c "/").
Definition isDot (c : ascii) : bool := Ascii.eqb c ".".
Definition notBackslash (c : ascii) : bool := negb (Ascii.eqb c "\").

Definition slashFree : string -> bool := allChars notSlash.

(** [segs.join("/")] *)
Definition join (segs : list string) : string := String.concat "/" segs.

(** A segment kept on the stack: not empty and without a separator. *)
Definition isSegment (s : string) : Prop := s <> "" /\ slashFree s = true.

(** What [normalizeString] does with the segment [s] once the separator
    after it is read, on the list of the segments kept so far. *)
Definition pushSegment (allowAboveRoot : bool) (stack : list string) (s : string)
  : list string :=
  if (s =? "")%string || (s =? ".")%string then stack
  else if (s =? "..")%string then
    if (List.length stack =? 0) || (List.last stack "" =? "..")%string
    then (if allowAboveRoot then stack ++ [".."] else stack)%list
    else List.removelast stack
  else (stack ++ [s])%list.

(** The value of the counter [dots] after reading the segment [s]. *)
Definition dotsOf (s : string) : Z :=
  if allChars isDot s then Z.of_nat (String.length s) else (-1)%Z.

(** [normalizeString] on the list of segments: the segments that are kept
    after reading [path], from the segments [stack] kept so far and the
    characters [seg] read since the last separator. *)
Fixpoint segmentsLoop (allowAboveRoot : bool) (path : string) (stack : list string)
         (seg : string) : list string :=
  match path with
  | EmptyString => pushSegment allowAboveRoot stack seg
  | String c rest =>
      if Ascii.eqb c "/"
      then segmentsLoop allowAboveRoot rest (pushSegment allowAboveRoot stack seg) ""
      else segmentsLoop allowAboveRoot rest stack (NodePath.snoc seg c)
  end.

(** A segment other than [.] and [..]. *)
Definition isNormal (s : string) : Prop := isSegment s /\ s <> "." /\ s <> "..".

(** The lists of segments that [normalizeString] returns: some [..] first,
    and only if the path is relative, then segments other than [.] and
    [..]. *)
Definition canonical (allowAboveRoot : bool) (segs : list string) : Prop :=
  exists n rest,
    segs = (List.repeat ".." n ++ rest)%list /\
    List.Forall isNormal rest /\
    (allowAboveRoot = false -> n = 0).

(** The result of [path.normalize] from the segments kept. *)
Definition render (absolute trailing : bool) (segs : list string) : string :=
  match segs with
  | [] => if absolute then "/" else if trailing then "./" else "."
  | _ => (if absolute then "/" else "") ++ join segs ++ (if trailing then "/" else "")
  end.

Definition segmentsOf (p : string) : list string :=
  segmentsLoop (negb (Js.startsWith p "/")) p [] "".

(** The key that [normalizePath] returns, from the segments kept. *)
Definition keyOfSegments (dir absolute : bool) (segs : list string) : string :=
  match segs with
  | [] => if dir then (if absolute then "/" else "./") else (if absolute then "" else ".")
  | _ => join segs ++ (if dir then "/" else "")
  end.

Definition noBackslash : string -> bool := allChars notBackslash.

(** The key of a path that is not a directory, from the segments kept. *)
Definition fileKeyOfSegments (absolute trailing : bool) (segs : list string) : string :=
  match segs with
  | [] => if absolute then "" else if trailing then "./" else "."
  | _ => join segs ++ (if trailing then "/" else "")
  end.

(** ** Commands, listings and examples *)

(** The number that is the integer [z], for [z] of magnitude up to
    [2 ^ 53]: the language holds such an integer exactly and prints it
    with its own digits. *)
Definition integer (z : Z) : Number :=
  match z with
  | Z0 => Zero false
  | Zpos p => Finite false p 0
  | Zneg p => Finite true p 0
  end.

(** What [Decimal.nztail] does to the digits in reverse order: the zeros
    at the front are counted and taken off. *)
Definition nztailRev : Decimal.uint -> Decimal.uint * nat :=
  fix aux (d_rev : Decimal.uint) : Decimal.uint * nat :=
    match d_rev with
    | Decimal.D0 d_rev0 => let (r, n) := aux d_rev0 in (r, S n)
    | _ => (d_rev, 0)
    end.

(** [n] is given: a number that is neither [NaN] nor a zero. *)
Definition given (n : option Number) : Prop :=
  exists v, n = Some v /\ v <> NaN /\ forall negative, v <> Zero negative.

(** [n] is not given: it is absent, [NaN] or a zero. *)
Definition notGiven (n : option Number) : Prop :=
  n = None \/ n = Some NaN \/ exists negative, n = Some (Zero negative).

Definition isListCommand (c : Command) : bool :=
  match c with
  | ListObjectsV2Command _ _ _ _ => true
  | _ => false
  end.

(** The command that [listObjectsAsync] sends for a directory and a token. *)
Definition listCommand (configuration : IAwsSimpleStorageServiceConfiguration)
           (directoryPath continuationToken : option string) : Command :=
  let normalizedObjectPath :=
    normalizePath (match directoryPath with Some d => d | None => "/" end) (Some true) in
  ListObjectsV2Command (bucket configuration) continuationToken
    (if Js.truthy (path normalizedObjectPath) then Some "/" else None)
    (path normalizedObjectPath).

(** The result of merging the pages [pages] and then [last] the way
    [listObjectsAsync] does: the first page, with the contents of all. *)
Fixpoint aggregate (pages : list ListObjectsV2CommandOutput) (last : ListObjectsV2CommandOutput)
  : ListObjectsV2CommandOutput :=
  match pages with
  | [] => last
  | p :: ps =>
      mkListing (Some (orEmpty (Contents p) ++ orEmpty (Contents (aggregate ps last)))%list)
                (CommonPrefixes p) (IsTruncated p) (ContinuationToken p)
                (NextContinuationToken p)
  end.

Definition twoPages : ScriptedStore.Script :=
  [ mkListing (Some [mkObject (Some "d/a")]) None (Some true) (Some "t1") None;
    mkListing (Some [mkObject (Some "d/b")]) None (Some false) None None ].

Definition markedDirectory : MemoryStore.Objects := [("d/", ""); ("d/x", "X"); ("k", "K")].

(** The key that a method sends for a path it was given already
    normalized by its caller. *)
Definition keyOf (p : string) : string :=
  path (normalizePath (path (normalizePath p None)) None).

(** The tree of the copy and move examples. *)
Definition sourceTree : MemoryStore.Objects := [("src/a.txt", "A"); ("src/sub/b.txt", "B")].

(* ================================================================== *)
(** * More helpers of the class *)
(* ================================================================== *)

(** [s.split(sep)] for a separator of one character. *)
Fixpoint splitChar (sep : ascii) (s : string) : list string :=
  match s with
  | EmptyString => [EmptyString]
  | String c s' =>
      if Ascii.eqb c sep then EmptyString :: splitChar sep s'
      else match splitChar sep s' with
           | h :: t => String c h :: t
           | [] => [String c EmptyString]
           end
  end.

(** [xs[i]]: [undefined] when the index is out of range. *)
Definition elementAt (xs : list string) (i : Z) : option string :=
  if (i <? 0)%Z then None else List.nth_error xs (Z.to_nat i).

(** [x + s] where [x] is a string or [undefined]. *)
Definition plusString (x : option string) (s : string) : string :=
  match x with
  | Some v => v ++ s
  | None => "undefined" ++ s
  end.

Definition getObjectName (objectPath : string) : string :=
  let objectNameParts :=
    splitChar "/" (replaceSeparators (NodePath.normalize (Js.trim objectPath))) in
  let length := Z.of_nat (List.length objectNameParts) in
  let objectName := elementAt objectNameParts (length - 1) in
  match objectName with
  | Some name =>
      if Js.truthy name then name
      else plusString (elementAt objectNameParts (length - 2)) "/"
  | None => plusString (elementAt objectNameParts (length - 2)) "/"
  end.

Definition trimObjectPath (objectPath : string) : string :=
  let objectPath := replaceSeparators (NodePath.normalize (Js.trim objectPath)) in
  if (objectPath =? "/")%string then objectPath
  else
    let objectPath :=
      if Js.startsWith objectPath "/" then Js.slice1 objectPath else objectPath in
    if Js.endsWith objectPath "/"
    then Js.slice0 (String.length objectPath - 1) objectPath
    else objectPath.

Definition getTrimmedObjectName (objectPath : string) : string :=
  trimObjectPath (getObjectName objectPath).

Definition isHidden (objectPath : string) : bool :=
  Js.startsWith (getTrimmedObjectName objectPath) AwsSimpleStorageServiceHiddenPrefix.

(** A bucket that can be read and not written: it answers as the
    in-memory bucket does, except that it rejects every put. *)
Module ReadOnlyStore.

Definition client : S3 MemoryStore.Objects :=
  mkS3 MemoryStore.Objects
    (sendDeleteObject MemoryStore.client)
    (sendDeleteObjects MemoryStore.client)
    (sendGetObject MemoryStore.client)
    (sendHeadObject MemoryStore.client)
    (sendListObjectsV2 MemoryStore.client)
    (fun _ _ _ _ _ _ s => (Rejected (mkError "AccessDenied" "Access Denied"), s)).

End ReadOnlyStore.

(** Pages of a listing, the second with a common prefix of its own. *)
Definition prefixedPages : ScriptedStore.Script :=
  [ mkListing (Some [mkObject (Some "d/a")]) (Some [mkCommonPrefix (Some "d/x/")])
              (Some true) (Some "t1") None;
    mkListing (Some [mkObject (Some "d/b")]) (Some [mkCommonPrefix (Some "d/y/")])
              (Some false) None None ].

(* ================================================================== *)
(** * More vocabulary *)
(* ================================================================== *)

(** The name of an object or of a directory: a segment other than [.]
    and [..], without backslash and without white space at either end. *)
Definition isName (n : string) : Prop :=
  isNormal n /\ noBackslash n = true /\ Js.trimStart n = n /\ Js.trimEnd n = n.

(** What comes before a name in a path: nothing, or a path that ends
    with a separator. *)
Definition isDirectoryPrefix (d : string) : Prop :=
  d = "" \/ exists d', d = d' ++ "/".

(** Every command that [m] sends passes the test [P]. *)
Definition sendsOnly {St A} (P : Command -> bool) (m : Async St A) : Prop :=
  forall w, exists cs,
    log (snd (m w)) = (log w ++ cs)%list /\ List.forallb P cs = true.

Definition isProbeCommand (c : Command) : bool :=
  match c with
  | HeadObjectCommand _ _ | ListObjectsV2Command _ _ _ _ => true
  | _ => false
  end.

Definition isDeleteCommand (c : Command) : bool :=
  match c with
  | DeleteObjectCommand _ _ | DeleteObjectsCommand _ _ => true
  | _ => false
  end.

Definition isListOrDeleteCommand (c : Command) : bool :=
  isListCommand c || isDeleteCommand c.

(** The bucket that a command names. *)
Definition bucketOf (c : Command) : string :=
  match c with
  | DeleteObjectCommand b _ | DeleteObjectsCommand b _ | GetObjectCommand b _ _
  | HeadObjectCommand b _ | ListObjectsV2Command b _ _ _
  | PutObjectCommand _ _ b _ _ _ => b
  end.

Definition inBucket (b : string) (c : Command) : bool := (bucketOf c =? b)%string.

Definition notDollar (c : ascii) : bool := negb (Ascii.eqb c "$").

(** A list command with the separator as delimiter and a prefix that
    ends with the separator. *)
Definition isDelimitedListCommand (c : Command) : bool :=
  match c with
  | ListObjectsV2Command _ _ (Some delimiter) prefix =>
      (delimiter =? "/")%string && Js.endsWith prefix "/"
  | _ => false
  end.

Definition isHeadCommand (c : Command) : bool :=
  match c with
  | HeadObjectCommand _ _ => true
  | _ => false
  end.

(** The commands that a copy may send: no delete, unless the original is
    to be deleted. *)
Definition isCopyCommand (deleteOriginal : option bool) (c : Command) : bool :=
  isTrue deleteOriginal || negb (isDeleteCommand c).

(* ================================================================== *)
(** * Properties of path normalization *)
(* ================================================================== *)

(** ** Examples *)

Example normalize_examples :
  List.map NodePath.normalize
    ["/foo/bar//baz/asdf/quux/.."; "a/b/../../../c"; "a/../"; "/.."; "bar/foo../../"; ""]
  = ["/foo/bar/baz/asdf"; "../c"; "./"; "/"; "bar/"; "."].
Proof. reflexivity. Qed.

Example normalizePath_examples :
  normalizePath "a//b\c" None = mkNormalizedPath false "a/b/c" /\
  normalizePath "a/b" (Some true) = mkNormalizedPath true "a/b/" /\
  normalizePath "/a/./b/../c/" None = mkNormalizedPath true "a/c/" /\
  normalizePath "  x\\y  " (Some false) = mkNormalizedPath false "x/y" /\
  normalizePath "/" (Some true) = mkNormalizedPath true "/".
Proof. repeat split; reflexivity. Qed.

Example replace_examples :
  replace "src/a/src/b" "src/" "dst/" = "dst/a/src/b" /\
  replace "src/a" "x/" "dst/" = "src/a" /\
  replace "src/a" "src/" "$&$$/" = "src/$/a".
Proof. repeat split; reflexivity. Qed.

(** ** Facts on strings *)

Lemma append_nil_r (s : string) : s ++ "" = s.
Proof. induction s; simpl; congruence. Qed.

Lemma append_assoc (a b c : string) : (a ++ b) ++ c = a ++ b ++ c.
Proof. induction a; simpl; congruence. Qed.

Lemma length_append (a b : string) :
  String.length (a ++ b) = String.length a + String.length b.
Proof. induction a; simpl; congruence. Qed.

Lemma length_zero (s : string) : String.length s = 0 -> s = "".
Proof. destruct s; simpl; [reflexivity|discriminate]. Qed.

Lemma get_append_r (a b : string) (n : nat) :
  String.get (String.length a + n) (a ++ b) = String.get n b.
Proof. induction a; simpl; auto. Qed.

Lemma slice0_append (a b : string) : Js.slice0 (String.length a) (a ++ b) = a.
Proof.
  unfold Js.slice0. induction a; simpl.
  - now destruct b.
  - now rewrite IHa.
Qed.

Lemma allChars_append f (a b : string) :
  allChars f (a ++ b) = allChars f a && allChars f b.
Proof. induction a; simpl; [reflexivity|]. now rewrite IHa, andb_assoc. Qed.

Lemma lastIndexOf_append (c : ascii) (a b : string) :
  Js.lastIndexOf c (a ++ b) =
  match Js.lastIndexOf c b with
  | Some k => Some (String.length a + k)
  | None => Js.lastIndexOf c a
  end.
Proof.
  induction a as [|x a IH]; simpl.
  - now destruct (Js.lastIndexOf c b).
  - rewrite IH. destruct (Js.lastIndexOf c b); [reflexivity|].
    reflexivity.
Qed.

Lemma lastIndexOf_slashFree (s : string) :
  slashFree s = true -> Js.lastIndexOf "/" s = None.
Proof.
  induction s as [|c s IH]; simpl; [reflexivity|].
  intros H. apply andb_true_iff in H as [Hc H]. rewrite (IH H).
  unfold notSlash in Hc. now destruct (Ascii.eqb c "/").
Qed.

Lemma lastIndexOf_last_slash (a b : string) :
  slashFree b = true -> Js.lastIndexOf "/" (a ++ "/" ++ b) = Some (String.length a).
Proof.
  intros H. rewrite lastIndexOf_append. simpl.
  rewrite (lastIndexOf_slashFree _ H). simpl. f_equal. lia.
Qed.

(** [endsWith s "/"] and [startsWith s "/"], and the tests of Node on
    character codes. *)
Lemma endsWith_slash_cons (c : ascii) (s : string) :
  Js.endsWith (String c s) "/" =
  match s with EmptyString => Ascii.eqb c "/" | _ => Js.endsWith s "/" end.
Proof.
  simpl. destruct s as [|d s]; simpl.
  - destruct (Ascii.eqb c "/"); reflexivity.
  - destruct (Ascii.eqb c "/"); reflexivity.
Qed.

Lemma endsWith_append_slash (a : string) : Js.endsWith (a ++ "/") "/" = true.
Proof.
  induction a as [|c a IH]; [reflexivity|].
  change (String c a ++ "/") with (String c (a ++ "/")).
  rewrite endsWith_slash_cons. destruct (a ++ "/") eqn:E; [|exact IH].
  destruct a; discriminate.
Qed.

Lemma endsWith_append_slashFree (a b : string) :
  b <> "" -> slashFree b = true -> Js.endsWith (a ++ b) "/" = false.
Proof.
  intros Hb Hs. induction a as [|c a IH].
  - simpl. clear Hb. induction b as [|c b IH]; [reflexivity|].
    rewrite endsWith_slash_cons. simpl in Hs. apply andb_true_iff in Hs as [Hc Hs].
    destruct b; [|auto]. unfold notSlash in Hc. now destruct (Ascii.eqb c "/").
  - change (String c a ++ b) with (String c (a ++ b)).
    rewrite endsWith_slash_cons. destruct (a ++ b) eqn:E; [|exact IH].
    destruct a; [|discriminate]. simpl in E. congruence.
Qed.

Lemma charIs_last (s : string) :
  Js.charIs s (String.length s - 1) "/" = Js.endsWith s "/".
Proof.
  induction s as [|c s IH]; [reflexivity|].
  rewrite endsWith_slash_cons. unfold Js.charIs in *. simpl.
  destruct s as [|d s]; [reflexivity|].
  simpl in *. rewrite Nat.sub_0_r in IH. exact IH.
Qed.

Lemma charIs_first (s : string) : Js.charIs s 0 "/" = Js.startsWith s "/".
Proof.
  destruct s as [|c s]; [reflexivity|]. unfold Js.charIs. simpl.
  now rewrite andb_true_r.
Qed.

(** ** Segments *)

Lemma join_snoc (stack : list string) (s : string) :
  join (stack ++ [s]) = match stack with [] => s | _ => join stack ++ "/" ++ s end.
Proof.
  unfold join. induction stack as [|a stack IH]; [reflexivity|].
  simpl app. destruct stack as [|b stack].
  - reflexivity.
  - change (String.concat "/" (a :: (b :: stack) ++ [s])%list)
      with (a ++ "/" ++ String.concat "/" ((b :: stack) ++ [s])%list).
    rewrite IH.
    change (String.concat "/" (a :: b :: stack))
      with (a ++ "/" ++ String.concat "/" (b :: stack)).
    now rewrite !append_assoc.
Qed.

Lemma snoc_cases {A} (l : list A) : l = [] \/ exists l' x, l = (l' ++ [x])%list.
Proof.
  destruct l as [|a l]; [now left|right].
  exists (List.removelast (a :: l)), (List.last (a :: l) a).
  apply app_removelast_last. discriminate.
Qed.

Lemma Forall_snoc {A} (P : A -> Prop) (l : list A) (x : A) :
  List.Forall P (l ++ [x]) <-> List.Forall P l /\ P x.
Proof.
  rewrite Forall_app. split; intros [H1 H2]; split; auto.
  now inversion H2.
Qed.

Lemma length_join_two (a b : string) (stack : list string) :
  a <> "" -> 2 < String.length (join (a :: stack ++ [b])) \/ b = "".
Proof.
  intros Ha. destruct b as [|c b]; [now right|left].
  change (a :: stack ++ [String c b])%list with ((a :: stack) ++ [String c b])%list.
  rewrite join_snoc. rewrite !length_append. simpl.
  assert (0 < String.length (join (a :: stack))).
  { unfold join. simpl. destruct stack.
    - destruct a; [congruence|simpl; lia].
    - rewrite length_append. destruct a; [congruence|simpl; lia]. }
  lia.
Qed.

Lemma dotsOf_one (s : string) : dotsOf s = 1%Z -> s = ".".
Proof.
  unfold dotsOf. destruct (allChars isDot s) eqn:E; [|discriminate].
  destruct s as [|c [|d s]]; simpl; try discriminate; try lia.
  intros _. simpl in E. rewrite andb_true_r in E. unfold isDot in E.
  apply Ascii.eqb_eq in E. now subst.
Qed.

Lemma dotsOf_two (s : string) : dotsOf s = 2%Z -> s = "..".
Proof.
  unfold dotsOf. destruct (allChars isDot s) eqn:E; [|discriminate].
  destruct s as [|c [|d [|e s]]]; simpl; try discriminate; try lia.
  intros _. simpl in E. rewrite andb_true_r in E. unfold isDot in E.
  apply andb_true_iff in E as [E1 E2].
  apply Ascii.eqb_eq in E1, E2. now subst.
Qed.

Lemma last_snoc {A} (l : list A) (x d : A) : List.last (l ++ [x]) d = x.
Proof. apply last_last. Qed.

Lemma removelast_snoc {A} (l : list A) (x : A) : List.removelast (l ++ [x]) = l.
Proof. apply removelast_last. Qed.

(** The last two characters of a string that ends with a segment of
    length two. *)
Lemma charIs_end2 (a : string) (x y c : ascii) :
  let s := a ++ String x (String y "") in
  Js.charIs s (String.length s - 1) c = Ascii.eqb y c /\
  Js.charIs s (String.length s - 2) c = Ascii.eqb x c.
Proof.
  intros s. subst s. rewrite length_append. simpl String.length.
  replace (String.length a + 2 - 1) with (String.length a + 1) by lia.
  replace (String.length a + 2 - 2) with (String.length a + 0) by lia.
  unfold Js.charIs. rewrite !get_append_r. split; reflexivity.
Qed.

Lemma lastSegmentOf_join (stack : list string) :
  List.Forall isSegment stack ->
  NodePath.lastSegmentOf (join stack) = String.length (List.last stack "").
Proof.
  intros H. unfold NodePath.lastSegmentOf, NodePath.CHAR_FORWARD_SLASH.
  destruct (snoc_cases stack) as [->|(l & x & ->)]; [reflexivity|].
  apply Forall_snoc in H as [Hl [Hx Hs]].
  rewrite last_snoc, join_snoc. destruct l as [|a l].
  - now rewrite (lastIndexOf_slashFree _ Hs).
  - rewrite (lastIndexOf_last_slash _ _ Hs), !length_append. simpl. lia.
Qed.

Lemma join_snoc_end (l : list string) (x : string) :
  join (l ++ [x]) = (match l with [] => "" | _ => join l ++ "/" end) ++ x.
Proof. rewrite join_snoc. destruct l; [reflexivity|]. now rewrite append_assoc. Qed.

(** The test that the last segment kept is not [..]. *)
Lemma lastSegment_test (stack : list string) :
  (String.length (join stack) <? 2)
  || negb (String.length (List.last stack "") =? 2)
  || negb (Js.charIs (join stack) (String.length (join stack) - 1) NodePath.CHAR_DOT)
  || negb (Js.charIs (join stack) (String.length (join stack) - 2) NodePath.CHAR_DOT)
  = negb (List.last stack "" =? "..")%string.
Proof.
  destruct (snoc_cases stack) as [->|(l & x & ->)]; [reflexivity|].
  rewrite last_snoc.
  destruct (Nat.eqb_spec (String.length x) 2) as [L2|L2].
  - destruct x as [|a [|b [|c x]]]; try discriminate.
    destruct (charIs_end2 (match l with [] => "" | _ => join l ++ "/" end)
                a b NodePath.CHAR_DOT) as [C1 C2].
    rewrite join_snoc_end, C1, C2, length_append. simpl String.length.
    replace (String.length _ + 2 <? 2) with false
      by (symmetry; apply Nat.ltb_ge; lia).
    unfold NodePath.CHAR_DOT. simpl.
    destruct (Ascii.eqb b "."), (Ascii.eqb a "."); reflexivity.
  - cbn [negb]. rewrite orb_true_r. simpl.
    destruct (String.eqb_spec x "..") as [->|]; [|reflexivity].
    now destruct L2.
Qed.

(** The separator branch of [normalizeString], on the list of segments. *)
Lemma onSeparator_segments (allowAboveRoot : bool) (st : NodePath.nstate)
      (stack : list string) :
  List.Forall isSegment stack ->
  NodePath.res st = join stack ->
  NodePath.lastSegmentLength st = String.length (List.last stack "") ->
  slashFree (NodePath.seg st) = true ->
  NodePath.dots st = dotsOf (NodePath.seg st) ->
  NodePath.onSeparator allowAboveRoot st =
  let stack' := pushSegment allowAboveRoot stack (NodePath.seg st) in
  NodePath.mkN (join stack') (String.length (List.last stack' "")) "" 0 (NodePath.code st).
Proof.
  intros Hstack Hres Hlen Hfree Hdots.
  unfold NodePath.onSeparator, NodePath.aboveRoot, pushSegment, NodePath.newSegment.
  rewrite Hres, Hlen, Hdots, lastSegment_test.
  destruct (String.eqb_spec (NodePath.seg st) "") as [E0|N0]; [reflexivity|].
  cbn [orb].
  destruct (Z.eqb_spec (dotsOf (NodePath.seg st)) 1) as [E1|N1].
  { apply dotsOf_one in E1. rewrite E1. reflexivity. }
  destruct (String.eqb_spec (NodePath.seg st) ".") as [E1|N1'].
  { exfalso. apply N1. rewrite E1. reflexivity. }
  destruct (Z.eqb_spec (dotsOf (NodePath.seg st)) 2) as [E2|N2].
  - apply dotsOf_two in E2. rewrite E2. cbn [String.eqb Ascii.eqb Bool.eqb andb].
    destruct (snoc_cases stack) as [->|(l & x & ->)].
    + (* nothing kept yet *)
      simpl. destruct allowAboveRoot; reflexivity.
    + apply Forall_snoc in Hstack as [Hl [Hx Hs]].
      rewrite last_snoc.
      assert ((List.length (l ++ [x]) =? 0) = false) as ->
        by (rewrite List.length_app, Nat.add_1_r; reflexivity).
      cbn [orb].
      destruct (String.eqb_spec x "..") as [->|Nx]; cbn [negb].
      * (* the last segment kept is [..] *)
        destruct allowAboveRoot; [|now rewrite ?last_snoc].
        rewrite last_snoc. rewrite (join_snoc (l ++ [".."])).
        assert ((0 <? String.length (join (l ++ [".."]))) = true) as ->.
        { apply Nat.ltb_lt. rewrite join_snoc_end, length_append. simpl. lia. }
        destruct (l ++ [".."])%list eqn:E; [destruct l; discriminate|].
        reflexivity.
      * (* the last segment kept is not [..]: it is dropped *)
        rewrite removelast_snoc.
        destruct (Nat.ltb_spec 2 (String.length (join (l ++ [x])))) as [L|L].
        -- rewrite join_snoc. destruct l as [|a l].
           ++ unfold NodePath.CHAR_FORWARD_SLASH.
              now rewrite (lastIndexOf_slashFree _ Hs).
           ++ unfold NodePath.CHAR_FORWARD_SLASH.
              rewrite (lastIndexOf_last_slash _ _ Hs), slice0_append.
              now rewrite (lastSegmentOf_join _ Hl).
        -- destruct l as [|a l].
           ++ simpl. unfold join. simpl.
              destruct x; [congruence|reflexivity].
           ++ exfalso. inversion Hl as [|? ? [Ha _] _]; subst.
              destruct (length_join_two a x l Ha) as [H|H]; [|congruence].
              simpl in L. simpl in H. lia.
  - (* an ordinary segment is appended *)
    destruct (String.eqb_spec (NodePath.seg st) "..") as [E2|_].
    { exfalso. apply N2. rewrite E2. reflexivity. }
    cbv zeta. rewrite last_snoc, join_snoc.
    destruct stack as [|a stack]; [reflexivity|].
    assert ((0 <? String.length (join (a :: stack))) = true) as ->; [|reflexivity].
    apply Nat.ltb_lt. inversion Hstack as [|? ? [Ha _] _]; subst.
    unfold join. simpl. destruct stack; [|rewrite length_append];
      (destruct a; [congruence|simpl; lia]).
Qed.

Lemma Forall_removelast {A} (P : A -> Prop) (l : list A) :
  List.Forall P l -> List.Forall P (List.removelast l).
Proof.
  intros H. destruct (snoc_cases l) as [->|(l' & x & ->)]; [constructor|].
  rewrite removelast_snoc. now apply Forall_snoc in H.
Qed.

Lemma isSegment_dotdot : isSegment "..".
Proof. split; [discriminate|reflexivity]. Qed.

Lemma pushSegment_isSegment (aar : bool) (stack : list string) (s : string) :
  List.Forall isSegment stack -> slashFree s = true ->
  List.Forall isSegment (pushSegment aar stack s).
Proof.
  intros Hstack Hs. unfold pushSegment.
  destruct (String.eqb_spec s ""); [assumption|]. cbn [orb].
  destruct (s =? ".")%string; [assumption|].
  destruct (s =? "..")%string.
  - destruct (_ || _).
    + destruct aar; [|assumption]. apply Forall_snoc. split; [assumption|].
      apply isSegment_dotdot.
    + now apply Forall_removelast.
  - apply Forall_snoc. split; [assumption|]. now split.
Qed.

Lemma allChars_snoc f (s : string) (c : ascii) :
  allChars f (NodePath.snoc s c) = allChars f s && f c.
Proof. unfold NodePath.snoc. rewrite allChars_append. simpl. now rewrite andb_true_r. Qed.

Lemma length_snoc (s : string) (c : ascii) :
  String.length (NodePath.snoc s c) = S (String.length s).
Proof. unfold NodePath.snoc. rewrite length_append. simpl. lia. Qed.

Lemma dotsOf_minus_one (s : string) :
  (dotsOf s =? -1)%Z = negb (allChars isDot s).
Proof.
  unfold dotsOf. destruct (allChars isDot s); [|reflexivity].
  simpl. apply Z.eqb_neq. lia.
Qed.

Lemma dotsOf_snoc (s : string) (c : ascii) :
  dotsOf (NodePath.snoc s c) =
  if Ascii.eqb c NodePath.CHAR_DOT && negb (dotsOf s =? -1)%Z
  then (dotsOf s + 1)%Z else (-1)%Z.
Proof.
  rewrite dotsOf_minus_one, negb_involutive. unfold dotsOf.
  rewrite allChars_snoc, length_snoc. unfold isDot at 2. unfold NodePath.CHAR_DOT.
  destruct (allChars isDot s), (Ascii.eqb c "."); simpl; try reflexivity. lia.
Qed.

(** The loop of [normalizeString] computes [segmentsLoop]. *)
Lemma normalizeLoop_segments (aar : bool) (path : string) :
  forall (st : NodePath.nstate) (stack : list string),
    List.Forall isSegment stack ->
    NodePath.res st = join stack ->
    NodePath.lastSegmentLength st = String.length (List.last stack "") ->
    slashFree (NodePath.seg st) = true ->
    NodePath.dots st = dotsOf (NodePath.seg st) ->
    (NodePath.isPosixPathSeparator (NodePath.code st) = true -> NodePath.seg st = "") ->
    NodePath.normalizeLoop aar path st = join (segmentsLoop aar path stack (NodePath.seg st)).
Proof.
  induction path as [|c rest IH]; intros st stack Hstack Hres Hlen Hfree Hdots Hcode.
  - simpl. destruct (NodePath.isPosixPathSeparator (NodePath.code st)).
    + rewrite Hres, (Hcode eq_refl). reflexivity.
    + rewrite (onSeparator_segments aar _ stack); auto.
  - cbn [NodePath.normalizeLoop segmentsLoop]. unfold NodePath.onChar.
    unfold NodePath.isPosixPathSeparator at 1. unfold NodePath.CHAR_FORWARD_SLASH.
    destruct (Ascii.eqb c "/") eqn:Ec.
    + rewrite (onSeparator_segments aar _ stack); auto. cbv zeta.
      rewrite (IH _ (pushSegment aar stack (NodePath.seg st))); auto.
      now apply pushSegment_isSegment.
    + cbn [NodePath.res NodePath.lastSegmentLength NodePath.seg NodePath.dots].
      assert (Hfree' : slashFree (NodePath.snoc (NodePath.seg st) c) = true).
      { unfold slashFree. rewrite allChars_snoc. fold slashFree. rewrite Hfree.
        unfold notSlash. now rewrite Ec. }
      destruct (Ascii.eqb c NodePath.CHAR_DOT && negb (NodePath.dots st =? -1)%Z) eqn:Ed.
      * rewrite (IH _ stack); auto; cbn [NodePath.seg NodePath.dots NodePath.code].
        -- rewrite dotsOf_snoc, <- Hdots, Ed. reflexivity.
        -- unfold NodePath.isPosixPathSeparator, NodePath.CHAR_FORWARD_SLASH.
           rewrite Ec. discriminate.
      * rewrite (IH _ stack); auto; cbn [NodePath.seg NodePath.dots NodePath.code].
        -- rewrite dotsOf_snoc, <- Hdots, Ed. reflexivity.
        -- unfold NodePath.isPosixPathSeparator, NodePath.CHAR_FORWARD_SLASH.
           rewrite Ec. discriminate.
Qed.

Lemma normalizeString_segments (path : string) (aar : bool) :
  NodePath.normalizeString path aar = join (segmentsLoop aar path [] "").
Proof.
  unfold NodePath.normalizeString.
  apply (normalizeLoop_segments aar path NodePath.initial []); auto; discriminate.
Qed.

Lemma segmentsLoop_isSegment (aar : bool) (path : string) :
  forall stack seg,
    List.Forall isSegment stack -> slashFree seg = true ->
    List.Forall isSegment (segmentsLoop aar path stack seg).
Proof.
  induction path as [|c rest IH]; intros stack seg Hstack Hseg; simpl.
  - now apply pushSegment_isSegment.
  - destruct (Ascii.eqb c "/") eqn:Ec.
    + apply IH; [now apply pushSegment_isSegment|reflexivity].
    + apply IH; [assumption|]. unfold slashFree. rewrite allChars_snoc.
      fold slashFree. rewrite Hseg. unfold notSlash. now rewrite Ec.
Qed.

(** *** The segments kept are canonical *)

Lemma last_repeat (s : string) (n : nat) : List.last (List.repeat s (S n)) "" = s.
Proof. induction n; [reflexivity|]. simpl in *. exact IHn. Qed.

Lemma repeat_snoc {A} (x : A) (n : nat) :
  (List.repeat x n ++ [x])%list = List.repeat x (S n).
Proof. induction n; simpl; [reflexivity|]. now rewrite IHn. Qed.

Lemma pushSegment_canonical (aar : bool) (stack : list string) (s : string) :
  canonical aar stack -> slashFree s = true -> canonical aar (pushSegment aar stack s).
Proof.
  intros (n & rest & -> & Hrest & Hn) Hs. unfold pushSegment.
  destruct (String.eqb_spec s ""); [now exists n, rest|]. cbn [orb].
  destruct (String.eqb_spec s "."); [now exists n, rest|].
  destruct (String.eqb_spec s "..") as [->|].
  - destruct (snoc_cases rest) as [->|(rest' & x & ->)].
    + rewrite app_nil_r.
      assert ((List.length (List.repeat ".." n) =? 0)
              || (List.last (List.repeat ".." n) "" =? "..")%string = true) as ->.
      { destruct n; [reflexivity|]. now rewrite last_repeat, orb_true_r. }
      destruct aar.
      * exists (S n), []. rewrite repeat_snoc, app_nil_r. repeat split; auto. discriminate.
      * exists n, []. now rewrite app_nil_r.
    + apply Forall_snoc in Hrest as [Hrest' (Hx & Hx1 & Hx2)].
      rewrite app_assoc, last_snoc, removelast_snoc.
      assert ((List.length ((List.repeat ".." n ++ rest') ++ [x]) =? 0) = false) as ->
        by (rewrite List.length_app, Nat.add_1_r; reflexivity).
      destruct (String.eqb_spec x ".."); [congruence|]. cbn [orb].
      now exists n, rest'.
  - exists n, (rest ++ [s])%list. rewrite app_assoc. repeat split; auto.
    apply Forall_snoc. split; [assumption|]. repeat split; assumption.
Qed.

Lemma segmentsLoop_canonical (aar : bool) (path : string) :
  forall stack seg,
    canonical aar stack -> slashFree seg = true ->
    canonical aar (segmentsLoop aar path stack seg).
Proof.
  induction path as [|c rest IH]; intros stack seg Hstack Hseg; simpl.
  - now apply pushSegment_canonical.
  - destruct (Ascii.eqb c "/") eqn:Ec.
    + apply IH; [now apply pushSegment_canonical|reflexivity].
    + apply IH; [assumption|]. unfold slashFree. rewrite allChars_snoc.
      fold slashFree. rewrite Hseg. unfold notSlash. now rewrite Ec.
Qed.

Lemma canonical_nil (aar : bool) : canonical aar [].
Proof. exists 0, []. repeat split; auto. Qed.

Lemma canonical_isSegment (aar : bool) (segs : list string) :
  canonical aar segs -> List.Forall isSegment segs.
Proof.
  intros (n & rest & -> & Hrest & _). apply Forall_app. split.
  - apply Forall_forall. intros x Hx. apply repeat_spec in Hx. subst.
    apply isSegment_dotdot.
  - eapply Forall_impl; [|exact Hrest]. now intros x [Hx _].
Qed.

Lemma canonical_relative (aar : bool) (segs : list string) :
  canonical aar segs -> canonical true segs.
Proof. intros (n & rest & -> & Hrest & _). exists n, rest. repeat split; auto. discriminate. Qed.

(** *** Canonical segments are kept as they are *)

Lemma segmentsLoop_append (aar : bool) (s : string) :
  forall rest stack seg,
    slashFree s = true ->
    segmentsLoop aar (s ++ rest) stack seg = segmentsLoop aar rest stack (seg ++ s).
Proof.
  induction s as [|c s IH]; intros rest stack seg Hs; simpl.
  - now rewrite append_nil_r.
  - simpl in Hs. apply andb_true_iff in Hs as [Hc Hs]. unfold notSlash in Hc.
    destruct (Ascii.eqb c "/"); [discriminate|].
    rewrite IH; auto. unfold NodePath.snoc. now rewrite append_assoc.
Qed.

(** [tail] is what follows the last segment: nothing, or one separator. *)
Lemma segmentsLoop_join (aar : bool) (tail : string) (segs : list string) :
  tail = "" \/ tail = "/" ->
  forall stack,
    segs <> [] -> List.Forall isSegment segs ->
    segmentsLoop aar (join segs ++ tail) stack "" =
    List.fold_left (pushSegment aar) segs stack.
Proof.
  intros Htail. induction segs as [|s segs IH]; intros stack Hne Hsegs; [congruence|].
  inversion Hsegs as [|? ? [Hs0 Hs] Hsegs']; subst.
  destruct segs as [|s' segs].
  - unfold join. simpl String.concat. rewrite segmentsLoop_append; auto. simpl.
    destruct Htail as [->| ->]; reflexivity.
  - change (join (s :: s' :: segs)) with (s ++ "/" ++ join (s' :: segs)).
    rewrite !append_assoc, segmentsLoop_append; auto.
    simpl. rewrite IH; auto. discriminate.
Qed.

Lemma fold_pushSegment_normal (stack rest : list string) :
  List.Forall isNormal rest ->
  List.fold_left (pushSegment true) rest stack = (stack ++ rest)%list.
Proof.
  revert stack. induction rest as [|s rest IH]; intros stack H; simpl.
  - now rewrite app_nil_r.
  - inversion H as [|? ? ((Hs0 & _) & Hs1 & Hs2) H']; subst.
    rewrite IH; auto. unfold pushSegment.
    destruct (String.eqb_spec s ""); [congruence|].
    destruct (String.eqb_spec s "."); [congruence|].
    destruct (String.eqb_spec s ".."); [congruence|].
    simpl. now rewrite <- app_assoc.
Qed.

Lemma fold_pushSegment_dotdot (n m : nat) :
  List.fold_left (pushSegment true) (List.repeat ".." n) (List.repeat ".." m)
  = List.repeat ".." (m + n).
Proof.
  revert m. induction n as [|n IH]; intros m; simpl.
  - now rewrite Nat.add_0_r.
  - replace (pushSegment true (List.repeat ".." m) "..") with (List.repeat ".." (S m)).
    + rewrite IH. f_equal. lia.
    + unfold pushSegment. simpl.
      assert ((List.length (List.repeat ".." m) =? 0)
              || (List.last (List.repeat ".." m) "" =? "..")%string = true) as ->.
      { destruct m; [reflexivity|]. now rewrite last_repeat, orb_true_r. }
      now rewrite repeat_snoc.
Qed.

Lemma fold_pushSegment_canonical (segs : list string) :
  canonical true segs -> List.fold_left (pushSegment true) segs [] = segs.
Proof.
  intros (n & rest & -> & Hrest & _).
  rewrite fold_left_app.
  change (@nil string) with (List.repeat ".." 0) at 1.
  rewrite fold_pushSegment_dotdot, fold_pushSegment_normal; auto.
Qed.

Lemma segmentsLoop_canonical_fixed (tail : string) (segs : list string) :
  tail = "" \/ tail = "/" ->
  segs <> [] -> canonical true segs ->
  segmentsLoop true (join segs ++ tail) [] "" = segs.
Proof.
  intros Htail Hne Hcanon.
  rewrite segmentsLoop_join; auto.
  - now apply fold_pushSegment_canonical.
  - now apply canonical_isSegment in Hcanon.
Qed.

Lemma join_cons_not_empty (s : string) (segs : list string) :
  isSegment s -> join (s :: segs) <> "".
Proof.
  intros [Hs _] E. unfold join in E. simpl in E.
  destruct segs; destruct s; try congruence; discriminate.
Qed.

Lemma normalize_render (p : string) :
  NodePath.normalize p = render (Js.startsWith p "/") (Js.endsWith p "/") (segmentsOf p).
Proof.
  unfold NodePath.normalize, segmentsOf.
  destruct p as [|c p]; [reflexivity|].
  cbn [String.length Nat.eqb]. unfold NodePath.CHAR_FORWARD_SLASH.
  rewrite charIs_first, charIs_last, normalizeString_segments.
  set (absolute := Js.startsWith (String c p) "/").
  set (trailing := Js.endsWith (String c p) "/").
  assert (Hsegs : List.Forall isSegment (segmentsLoop (negb absolute) (String c p) [] ""))
    by (apply segmentsLoop_isSegment; [constructor|reflexivity]).
  destruct (segmentsLoop (negb absolute) (String c p) [] "") as [|s segs]; [reflexivity|].
  inversion Hsegs as [|? ? Hs _]; subst.
  pose proof (join_cons_not_empty s segs Hs) as Hne.
  destruct (String.length (join (s :: segs)) =? 0) eqn:E.
  - apply Nat.eqb_eq, length_zero in E. congruence.
  - unfold render. destruct absolute, trailing; simpl; now rewrite ?append_nil_r.
Qed.

(** *** Backslashes *)

Lemma replaceSeparatorsFrom_noBackslash (b : bool) (s : string) :
  noBackslash (replaceSeparatorsFrom b s) = true.
Proof.
  revert b. induction s as [|c s IH]; intros b; [reflexivity|]. simpl.
  destruct (Ascii.eqb c "\") eqn:E.
  - destruct b; [apply IH|]. change (noBackslash (replaceSeparatorsFrom true s) = true).
    apply IH.
  - change (notBackslash c && noBackslash (replaceSeparatorsFrom false s) = true).
    unfold notBackslash. rewrite E. apply IH.
Qed.

Lemma replaceSeparatorsFrom_fixed (b : bool) (s : string) :
  noBackslash s = true -> replaceSeparatorsFrom b s = s.
Proof.
  revert b. induction s as [|c s IH]; intros b H; [reflexivity|]. simpl in *.
  apply andb_true_iff in H as [Hc H]. unfold notBackslash in Hc.
  destruct (Ascii.eqb c "\"); [discriminate|]. now rewrite IH.
Qed.

Lemma replaceSeparators_fixed (s : string) :
  noBackslash s = true -> replaceSeparators s = s.
Proof. apply replaceSeparatorsFrom_fixed. Qed.

Lemma pushSegment_chars f (aar : bool) (stack : list string) (s : string) :
  f "."%char = true ->
  List.Forall (fun x => allChars f x = true) stack -> allChars f s = true ->
  List.Forall (fun x => allChars f x = true) (pushSegment aar stack s).
Proof.
  intros Hdot Hstack Hs. unfold pushSegment.
  destruct (_ || _); [assumption|].
  destruct (s =? "..")%string.
  - destruct (_ || _).
    + destruct aar; [|assumption]. apply Forall_snoc. split; [assumption|].
      simpl. now rewrite Hdot.
    + now apply Forall_removelast.
  - apply Forall_snoc. now split.
Qed.

Lemma segmentsLoop_chars f (aar : bool) (path : string) :
  f "."%char = true ->
  forall stack seg,
    allChars f path = true ->
    List.Forall (fun x => allChars f x = true) stack -> allChars f seg = true ->
    List.Forall (fun x => allChars f x = true) (segmentsLoop aar path stack seg).
Proof.
  intros Hdot. induction path as [|c rest IH]; intros stack seg Hpath Hstack Hseg; simpl.
  - now apply pushSegment_chars.
  - simpl in Hpath. apply andb_true_iff in Hpath as [Hc Hrest].
    destruct (Ascii.eqb c "/").
    + apply IH; auto. now apply pushSegment_chars.
    + apply IH; auto. rewrite allChars_snoc, Hseg, Hc. reflexivity.
Qed.

Lemma join_chars f (segs : list string) :
  f "/"%char = true ->
  List.Forall (fun x => allChars f x = true) segs -> allChars f (join segs) = true.
Proof.
  intros Hslash H. unfold join. induction H as [|s segs Hs Hsegs IH]; [reflexivity|].
  destruct segs as [|s' segs]; [assumption|].
  change (String.concat "/" (s :: s' :: segs))
    with (s ++ "/" ++ String.concat "/" (s' :: segs)).
  rewrite !allChars_append, Hs, IH. simpl. now rewrite Hslash.
Qed.

Lemma keyOfSegments_noBackslash (dir absolute : bool) (segs : list string) :
  List.Forall (fun x => noBackslash x = true) segs ->
  noBackslash (keyOfSegments dir absolute segs) = true.
Proof.
  intros H. unfold keyOfSegments. destruct segs as [|s segs].
  - destruct dir, absolute; reflexivity.
  - unfold noBackslash. rewrite allChars_append, join_chars; auto.
    destruct dir; reflexivity.
Qed.

Lemma render_noBackslash (absolute trailing : bool) (segs : list string) :
  List.Forall (fun x => noBackslash x = true) segs ->
  noBackslash (render absolute trailing segs) = true.
Proof.
  intros H. unfold render. destruct segs as [|s segs].
  - destruct absolute, trailing; reflexivity.
  - unfold noBackslash. rewrite !allChars_append, join_chars; auto.
    destruct absolute, trailing; reflexivity.
Qed.

Lemma segmentsOf_noBackslash (p : string) :
  noBackslash p = true -> List.Forall (fun x => noBackslash x = true) (segmentsOf p).
Proof.
  intros H. unfold segmentsOf. apply segmentsLoop_chars; auto.
Qed.

(** *** First and last characters *)

Lemma startsWith_segment (s rest : string) :
  isSegment s -> Js.startsWith (s ++ rest) "/" = false.
Proof.
  intros [Hs Hfree]. destruct s as [|c s]; [congruence|]. simpl in *.
  apply andb_true_iff in Hfree as [Hc _]. unfold notSlash in Hc.
  destruct (Ascii.eqb c "/"); [discriminate|reflexivity].
Qed.

Lemma startsWith_join (s : string) (segs : list string) (rest : string) :
  isSegment s -> Js.startsWith (join (s :: segs) ++ rest) "/" = false.
Proof.
  intros Hs. unfold join. simpl. destruct segs.
  - now apply startsWith_segment.
  - rewrite append_assoc. now apply startsWith_segment.
Qed.

Lemma endsWith_join (segs : list string) :
  segs <> [] -> List.Forall isSegment segs -> Js.endsWith (join segs) "/" = false.
Proof.
  intros Hne H. destruct (snoc_cases segs) as [->|(l & x & ->)]; [congruence|].
  apply Forall_snoc in H as [_ [Hx Hfree]].
  rewrite join_snoc_end. now apply endsWith_append_slashFree.
Qed.

Lemma endsWith_slash_inv (s : string) :
  Js.endsWith s "/" = true -> exists a, s = a ++ "/".
Proof.
  induction s as [|c s IH]; [discriminate|].
  rewrite endsWith_slash_cons. destruct s as [|d s].
  - intros H. apply Ascii.eqb_eq in H. subst. now exists "".
  - intros H. destruct (IH H) as [a Ha]. exists (String c a). simpl. now rewrite Ha.
Qed.

Lemma replaceSeparatorsFrom_append_slash (b : bool) (a : string) :
  replaceSeparatorsFrom b (a ++ "/") = replaceSeparatorsFrom b a ++ "/".
Proof.
  revert b. induction a as [|c a IH]; intros b; [reflexivity|]. simpl.
  destruct (Ascii.eqb c "\"); [destruct b|]; simpl; now rewrite IH.
Qed.

Lemma endsWith_replaceSeparators (p : string) :
  Js.endsWith p "/" = true -> Js.endsWith (replaceSeparators p) "/" = true.
Proof.
  intros H. destruct (endsWith_slash_inv _ H) as [a ->].
  unfold replaceSeparators. rewrite replaceSeparatorsFrom_append_slash.
  apply endsWith_append_slash.
Qed.

Lemma segmentsOf_join (tail : string) (segs : list string) :
  tail = "" \/ tail = "/" ->
  segs <> [] -> canonical true segs ->
  segmentsOf (join segs ++ tail) = segs.
Proof.
  intros Htail Hne Hcanon. unfold segmentsOf.
  destruct segs as [|s segs]; [congruence|].
  pose proof (canonical_isSegment _ _ Hcanon) as Hsegs.
  inversion Hsegs as [|? ? Hs _]; subst.
  rewrite startsWith_join; auto.
  now apply segmentsLoop_canonical_fixed.
Qed.

Lemma normalize_join_slash (segs : list string) :
  segs <> [] -> canonical true segs ->
  NodePath.normalize (join segs ++ "/") = join segs ++ "/".
Proof.
  intros Hne Hcanon. rewrite normalize_render, segmentsOf_join; auto.
  rewrite endsWith_append_slash.
  destruct segs as [|s segs]; [congruence|].
  pose proof (canonical_isSegment _ _ Hcanon) as Hsegs.
  inversion Hsegs as [|? ? Hs _]; subst.
  rewrite startsWith_join; auto.
Qed.

Lemma segmentsOf_canonical (p : string) : canonical true (segmentsOf p).
Proof.
  unfold segmentsOf. eapply canonical_relative.
  apply segmentsLoop_canonical; [apply canonical_nil|reflexivity].
Qed.

Lemma allChars_trimStart f (s : string) :
  allChars f s = true -> allChars f (Js.trimStart s) = true.
Proof.
  induction s as [|c s IH]; [reflexivity|]. intros H. simpl.
  destruct (Js.isWhiteSpace c); [|exact H].
  simpl in H. apply andb_true_iff in H as [_ H]. auto.
Qed.

Lemma allChars_trimEnd f (s : string) :
  allChars f s = true -> allChars f (Js.trimEnd s) = true.
Proof.
  induction s as [|c s IH]; [reflexivity|]. intros H. simpl in *.
  apply andb_true_iff in H as [Hc H]. specialize (IH H).
  destruct (Js.trimEnd s).
  - destruct (Js.isWhiteSpace c); simpl; [reflexivity|now rewrite Hc].
  - change (f c && allChars f (String a s0) = true). now rewrite Hc, IH.
Qed.

Lemma allChars_trim f (s : string) :
  allChars f s = true -> allChars f (Js.trim s) = true.
Proof. intros H. now apply allChars_trimEnd, allChars_trimStart. Qed.

(** [normalizePath] from the segments kept. *)
Lemma normalizePath_segments (p : string) (d : option bool) :
  let trimmed := Js.trim (replaceSeparators p) in
  let dir := orFalse d || Js.endsWith (replaceSeparators p) "/" in
  normalizePath p d =
  mkNormalizedPath dir
    (if dir
     then keyOfSegments true (Js.startsWith trimmed "/") (segmentsOf trimmed)
     else fileKeyOfSegments (Js.startsWith trimmed "/") (Js.endsWith trimmed "/")
                            (segmentsOf trimmed)).
Proof.
  intros trimmed dir. unfold normalizePath. fold trimmed. rewrite normalize_render.
  pose proof (endsWith_replaceSeparators p) as Hends.
  pose proof (segmentsOf_canonical trimmed) as Hcanon.
  assert (Hchars : List.Forall (fun x => noBackslash x = true) (segmentsOf trimmed)).
  { apply segmentsOf_noBackslash. apply allChars_trim.
    apply (replaceSeparatorsFrom_noBackslash false p). }
  set (absolute := Js.startsWith trimmed "/").
  set (trailing := Js.endsWith trimmed "/") in *.
  set (segs := segmentsOf trimmed) in *.
  rewrite (replaceSeparators_fixed (render absolute trailing segs))
    by now apply render_noBackslash.
  assert (Hflag : (if (isTrue d || Js.endsWith (replaceSeparators p) "/"
                       || Js.endsWith p "/") && negb (orFalse d)
                   then true else orFalse d) = dir).
  { subst dir.
    destruct d as [[|]|], (Js.endsWith (replaceSeparators p) "/"), (Js.endsWith p "/");
      try reflexivity; now specialize (Hends eq_refl). }
  rewrite Hflag.
  assert (Hcond : isTrue d || dir || Js.endsWith p "/" = dir).
  { subst dir.
    destruct d as [[|]|], (Js.endsWith (replaceSeparators p) "/"), (Js.endsWith p "/");
      try reflexivity; now specialize (Hends eq_refl). }
  rewrite Hcond. f_equal. clear Hflag Hcond. clearbody segs dir.
  destruct segs as [|s segs].
  - unfold render, keyOfSegments, fileKeyOfSegments.
    destruct absolute, trailing, dir; reflexivity.
  - pose proof (canonical_isSegment _ _ Hcanon) as Hsegs.
    inversion Hsegs as [|? ? Hs _]; subst.
    assert (Hne : s :: segs <> []) by discriminate.
    assert (Hback : noBackslash (join (s :: segs) ++ "/") = true).
    { unfold noBackslash. rewrite allChars_append, join_chars; auto. }
    assert (Hdir : replaceSeparators (NodePath.normalize (join (s :: segs) ++ "/"))
                   = join (s :: segs) ++ "/").
    { rewrite normalize_join_slash; auto. now apply replaceSeparators_fixed. }
    assert (Hx : (if Js.startsWith (render absolute trailing (s :: segs)) "/"
                  then Js.slice1 (render absolute trailing (s :: segs))
                  else render absolute trailing (s :: segs))
                 = join (s :: segs) ++ (if trailing then "/" else "")).
    { unfold render. destruct absolute; [reflexivity|].
      cbn [append]. now rewrite startsWith_join. }
    rewrite Hx. unfold keyOfSegments, fileKeyOfSegments.
    destruct trailing.
    + rewrite endsWith_append_slash. now destruct dir.
    + rewrite append_nil_r, endsWith_join; auto. now destruct dir.
Qed.

(** The shape of a key that is not empty and ends with a separator only
    if the path is a directory. *)
Lemma normalizePath_key (p : string) (d : option bool) :
  path (normalizePath p d) <> "" ->
  (Js.endsWith (path (normalizePath p d)) "/" = true ->
   directory (normalizePath p d) = true) ->
  exists absolute segs,
    canonical true segs /\
    List.Forall (fun x => noBackslash x = true) segs /\
    path (normalizePath p d) = keyOfSegments (directory (normalizePath p d)) absolute segs.
Proof.
  rewrite normalizePath_segments. cbn [path directory].
  set (trimmed := Js.trim (replaceSeparators p)).
  set (dir := orFalse d || Js.endsWith (replaceSeparators p) "/").
  intros Hne Hends.
  exists (Js.startsWith trimmed "/"), (segmentsOf trimmed).
  split; [apply segmentsOf_canonical|]. split.
  { apply segmentsOf_noBackslash. apply allChars_trim.
    apply (replaceSeparatorsFrom_noBackslash false p). }
  pose proof (segmentsOf_canonical trimmed) as Hcanon.
  clearbody dir. destruct dir; [reflexivity|].
  unfold fileKeyOfSegments, keyOfSegments in *.
  destruct (segmentsOf trimmed) as [|s segs].
  - destruct (Js.startsWith trimmed "/"); [reflexivity|].
    destruct (Js.endsWith trimmed "/"); [|reflexivity].
    now specialize (Hends eq_refl).
  - destruct (Js.endsWith trimmed "/"); [|reflexivity].
    rewrite endsWith_append_slash in Hends. now specialize (Hends eq_refl).
Qed.

(** [normalizePath] on a key of that shape that [trim] leaves as it is. *)
Lemma normalizePath_keyOfSegments (dir absolute : bool) (segs : list string)
      (d : option bool) :
  canonical true segs ->
  List.Forall (fun x => noBackslash x = true) segs ->
  (dir = false -> orFalse d = false) ->
  keyOfSegments dir absolute segs <> "" ->
  Js.trim (keyOfSegments dir absolute segs) = keyOfSegments dir absolute segs ->
  normalizePath (keyOfSegments dir absolute segs) d
  = mkNormalizedPath dir (keyOfSegments dir absolute segs).
Proof.
  intros Hcanon Hchars Hd Hne Htrim.
  rewrite normalizePath_segments.
  assert (Hfixed : replaceSeparators (keyOfSegments dir absolute segs)
                   = keyOfSegments dir absolute segs)
    by (apply replaceSeparators_fixed; now apply keyOfSegments_noBackslash).
  rewrite Hfixed, Htrim.
  destruct segs as [|s segs].
  - unfold keyOfSegments in *.
    destruct dir, absolute; try (now destruct Hne).
    + rewrite orb_true_r. reflexivity.
    + rewrite orb_true_r. reflexivity.
    + rewrite (Hd eq_refl). reflexivity.
  - pose proof (canonical_isSegment _ _ Hcanon) as Hsegs.
    inversion Hsegs as [|? ? Hs _]; subst.
    assert (Hnil : s :: segs <> []) by discriminate.
    change (keyOfSegments dir absolute (s :: segs))
      with (join (s :: segs) ++ (if dir then "/" else "")) in *.
    destruct dir.
    + rewrite endsWith_append_slash, orb_true_r, startsWith_join, segmentsOf_join; auto.
    + rewrite (Hd eq_refl). cbn [orb].
      rewrite startsWith_join, segmentsOf_join; auto.
      rewrite append_nil_r, endsWith_join; auto.
      unfold fileKeyOfSegments. now rewrite append_nil_r.
Qed.

(** C6, as the code has it.  For every path [p] and directory flag [d],
    normalizing the key of [normalizePath p d] again, with the same flag,
    gives [normalizePath p d] back, provided that this key is not empty,
    has no white space at either end, and ends with a separator only if
    the result is flagged as a directory. *)
Theorem normalizePath_idempotent_on_clean_keys (p : string) (d : option bool) :
  path (normalizePath p d) <> "" ->
  Js.trim (path (normalizePath p d)) = path (normalizePath p d) ->
  (Js.endsWith (path (normalizePath p d)) "/" = true ->
   directory (normalizePath p d) = true) ->
  normalizePath (path (normalizePath p d)) d = normalizePath p d.
Proof.
  intros Hne Htrim Hends.
  destruct (normalizePath_key p d Hne Hends) as (absolute & segs & Hcanon & Hchars & Hkey).
  assert (Hd : directory (normalizePath p d) = false -> orFalse d = false).
  { rewrite normalizePath_segments. cbn [directory].
    destruct (orFalse d); [discriminate|reflexivity]. }
  rewrite Hkey in Hne, Htrim |- *.
  rewrite normalizePath_keyOfSegments; auto.
  rewrite <- Hkey. now destruct (normalizePath p d).
Qed.

Lemma normalizePath_idempotent_on_clean_keys_witness :
  normalizePath (path (normalizePath "a//b\c/../d" None)) None
  = normalizePath "a//b\c/../d" None.
Proof.
  apply normalizePath_idempotent_on_clean_keys.
  - vm_compute. discriminate.
  - reflexivity.
  - vm_compute. discriminate.
Defined.

(** C6, as stated, fails.  The key of ["/.."] is empty and the empty path
    is normalized to ["."]; the key of ["a/ "] ends with a separator
    without being flagged as a directory, and is flagged once normalized
    again; the key of ["/ a"] starts with a space that the second
    normalization removes. *)
Lemma normalizePath_not_idempotent :
  normalizePath (path (normalizePath "/.." None)) None <> normalizePath "/.." None /\
  normalizePath (path (normalizePath "a/ " None)) None <> normalizePath "a/ " None /\
  normalizePath (path (normalizePath "/ a" None)) None <> normalizePath "/ a" None.
Proof. repeat split; vm_compute; discriminate. Qed.

(* ================================================================== *)
(** * Properties of the methods *)
(* ================================================================== *)

(** ** Hidden names *)

Lemma startsWith_hidden_prefix (n : string) :
  Js.startsWith n AwsSimpleStorageServiceHiddenPrefix = true <->
  exists r, n = AwsSimpleStorageServiceHiddenPrefix ++ r.
Proof.
  unfold AwsSimpleStorageServiceHiddenPrefix. split.
  - destruct n as [|a [|b r]]; simpl; try discriminate.
    + now rewrite andb_false_r.
    + destruct (Ascii.eqb_spec a "_") as [->|]; [|discriminate].
      destruct (Ascii.eqb_spec b ".") as [->|]; [|discriminate].
      intros _. now exists r.
  - intros [r ->]. reflexivity.
Qed.

(** C9. For every name [n]: if [n] already starts with the hidden prefix
    ["_."], [generateHiddenName n] is the prefix followed by [n], which
    doubles it; if [n] does not start with the prefix, the result is [n]
    itself, so the prefix is never added to a name that lacks it. *)
Theorem generateHiddenName_only_doubles (n : string) :
  ((exists r, n = "_." ++ r) -> generateHiddenName n = "_." ++ n) /\
  ((forall r, n <> "_." ++ r) -> generateHiddenName n = n).
Proof.
  unfold generateHiddenName. split; intros H.
  - apply startsWith_hidden_prefix in H. now rewrite H.
  - destruct (Js.startsWith n AwsSimpleStorageServiceHiddenPrefix) eqn:E; [|reflexivity].
    apply startsWith_hidden_prefix in E. destruct E as [r ->]. now destruct (H r).
Qed.

Lemma generateHiddenName_only_doubles_witness :
  generateHiddenName "_.cache" = "_._.cache" /\ generateHiddenName "cache" = "cache".
Proof.
  split.
  - apply (proj1 (generateHiddenName_only_doubles "_.cache")). now exists "cache".
  - apply (proj2 (generateHiddenName_only_doubles "cache")). intros r. discriminate.
Defined.

(** ** Normalization of the empty path *)

(** C5, as the code has it. [normalizePath] of the empty string is the
    key ["."] and is not a directory; with the directory flag forced it
    is the key ["./"] and a directory.  Neither key is empty. *)
Theorem normalizePath_empty :
  normalizePath "" None = mkNormalizedPath false "." /\
  normalizePath "" (Some false) = mkNormalizedPath false "." /\
  normalizePath "" (Some true) = mkNormalizedPath true "./".
Proof. repeat split; reflexivity. Qed.

(** C5, as stated, fails: the key is not empty and the directory flag is
    not set. *)
Lemma normalizePath_empty_not_root :
  path (normalizePath "" None) <> "" /\ directory (normalizePath "" None) <> true.
Proof. split; vm_compute; discriminate. Qed.

(** ** The text of a number *)

Example numberToString_examples :
  numberToString (integer 5) = "5" /\
  numberToString (integer (-42)) = "-42" /\
  numberToString (integer 1200) = "1200" /\
  numberToString (Finite false 12 2) = "1200" /\
  numberToString (integer (2 ^ 53 - 1)) = "9007199254740991" /\
  numberToString (Finite false 1 20) = "100000000000000000000" /\
  numberToString (Finite false 1 21) = "1e+21" /\
  numberToString (Finite false 11805916207174113 5) = "1.1805916207174113e+21" /\
  numberToString (Finite false 1152921504606847 3) = "1152921504606847000" /\
  numberToString (Finite false 15 (-1)) = "1.5" /\
  numberToString (Finite true 12345 (-2)) = "-123.45" /\
  numberToString (Finite false 1 (-6)) = "0.000001" /\
  numberToString (Finite false 1 (-7)) = "1e-7" /\
  numberToString (Finite false 123 (-9)) = "1.23e-7" /\
  numberToString (Finite false 5 (-324)) = "5e-324" /\
  numberToString (Finite false 17976931348623157 292) = "1.7976931348623157e+308" /\
  numberToString (Infinity true) = "-Infinity" /\
  numberToString NaN = "NaN" /\
  numberToString (Zero true) = "0".
Proof. repeat split; vm_compute; reflexivity. Qed.

Lemma nztail_nztailRev (d : Decimal.uint) :
  Decimal.nztail d = let (r, n) := nztailRev (Decimal.rev d) in (Decimal.rev r, n).
Proof. reflexivity. Qed.

Lemma nztailRev_iter (l : Decimal.uint) :
  l = Nat.iter (snd (nztailRev l)) Decimal.D0 (fst (nztailRev l)).
Proof.
  induction l; try reflexivity.
  simpl. destruct (nztailRev l) as [r n]. simpl in *. now f_equal.
Qed.

Lemma revapp_iter_D0 (n : nat) (r acc : Decimal.uint) :
  Decimal.revapp (Nat.iter n Decimal.D0 r) acc
  = Decimal.revapp r (Nat.iter n Decimal.D0 acc).
Proof.
  revert acc. induction n as [|n IH]; intros acc; [reflexivity|].
  simpl. rewrite IH. f_equal. clear. induction n; simpl; congruence.
Qed.

Lemma string_of_uint_revapp (r acc : Decimal.uint) :
  NilEmpty.string_of_uint (Decimal.revapp r acc)
  = NilEmpty.string_of_uint (Decimal.rev r) ++ NilEmpty.string_of_uint acc.
Proof.
  unfold Decimal.rev. revert acc.
  induction r; intros acc; simpl; try reflexivity;
    rewrite IHr; symmetry; rewrite IHr; rewrite append_assoc; reflexivity.
Qed.

Lemma nb_digits_revapp (r acc : Decimal.uint) :
  Decimal.nb_digits (Decimal.revapp r acc)
  = Decimal.nb_digits r + Decimal.nb_digits acc.
Proof.
  revert acc. induction r; intros acc; simpl; try reflexivity;
    rewrite IHr; simpl; lia.
Qed.

Lemma string_of_uint_zeros (n : nat) :
  NilEmpty.string_of_uint (Nat.iter n Decimal.D0 Decimal.Nil) = zeros n.
Proof. induction n; simpl; congruence. Qed.

(** The zeros that [nztail] takes off the end are digits of the number:
    put back, they give its digits again. *)
Lemma nztail_digits (u : Decimal.uint) :
  NilEmpty.string_of_uint u
  = NilEmpty.string_of_uint (fst (Decimal.nztail u)) ++ zeros (snd (Decimal.nztail u)) /\
  Decimal.nb_digits u
  = Decimal.nb_digits (fst (Decimal.nztail u)) + snd (Decimal.nztail u).
Proof.
  rewrite nztail_nztailRev.
  pose proof (nztailRev_iter (Decimal.rev u)) as H.
  destruct (nztailRev (Decimal.rev u)) as [r n]. simpl in *.
  assert (Hu : u = Decimal.revapp r (Nat.iter n Decimal.D0 Decimal.Nil)).
  { rewrite <- (DecimalFacts.rev_rev u), H. unfold Decimal.rev at 1.
    apply revapp_iter_D0. }
  split.
  - rewrite Hu at 1. rewrite string_of_uint_revapp, string_of_uint_zeros. reflexivity.
  - rewrite Hu at 1. rewrite nb_digits_revapp, DecimalFacts.nb_digits_rev.
    rewrite DecimalFacts.nb_digits_iter_D0. simpl. lia.
Qed.

Lemma usize_nb_digits (d : Decimal.uint) :
  DecimalPos.Unsigned.usize d = N.of_nat (Decimal.nb_digits d).
Proof. induction d; simpl; try reflexivity; rewrite IHd; lia. Qed.

Lemma nzhead_not_D0 (u v : Decimal.uint) : Decimal.nzhead u <> Decimal.D0 v.
Proof. induction u; simpl; try discriminate. exact IHu. Qed.

(** A number of [k] digits is at least [10 ^ (k - 1)]. *)
Lemma of_uint_lower (u : Decimal.uint) :
  Decimal.unorm u = u -> u <> Decimal.D0 Decimal.Nil ->
  (10 ^ N.of_nat (Decimal.nb_digits u - 1) <= Pos.of_uint u)%N.
Proof.
  intros Hnorm Hnz.
  destruct u;
    try (cbn [Decimal.nb_digits Pos.of_uint];
         replace (S (Decimal.nb_digits u) - 1) with (Decimal.nb_digits u) by lia;
         rewrite DecimalPos.Unsigned.of_uint_acc_rev, usize_nb_digits; nia).
  - discriminate Hnorm.
  - exfalso. unfold Decimal.unorm in Hnorm. simpl in Hnorm.
    destruct (Decimal.nzhead u) eqn:E; try discriminate.
    + injection Hnorm as <-. now apply Hnz.
    + now apply (nzhead_not_D0 u u0).
Qed.

Lemma nb_digits_to_uint (p : positive) (k : nat) :
  (Z.pos p < 10 ^ Z.of_nat k)%Z -> Decimal.nb_digits (Pos.to_uint p) <= k.
Proof.
  intros Hp.
  assert (Hnorm : Decimal.unorm (Pos.to_uint p) = Pos.to_uint p).
  { rewrite <- DecimalPos.Unsigned.to_of, DecimalPos.Unsigned.of_to. reflexivity. }
  pose proof (of_uint_lower _ Hnorm (DecimalPos.Unsigned.to_uint_nonzero p)) as H.
  rewrite DecimalPos.Unsigned.of_to in H.
  destruct (Nat.le_gt_cases (Decimal.nb_digits (Pos.to_uint p)) k) as [|Hk]; [assumption|].
  exfalso.
  assert (H' : (10 ^ N.of_nat k <= 10 ^ N.of_nat (Decimal.nb_digits (Pos.to_uint p) - 1))%N).
  { apply N.pow_le_mono_r; lia. }
  assert (Hz : (Z.of_N (10 ^ N.of_nat k) = 10 ^ Z.of_nat k)%Z).
  { rewrite N2Z.inj_pow. f_equal. lia. }
  lia.
Qed.

(** The text of an integer of magnitude below [10 ^ 21] is its decimal
    digits. *)
Lemma decimalToString_integer (p : positive) :
  (Z.pos p < 10 ^ 21)%Z ->
  decimalToString p 0 = NilZero.string_of_uint (Pos.to_uint p).
Proof.
  intros Hp. unfold decimalToString.
  pose proof (nztail_digits (Pos.to_uint p)) as [Hs Hk].
  pose proof (nb_digits_to_uint p 21 Hp) as Hn.
  destruct (Decimal.nztail (Pos.to_uint p)) as [s t]. simpl fst in *. simpl snd in *.
  rewrite Z.add_0_r.
  replace ((-5 <=? Z.of_nat (Decimal.nb_digits s) + Z.of_nat t)%Z
           && (Z.of_nat (Decimal.nb_digits s) + Z.of_nat t <=? 21)%Z) with true
    by (symmetry; apply andb_true_intro; split; apply Z.leb_le; lia).
  replace (Z.of_nat (Decimal.nb_digits s)
           <=? Z.of_nat (Decimal.nb_digits s) + Z.of_nat t)%Z with true
    by (symmetry; apply Z.leb_le; lia).
  replace (Z.to_nat (Z.of_nat (Decimal.nb_digits s) + Z.of_nat t
                     - Z.of_nat (Decimal.nb_digits s))) with t by lia.
  rewrite <- Hs.
  pose proof (DecimalPos.Unsigned.to_uint_nonnil p) as Hnil.
  destruct (Pos.to_uint p); try reflexivity. now elim Hnil.
Qed.

Lemma numberToString_integer (z : Z) :
  (Z.abs z < 10 ^ 21)%Z ->
  numberToString (integer z) = NilZero.string_of_int (Z.to_int z).
Proof.
  intros Hz. destruct z as [|p|p]; simpl.
  - reflexivity.
  - apply decimalToString_integer. lia.
  - f_equal. apply decimalToString_integer. lia.
Qed.

(** ** The range of [getObjectAsync] *)

Section Range.

Context {St : Type}.
Variable client : S3 St.
Variable configuration : IAwsSimpleStorageServiceConfiguration.

Lemma truthyNumber_given (n : option Number) (v : Number) :
  n = Some v -> given n -> truthyNumber n = Some v.
Proof.
  intros -> (v' & Hv' & Hnan & Hzero). injection Hv' as <-.
  destruct v as [|negative|negative|negative s e]; simpl; try reflexivity.
  - now elim Hnan.
  - now elim (Hzero negative).
Qed.

Lemma truthyNumber_notGiven (n : option Number) :
  notGiven n -> truthyNumber n = None.
Proof. intros [->|[->|[negative ->]]]; reflexivity. Qed.

Lemma given_or_notGiven (n : option Number) :
  {v | n = Some v /\ given n} + {notGiven n}.
Proof.
  destruct n as [[|negative|negative|negative s e]|].
  - right. right. now left.
  - left. exists (Infinity negative). split; [reflexivity|].
    exists (Infinity negative). repeat split; discriminate.
  - right. right. right. now exists negative.
  - left. exists (Finite negative s e). split; [reflexivity|].
    exists (Finite negative s e). repeat split; discriminate.
  - right. now left.
Qed.

Lemma given_not_notGiven (n : option Number) : given n -> notGiven n -> False.
Proof.
  intros (v & -> & Hnan & Hzero) [H|[H|[negative H]]];
    [discriminate | | ]; injection H as ->.
  - now apply Hnan.
  - now apply (Hzero negative).
Qed.

(** C10, as the code has it.  Every call of [getObjectAsync] sends one
    [GetObjectCommand] for the normalized key.  Its [Range] is defined iff
    [start] or [end] is given, that is a number that is neither [NaN] nor
    a zero: absent, [NaN], [+0] and [-0] count alike.  With neither given
    no range is sent; with only [end] given the range is
    ["range=0-<end>"]; with only [start] given it is ["range=<start>"],
    without an end; with both it is ["range=<start>-<end>"].  The text of
    a number is the one of a template literal: for an integer of
    magnitude below [2 ^ 53] it is its decimal digits, after [-] when it
    is negative, and for [10 ^ 21] it is ["1e+21"]. *)
Theorem getObjectAsync_range
        (objectPath : string) (start end_ : option Number) (w : World St) :
  exists range,
    log (snd (getObjectAsync client configuration objectPath start end_ w)) =
      (log w ++ [GetObjectCommand (bucket configuration)
                   (path (normalizePath objectPath None)) range])%list /\
    (range <> None <-> given start \/ given end_) /\
    (notGiven start -> notGiven end_ -> range = None) /\
    (forall e, notGiven start -> end_ = Some e -> given end_ ->
               range = Some ("range=0-" ++ numberToString e)) /\
    (forall s, start = Some s -> given start -> notGiven end_ ->
               range = Some ("range=" ++ numberToString s)) /\
    (forall s e, start = Some s -> given start -> end_ = Some e -> given end_ ->
                 range = Some ("range=" ++ numberToString s ++ "-" ++ numberToString e)) /\
    (forall z, (Z.abs z < 2 ^ 53)%Z ->
               numberToString (integer z) = NilZero.string_of_int (Z.to_int z)) /\
    numberToString (Finite false 1 21) = "1e+21".
Proof.
  unfold getObjectAsync, send.
  set (range := match truthyNumber start with Some _ => _ | None => _ end).
  exists range.
  split; [destruct (sendGetObject _ _ _ _ _) as [[out|err] s']; reflexivity|].
  assert (Htext : (forall z, (Z.abs z < 2 ^ 53)%Z ->
                     numberToString (integer z) = NilZero.string_of_int (Z.to_int z)) /\
                  numberToString (Finite false 1 21) = "1e+21").
  { split; [|reflexivity]. intros z Hz. apply numberToString_integer.
    apply (Z.lt_trans _ _ _ Hz). reflexivity. }
  subst range.
  destruct (given_or_notGiven start) as [(s & Hs & Gs)|Ns];
    destruct (given_or_notGiven end_) as [(e & He & Ge)|Ne].
  all: try rewrite (truthyNumber_given _ _ Hs Gs);
       try rewrite (truthyNumber_given _ _ He Ge);
       try rewrite (truthyNumber_notGiven _ Ns);
       try rewrite (truthyNumber_notGiven _ Ne).
  all: repeat match goal with
         | |- _ /\ _ => split
         | |- _ <-> _ => split
         end;
       try exact (proj1 Htext); try exact (proj2 Htext);
       intros;
       try match goal with
         | G : given ?n, N : notGiven ?n |- _ => elim (given_not_notGiven n G N)
         end;
       try discriminate; try congruence; auto.
  all: match goal with
       | H : _ \/ _ |- _ =>
           destruct H as [G|G];
           match goal with
           | N : notGiven ?n |- _ => elim (given_not_notGiven n G N)
           end
       end.
Qed.

End Range.

Lemma getObjectAsync_range_witness :
  exists range,
    log (snd (getObjectAsync MemoryStore.client MemoryStore.configuration "k"
                (Some (integer 0)) (Some (integer 9)) (MemoryStore.start []))) =
      [GetObjectCommand "bucket" "k" range] /\
    range = Some "range=0-9".
Proof.
  destruct (getObjectAsync_range MemoryStore.client MemoryStore.configuration "k"
              (Some (integer 0)) (Some (integer 9)) (MemoryStore.start []))
    as (range & Hlog & _ & _ & Hend & _).
  exists range. split.
  - exact Hlog.
  - apply (Hend (integer 9)).
    + right. right. now exists false.
    + reflexivity.
    + exists (integer 9). repeat split; discriminate.
Defined.

(** A start of [10 ^ 21] is sent in exponent notation, and a fraction
    with its point. *)
Example getObjectAsync_text_examples :
  log (snd (getObjectAsync MemoryStore.client MemoryStore.configuration "k"
              (Some (Finite false 1 21)) (Some (integer 5)) (MemoryStore.start [])))
    = [GetObjectCommand "bucket" "k" (Some "range=1e+21-5")] /\
  log (snd (getObjectAsync MemoryStore.client MemoryStore.configuration "k"
              (Some (Finite false 15 (-1))) (Some (Infinity false)) (MemoryStore.start [])))
    = [GetObjectCommand "bucket" "k" (Some "range=1.5-Infinity")] /\
  log (snd (getObjectAsync MemoryStore.client MemoryStore.configuration "k"
              (Some (Zero true)) (Some (integer (-7))) (MemoryStore.start [])))
    = [GetObjectCommand "bucket" "k" (Some "range=0--7")].
Proof. repeat split. Qed.

(** C10, as stated, fails: [NaN] is a number other than zero, and no
    range is sent for it, as [start] or as [end]. *)
Lemma getObjectAsync_NaN_sends_no_range :
  (forall negative, NaN <> Zero negative) /\
  log (snd (getObjectAsync MemoryStore.client MemoryStore.configuration "k"
              (Some NaN) None (MemoryStore.start [])))
    = [GetObjectCommand "bucket" "k" None] /\
  log (snd (getObjectAsync MemoryStore.client MemoryStore.configuration "k"
              (Some (integer 0)) (Some NaN) (MemoryStore.start [])))
    = [GetObjectCommand "bucket" "k" None].
Proof. split; [discriminate | split; reflexivity]. Qed.

(** ** Listings *)

Section Listing.

Context {St : Type}.
Variable client : S3 St.
Variable configuration : IAwsSimpleStorageServiceConfiguration.

Lemma normalizePath_forced_directory (p : string) :
  directory (normalizePath p (Some true)) = true.
Proof. reflexivity. Qed.

(** [listObjectsAsync] sends list commands only. *)
Lemma listObjectsAsync_log (fuel : nat) :
  forall directoryPath continuationToken (w : World St),
  exists cs,
    log (snd (listObjectsAsync client configuration fuel directoryPath continuationToken w))
    = (log w ++ cs)%list /\
    List.forallb isListCommand cs = true.
Proof.
  induction fuel as [|fuel IH]; intros dir tok w.
  - exists []. simpl. now rewrite app_nil_r.
  - cbn [listObjectsAsync]. unfold bind at 1. unfold send.
    destruct (sendListObjectsV2 _ _ _ _ _ _) as [[request|e] s1].
    + destruct (isTrue (IsTruncated request)).
      * unfold bind.
        destruct (IH dir (ContinuationToken request)
                    (mkWorld s1 (log w ++ [listCommand configuration dir tok])%list))
          as (cs & Hlog & Hcs).
        unfold listCommand in Hlog.
        destruct (listObjectsAsync _ _ fuel dir _ _) as [[second| |] w2]; simpl in *;
          exists (listCommand configuration dir tok :: cs);
          rewrite Hlog, <- app_assoc; simpl; auto.
      * exists [listCommand configuration dir tok]. split; reflexivity.
    + exists [listCommand configuration dir tok]. split; reflexivity.
Qed.

End Listing.

Section DeleteDirectory.

Context {St : Type}.
Variable client : S3 St.
Variable configuration : IAwsSimpleStorageServiceConfiguration.

(** C7. For every directory path whose one-level listing comes back with
    no object (its [Contents] absent or empty), [deleteDirectoryAsync]
    returns [null] and leaves the store as the listing left it; the
    commands it has sent are list commands only, so no delete reaches the
    store, whatever common prefixes the listing reports. *)
Theorem deleteDirectoryAsync_nothing_listed
        (fuel : nat) (directoryPath : string) (w w' : World St)
        (data : ListObjectsV2CommandOutput) :
  listObjectsAsync client configuration fuel
    (Some (path (normalizePath directoryPath (Some true)))) None w = (Return data, w') ->
  orEmpty (Contents data) = [] ->
  deleteDirectoryAsync client configuration (S fuel) directoryPath w = (Return None, w') /\
  exists cs, log w' = (log w ++ cs)%list /\ List.forallb isListCommand cs = true.
Proof.
  intros Hlist Hempty. split.
  - cbn [deleteDirectoryAsync]. rewrite normalizePath_forced_directory. cbn [negb].
    unfold bind at 1. rewrite Hlist, Hempty. reflexivity.
  - destruct (listObjectsAsync_log client configuration fuel
                (Some (path (normalizePath directoryPath (Some true)))) None w)
      as (cs & Hlog & Hcs).
    rewrite Hlist in Hlog. now exists cs.
Qed.

End DeleteDirectory.

Lemma deleteDirectoryAsync_nothing_listed_witness :
  deleteDirectoryAsync MemoryStore.client MemoryStore.configuration 3 "d"
    (MemoryStore.start [("d/sub/x", "X")])
  = (Return None,
     mkWorld [("d/sub/x", "X")] [ListObjectsV2Command "bucket" None (Some "/") "d/"]).
Proof.
  apply (deleteDirectoryAsync_nothing_listed MemoryStore.client MemoryStore.configuration
           2 "d" (MemoryStore.start [("d/sub/x", "X")]) _
           (mkListing None (Some [mkCommonPrefix (Some "d/sub/")]) (Some false) None None)).
  - reflexivity.
  - reflexivity.
Defined.

(** ** Pages *)

(** C3, where the code departs from it.  Against a store that pages the
    way the object store does (more than one page, the cursor of the next
    page in [NextContinuationToken], the token of the request echoed in
    [ContinuationToken]), [listObjectsAsync] asks for the first page
    again at every step: every command it sends carries no continuation
    token, and whatever the fuel the call never returns. *)
Theorem listObjectsAsync_repeats_first_page
        (page0 page1 : list string) (others : list (list string))
        (configuration : IAwsSimpleStorageServiceConfiguration)
        (directoryPath : option string) (fuel : nat) (w : World unit) :
  listObjectsAsync (PagedStore.client (page0 :: page1 :: others)) configuration
    fuel directoryPath None w
  = (OutOfFuel,
     mkWorld tt (log w ++ List.repeat (listCommand configuration directoryPath None) fuel)%list).
Proof.
  revert w. induction fuel as [|fuel IH]; intros [[] l].
  - simpl. now rewrite app_nil_r.
  - cbn [listObjectsAsync]. unfold bind at 1. unfold send. cbn [store log].
    cbn [PagedStore.client sendListObjectsV2 PagedStore.page List.nth_error List.length
         Nat.ltb Nat.leb IsTruncated isTrue ContinuationToken].
    unfold bind. rewrite IH. cbn [log List.repeat].
    rewrite <- app_assoc. reflexivity.
Qed.

(** Against a store that serves the pages of a script one after the
    other, whatever the token of the request, the call returns the first
    page with the contents of all the pages. *)
Lemma listObjectsAsync_scripted
      (configuration : IAwsSimpleStorageServiceConfiguration)
      (directoryPath : option string)
      (pages : list ListObjectsV2CommandOutput) :
  forall (last : ListObjectsV2CommandOutput) (rest : ScriptedStore.Script)
         (fuel : nat) (token : option string) (l : list Command),
    List.Forall (fun p => IsTruncated p = Some true) pages ->
    IsTruncated last <> Some true ->
    List.length pages < fuel ->
    listObjectsAsync ScriptedStore.client configuration fuel directoryPath token
      (mkWorld (pages ++ last :: rest)%list l)
    = (Return (aggregate pages last),
       mkWorld rest
         (l ++ List.map (listCommand configuration directoryPath)
                        (token :: List.map ContinuationToken pages))%list).
Proof.
  induction pages as [|p pages IH]; intros last rest fuel token l Htrunc Hlast Hfuel;
    (destruct fuel as [|fuel]; [inversion Hfuel|]).
  - cbn [listObjectsAsync]. unfold bind, send. simpl.
    destruct (IsTruncated last) as [[|]|]; try reflexivity. now destruct Hlast.
  - inversion Htrunc as [|? ? Hp Hps]; subst.
    cbn [listObjectsAsync]. unfold bind at 1. unfold send. simpl.
    rewrite Hp. cbn [isTrue]. unfold bind.
    rewrite (IH last rest fuel (ContinuationToken p)); auto.
    + unfold ret. rewrite <- app_assoc. reflexivity.
    + simpl in Hfuel. lia.
Qed.

Lemma aggregate_contents (pages : list ListObjectsV2CommandOutput)
      (last : ListObjectsV2CommandOutput) :
  orEmpty (Contents (aggregate pages last)) =
  List.flat_map (fun p => orEmpty (Contents p)) (pages ++ [last])%list.
Proof.
  induction pages as [|p pages IH]; simpl.
  - now rewrite app_nil_r.
  - now rewrite IH.
Qed.

(** C4, as the code has it.  For every sequence of pages (all truncated
    but the last) and enough fuel, the listing is returned once the last
    page is read, and it carries the truncated flag of the first page of
    the sequence: [true] as soon as there is more than one page.  Its
    contents are those of all the pages, in order. *)
Theorem listObjectsAsync_keeps_first_truncated_flag
        (configuration : IAwsSimpleStorageServiceConfiguration)
        (directoryPath token : option string)
        (pages : list ListObjectsV2CommandOutput) (last : ListObjectsV2CommandOutput)
        (fuel : nat) :
  List.Forall (fun p => IsTruncated p = Some true) pages ->
  IsTruncated last <> Some true ->
  List.length pages < fuel ->
  exists result w',
    listObjectsAsync ScriptedStore.client configuration fuel directoryPath token
      (mkWorld (pages ++ [last])%list []) = (Return result, w') /\
    store w' = [] /\
    IsTruncated result = IsTruncated (List.hd last pages) /\
    (pages <> [] -> IsTruncated result = Some true) /\
    orEmpty (Contents result) =
      List.flat_map (fun p => orEmpty (Contents p)) (pages ++ [last])%list.
Proof.
  intros Htrunc Hlast Hfuel.
  eexists _, _. split; [apply listObjectsAsync_scripted; assumption|].
  split; [reflexivity|]. split; [|split].
  - destruct pages; reflexivity.
  - destruct pages as [|p pages]; [congruence|]. intros _.
    inversion Htrunc; subst. assumption.
  - apply aggregate_contents.
Qed.

Lemma listObjectsAsync_keeps_first_truncated_flag_witness :
  exists result w',
    listObjectsAsync ScriptedStore.client MemoryStore.configuration 2 (Some "d") None
      (mkWorld twoPages []) = (Return result, w') /\
    IsTruncated result = Some true /\
    orEmpty (Contents result) = [mkObject (Some "d/a"); mkObject (Some "d/b")].
Proof.
  destruct (listObjectsAsync_keeps_first_truncated_flag MemoryStore.configuration
              (Some "d") None
              [mkListing (Some [mkObject (Some "d/a")]) None (Some true) (Some "t1") None]
              (mkListing (Some [mkObject (Some "d/b")]) None (Some false) None None) 2)
    as (result & w' & Hrun & _ & _ & Hflag & Hkeys).
  - repeat constructor.
  - discriminate.
  - simpl. lia.
  - exists result, w'. repeat split.
    + exact Hrun.
    + apply Hflag. discriminate.
    + exact Hkeys.
Defined.

(** C4, as stated, fails: a listing of two pages is returned with
    [IsTruncated] still [true]. *)
Lemma listObjectsAsync_result_still_truncated :
  exists result w',
    listObjectsAsync ScriptedStore.client MemoryStore.configuration 2 (Some "d") None
      (mkWorld twoPages []) = (Return result, w') /\
    IsTruncated result <> Some false.
Proof.
  eexists _, _. split; [vm_compute; reflexivity|]. discriminate.
Qed.

(** ** Deleting one key or many *)

Section DeleteObjects.

Context {St : Type}.
Variable client : S3 St.
Variable configuration : IAwsSimpleStorageServiceConfiguration.

(** C8, as the code has it.  [deleteObjectsAsync] of an empty array
    returns [null] and sends nothing.  Of a one-element array [[k]] it
    sends exactly one command, the batch delete of the normalized [k].
    Only when it is given the string [k] itself (not empty) does it hand
    over to [deleteObjectAsync]. *)
Theorem deleteObjectsAsync_array_is_batch (fuel : nat) (w : World St) :
  deleteObjectsAsync client configuration (S fuel) (ManyKeys []) w = (Return None, w) /\
  (forall k,
      log (snd (deleteObjectsAsync client configuration (S fuel) (ManyKeys [k]) w)) =
      (log w ++ [DeleteObjectsCommand (bucket configuration)
                   [path (normalizePath k None)]])%list) /\
  (forall k, k <> "" ->
      deleteObjectsAsync client configuration (S fuel) (OneKey k) w =
      deleteObjectAsync client configuration fuel (OneKey k) w).
Proof.
  split; [reflexivity|]. split; intros k.
  - cbn [deleteObjectsAsync List.length Nat.eqb List.map]. unfold bind, send.
    destruct (sendDeleteObjects _ _ _ _) as [[o|e] s]; reflexivity.
  - intros Hk. cbn [deleteObjectsAsync].
    destruct k; [congruence|reflexivity].
Qed.

End DeleteObjects.

Lemma deleteObjectsAsync_array_is_batch_witness :
  deleteObjectsAsync MemoryStore.client MemoryStore.configuration 2 (OneKey "k")
    (MemoryStore.start [("k", "K")])
  = deleteObjectAsync MemoryStore.client MemoryStore.configuration 1 (OneKey "k")
      (MemoryStore.start [("k", "K")]).
Proof.
  apply (proj2 (proj2 (deleteObjectsAsync_array_is_batch MemoryStore.client
                         MemoryStore.configuration 1 (MemoryStore.start [("k", "K")])))).
  discriminate.
Defined.

(** C8, as stated, fails.  For the key ["k"] the array form sends a batch
    delete where [deleteObjectAsync] sends a single delete; for the key
    ["d/"] the array form removes the marker only, where
    [deleteObjectAsync] removes the directory and what it holds. *)
Lemma deleteObjectsAsync_singleton_differs :
  log (snd (deleteObjectsAsync MemoryStore.client MemoryStore.configuration 5
              (ManyKeys ["k"]) (MemoryStore.start markedDirectory)))
    = [DeleteObjectsCommand "bucket" ["k"]] /\
  log (snd (deleteObjectAsync MemoryStore.client MemoryStore.configuration 5
              (OneKey "k") (MemoryStore.start markedDirectory)))
    = [DeleteObjectCommand "bucket" "k"] /\
  store (snd (deleteObjectsAsync MemoryStore.client MemoryStore.configuration 5
                (ManyKeys ["d/"]) (MemoryStore.start markedDirectory)))
    = [("d/x", "X"); ("k", "K")] /\
  store (snd (deleteObjectAsync MemoryStore.client MemoryStore.configuration 5
                (OneKey "d/") (MemoryStore.start markedDirectory)))
    = [("k", "K")] /\
  deleteObjectsAsync MemoryStore.client MemoryStore.configuration 5
    (ManyKeys ["d/"]) (MemoryStore.start markedDirectory)
  <> deleteObjectAsync MemoryStore.client MemoryStore.configuration 5
       (OneKey "d/") (MemoryStore.start markedDirectory).
Proof.
  repeat split; try (vm_compute; reflexivity).
  vm_compute. discriminate.
Qed.

(** ** Copies *)

Section CopyObject.

Context {St : Type}.
Variable client : S3 St.
Variable configuration : IAwsSimpleStorageServiceConfiguration.

(** C1, as the code has it.  For every source path and every destination
    path whose key is not directory-shaped, when the get and the put
    succeed, [copyObjectAsync] with [deleteOriginal = true] sends exactly
    three commands, in this order: the get of the source key, the put of
    the body it got to the destination key, and the single delete of the
    destination key.  It returns the result of the put, unless the delete
    fails.  No other delete is sent. *)
Theorem copyObjectAsync_deletes_destination
        (fuel : nat) (sourceObjectPath destinationObjectPath : string) (w : World St)
        (currentObject : GetObjectCommandOutput) (newObject : PutObjectCommandOutput)
        (s1 s2 : St) :
  let kms := truthyKey (keyManagementServiceKeyId configuration) in
  let sse := match kms with Some _ => Some "aws:kms" | None => None end in
  let body := match GetBody currentObject with
              | Some c => BodyContent c
              | None => BodyIsoDate
              end in
  directory (normalizePath (path (normalizePath destinationObjectPath None)) None) = false ->
  sendGetObject client (bucket configuration) (keyOf sourceObjectPath) None (store w)
    = (Fulfilled currentObject, s1) ->
  sendPutObject client "private" body (bucket configuration) (keyOf destinationObjectPath)
                sse kms s1
    = (Fulfilled newObject, s2) ->
  copyObjectAsync client configuration (S fuel) sourceObjectPath destinationObjectPath
                  (Some true) w
  = (match fst (sendDeleteObject client (bucket configuration)
                  (keyOf destinationObjectPath) s2) with
     | Fulfilled _ => Return newObject
     | Rejected e => Throw e
     end,
     mkWorld (snd (sendDeleteObject client (bucket configuration)
                     (keyOf destinationObjectPath) s2))
             (log w ++ [GetObjectCommand (bucket configuration) (keyOf sourceObjectPath) None;
                        PutObjectCommand "private" body (bucket configuration)
                          (keyOf destinationObjectPath) sse kms;
                        DeleteObjectCommand (bucket configuration)
                          (keyOf destinationObjectPath)])%list).
Proof.
  intros kms sse body Hdir Hget Hput.
  unfold copyObjectAsync, getObjectAsync, putObjectAsync.
  unfold bind at 1. unfold send at 1. cbn [truthyNumber].
  fold (keyOf sourceObjectPath). rewrite Hget.
  unfold bind at 1. unfold send at 1. cbn [store log].
  fold (keyOf destinationObjectPath). fold kms. fold sse. fold body. rewrite Hput.
  cbn [isTrue deleteObjectAsync]. rewrite Hdir.
  unfold bind, send, ret. cbn [store log].
  fold (keyOf destinationObjectPath).
  destruct (sendDeleteObject _ _ _ _) as [[o|e] s3]; cbn [fst snd];
    rewrite <- !app_assoc; reflexivity.
Qed.

End CopyObject.

Lemma copyObjectAsync_deletes_destination_witness :
  copyObjectAsync MemoryStore.client MemoryStore.configuration 1 "in/a.txt" "out/a.txt"
                  (Some true) (MemoryStore.start [("in/a.txt", "A")])
  = (Return (mkPutOutput None),
     mkWorld [("in/a.txt", "A")]
             [GetObjectCommand "bucket" "in/a.txt" None;
              PutObjectCommand "private" (BodyContent "A") "bucket" "out/a.txt" None None;
              DeleteObjectCommand "bucket" "out/a.txt"]).
Proof.
  apply (copyObjectAsync_deletes_destination MemoryStore.client MemoryStore.configuration
           0 "in/a.txt" "out/a.txt" (MemoryStore.start [("in/a.txt", "A")])
           (mkGetOutput (Some "A")) (mkPutOutput None)
           [("in/a.txt", "A")] [("in/a.txt", "A"); ("out/a.txt", "A")]).
  - reflexivity.
  - reflexivity.
  - reflexivity.
Defined.

(** C1, as stated, fails.  With the same path as source and destination
    the delete names the source key and the source object is gone; with a
    directory-shaped destination that holds the source, the source is
    removed by the batch delete of the directory. *)
Lemma copyObjectAsync_can_delete_source :
  copyObjectAsync MemoryStore.client MemoryStore.configuration 5 "a" "a" (Some true)
                  (MemoryStore.start [("a", "A")])
  = (Return (mkPutOutput None),
     mkWorld [] [GetObjectCommand "bucket" "a" None;
                 PutObjectCommand "private" (BodyContent "A") "bucket" "a" None None;
                 DeleteObjectCommand "bucket" "a"]) /\
  copyObjectAsync MemoryStore.client MemoryStore.configuration 5 "d/x" "d/" (Some true)
                  (MemoryStore.start [("d/x", "X")])
  = (Return (mkPutOutput None),
     mkWorld [] [GetObjectCommand "bucket" "d/x" None;
                 PutObjectCommand "private" (BodyContent "X") "bucket" "d/" None None;
                 ListObjectsV2Command "bucket" None (Some "/") "d/";
                 DeleteObjectsCommand "bucket" ["d/x"; "d/"];
                 DeleteObjectCommand "bucket" "d/"]).
Proof. split; vm_compute; reflexivity. Qed.

(** C2, where the code departs from it.  On the tree that holds
    [src/a.txt] and [src/sub/b.txt], [copyDirectoryAsync] without
    deletion leaves the two copies under [dst/]; [moveDirectoryAsync]
    returns two results as well, but deletes each copy right after
    writing it and then the source tree: the bucket ends empty. *)
Theorem moveDirectoryAsync_loses_the_copies :
  (let '(result, w) := copyDirectoryAsync MemoryStore.client MemoryStore.configuration 10
                         "src/" "dst/" None (MemoryStore.start sourceTree) in
   result = Return [mkPutOutput None; mkPutOutput None] /\
   store w = [("src/a.txt", "A"); ("src/sub/b.txt", "B");
              ("dst/a.txt", "A"); ("dst/sub/b.txt", "B")]) /\
  (let '(result, w) := moveDirectoryAsync MemoryStore.client MemoryStore.configuration 10
                         "src/" "dst/" (MemoryStore.start sourceTree) in
   result = Return [mkPutOutput None; mkPutOutput None] /\
   store w = [] /\
   MemoryStore.get "dst/a.txt" (store w) = None /\
   MemoryStore.get "dst/sub/b.txt" (store w) = None /\
   List.In (DeleteObjectCommand "bucket" "dst/a.txt") (log w) /\
   List.In (DeleteObjectCommand "bucket" "dst/sub/b.txt") (log w)).
Proof.
  split.
  - vm_compute. split; reflexivity.
  - vm_compute. repeat split; auto 25.
Qed.

(* ================================================================== *)
(** * Further properties of path normalization *)
(* ================================================================== *)

(** ** Last characters *)

Lemma endsWith_char_cons (c d : ascii) (s : string) :
  Js.endsWith (String c s) (String d "") =
  match s with EmptyString => Ascii.eqb c d | _ => Js.endsWith s (String d "") end.
Proof.
  simpl. destruct s as [|e s]; simpl.
  - destruct (Ascii.eqb c d); reflexivity.
  - destruct (Ascii.eqb c d); reflexivity.
Qed.

Lemma endsWith_char_snoc (a : string) (c d : ascii) :
  Js.endsWith (a ++ String c "") (String d "") = Ascii.eqb c d.
Proof.
  induction a as [|x a IH].
  - simpl. destruct (Ascii.eqb c d); reflexivity.
  - change (String x a ++ String c "") with (String x (a ++ String c "")).
    rewrite endsWith_char_cons. destruct (a ++ String c "") eqn:E; [|exact IH].
    destruct a; discriminate.
Qed.

Lemma string_snoc_cases (s : string) : s = "" \/ exists a c, s = a ++ String c "".
Proof.
  induction s as [|x s IH]; [now left|right].
  destruct IH as [->|(a & c & ->)].
  - now exists "", x.
  - now exists (String x a), c.
Qed.

Lemma replaceSeparatorsFrom_snoc (b : bool) (a : string) (c : ascii) :
  Ascii.eqb c "\" = false ->
  replaceSeparatorsFrom b (a ++ String c "") = replaceSeparatorsFrom b a ++ String c "".
Proof.
  intros Hc. revert b. induction a as [|x a IH]; intros b; simpl.
  - now rewrite Hc.
  - destruct (Ascii.eqb x "\"); [destruct b|]; simpl; now rewrite IH.
Qed.

(** A path that ends with a backslash: the replacement ends with the
    separator of the last run, unless the path is the end of a run begun
    before it. *)
Lemma replaceSeparatorsFrom_backslash_end (p : string) :
  forall b,
    Js.endsWith p "\" = true ->
    (b = true /\ replaceSeparatorsFrom b p = "") \/
    Js.endsWith (replaceSeparatorsFrom b p) "/" = true.
Proof.
  induction p as [|c p IH]; intros b; [discriminate|].
  rewrite endsWith_char_cons. destruct p as [|d p].
  - intros H. apply Ascii.eqb_eq in H. subst. destruct b; [now left|now right].
  - intros H. specialize (IH (Ascii.eqb c "\") H).
    change (replaceSeparatorsFrom b (String c (String d p)))
      with (if Ascii.eqb c "\"
            then if b then replaceSeparatorsFrom true (String d p)
                 else String "/" (replaceSeparatorsFrom true (String d p))
            else String c (replaceSeparatorsFrom false (String d p))).
    destruct (Ascii.eqb c "\").
    + destruct IH as [[_ He]|He].
      * destruct b; [left; now split|right; now rewrite He].
      * right. destruct b; [exact He|]. rewrite endsWith_slash_cons.
        destruct (replaceSeparatorsFrom true (String d p)); [reflexivity|exact He].
    + destruct IH as [[Hb _]|He]; [discriminate|]. right.
      rewrite endsWith_slash_cons.
      destruct (replaceSeparatorsFrom false (String d p)); [discriminate|exact He].
Qed.

Lemma endsWith_replaceSeparators_iff (p : string) :
  Js.endsWith (replaceSeparators p) "/" = Js.endsWith p "/" || Js.endsWith p "\".
Proof.
  destruct (string_snoc_cases p) as [->|(a & c & ->)]; [reflexivity|].
  rewrite !endsWith_char_snoc.
  destruct (Ascii.eqb c "\") eqn:Ec.
  - apply Ascii.eqb_eq in Ec. subst c. rewrite orb_true_r.
    destruct (replaceSeparatorsFrom_backslash_end (a ++ "\") false) as [[Hb _]|H].
    + apply endsWith_char_snoc.
    + discriminate.
    + exact H.
  - unfold replaceSeparators. rewrite replaceSeparatorsFrom_snoc by assumption.
    rewrite endsWith_char_snoc. now rewrite orb_false_r.
Qed.

(** ** Invariants of [normalizePath] *)

(** X1. The directory flag is set when the caller forces it or when the path
    as given ends with a forward slash or with a backslash, and in no
    other case. *)
Theorem normalizePath_directory_flag (p : string) (d : option bool) :
  directory (normalizePath p d) = orFalse d || Js.endsWith p "/" || Js.endsWith p "\".
Proof.
  rewrite normalizePath_segments. cbn [directory].
  now rewrite endsWith_replaceSeparators_iff, orb_assoc.
Qed.

Lemma keyOfSegments_directory_ends (absolute : bool) (segs : list string) :
  Js.endsWith (keyOfSegments true absolute segs) "/" = true.
Proof.
  unfold keyOfSegments. destruct segs as [|s segs].
  - now destruct absolute.
  - apply endsWith_append_slash.
Qed.

Lemma directory_key_ends (p : string) (d : option bool) :
  directory (normalizePath p d) = true ->
  Js.endsWith (path (normalizePath p d)) "/" = true /\ path (normalizePath p d) <> "".
Proof.
  rewrite normalizePath_segments. cbn [directory path]. intros ->.
  pose proof (keyOfSegments_directory_ends
                (Js.startsWith (Js.trim (replaceSeparators p)) "/")
                (segmentsOf (Js.trim (replaceSeparators p)))) as H.
  split; [exact H|]. intros E. rewrite E in H. discriminate.
Qed.

(** X2. The key of a result flagged as a directory ends with a separator, so
    it is never empty. *)
Theorem normalizePath_directory_key (p : string) (d : option bool) :
  directory (normalizePath p d) = true ->
  Js.endsWith (path (normalizePath p d)) "/" = true /\ path (normalizePath p d) <> "".
Proof. exact (directory_key_ends p d). Qed.

Lemma fileKeyOfSegments_noBackslash (absolute trailing : bool) (segs : list string) :
  List.Forall (fun x => noBackslash x = true) segs ->
  noBackslash (fileKeyOfSegments absolute trailing segs) = true.
Proof.
  intros H. unfold fileKeyOfSegments. destruct segs as [|s segs].
  - destruct absolute, trailing; reflexivity.
  - unfold noBackslash. rewrite allChars_append, join_chars; auto.
    destruct trailing; reflexivity.
Qed.

Lemma trimmed_segments_noBackslash (p : string) :
  List.Forall (fun x => noBackslash x = true)
              (segmentsOf (Js.trim (replaceSeparators p))).
Proof.
  apply segmentsOf_noBackslash. apply allChars_trim.
  apply (replaceSeparatorsFrom_noBackslash false p).
Qed.

(** X3. The key holds no backslash. *)
Theorem normalizePath_key_noBackslash (p : string) (d : option bool) :
  noBackslash (path (normalizePath p d)) = true.
Proof.
  rewrite normalizePath_segments. cbn [path].
  pose proof (trimmed_segments_noBackslash p) as H.
  destruct (orFalse d || _).
  - now apply keyOfSegments_noBackslash.
  - now apply fileKeyOfSegments_noBackslash.
Qed.

(** X4. The key starts with a separator in one case only: it is the key
    ["/"], the one of a directory whose path is reduced to the root. *)
Theorem normalizePath_key_leading_slash (p : string) (d : option bool) :
  Js.startsWith (path (normalizePath p d)) "/" = true ->
  normalizePath p d = mkNormalizedPath true "/".
Proof.
  rewrite normalizePath_segments. cbn [path].
  pose proof (canonical_isSegment _ _ (segmentsOf_canonical (Js.trim (replaceSeparators p))))
    as Hsegs.
  set (absolute := Js.startsWith (Js.trim (replaceSeparators p)) "/").
  set (trailing := Js.endsWith (Js.trim (replaceSeparators p)) "/").
  clearbody absolute trailing.
  destruct (orFalse d || _);
    unfold keyOfSegments, fileKeyOfSegments;
    destruct (segmentsOf (Js.trim (replaceSeparators p))) as [|s segs].
  - destruct absolute; [reflexivity|discriminate].
  - inversion Hsegs as [|? ? Hs _]; subst. now rewrite startsWith_join.
  - destruct absolute, trailing; discriminate.
  - inversion Hsegs as [|? ? Hs _]; subst. now rewrite startsWith_join.
Qed.

(** X5. When [trim] has nothing to remove from the path, the key ends with a
    separator exactly when the result is flagged as a directory. *)
Theorem normalizePath_trailing_slash_iff_directory (p : string) (d : option bool) :
  Js.trim (replaceSeparators p) = replaceSeparators p ->
  Js.endsWith (path (normalizePath p d)) "/" = directory (normalizePath p d).
Proof.
  intros Htrim. rewrite normalizePath_segments, Htrim. cbn [path directory].
  pose proof (canonical_isSegment _ _ (segmentsOf_canonical (replaceSeparators p))) as Hsegs.
  destruct (orFalse d); cbn [orb].
  - apply keyOfSegments_directory_ends.
  - destruct (Js.endsWith (replaceSeparators p) "/") eqn:E.
    + apply keyOfSegments_directory_ends.
    + unfold fileKeyOfSegments.
      destruct (segmentsOf (replaceSeparators p)) as [|s segs].
      * now destruct (Js.startsWith (replaceSeparators p) "/").
      * rewrite append_nil_r. apply endsWith_join; [discriminate|assumption].
Qed.

Lemma normalizePath_trailing_slash_iff_directory_witness :
  Js.endsWith (path (normalizePath "a\b/../c\" None)) "/"
  = directory (normalizePath "a\b/../c\" None).
Proof.
  apply normalizePath_trailing_slash_iff_directory. reflexivity.
Defined.

Lemma normalizePath_directory_key_witness :
  Js.endsWith (path (normalizePath "  docs\2024  " (Some true))) "/" = true /\
  path (normalizePath "  docs\2024  " (Some true)) <> "".
Proof.
  apply normalizePath_directory_key. reflexivity.
Defined.

Lemma normalizePath_key_leading_slash_witness :
  normalizePath "/a/../" None = mkNormalizedPath true "/".
Proof.
  apply normalizePath_key_leading_slash. reflexivity.
Defined.

(* ================================================================== *)
(** * Properties of the name helpers *)
(* ================================================================== *)

(** ** [trimObjectPath] *)

Lemma trimmed_noBackslash (p : string) :
  noBackslash p = true ->
  replaceSeparators (NodePath.normalize (Js.trim p))
  = render (Js.startsWith (Js.trim p) "/") (Js.endsWith (Js.trim p) "/")
           (segmentsOf (Js.trim p)).
Proof.
  intros H. rewrite normalize_render. apply replaceSeparators_fixed.
  apply render_noBackslash, segmentsOf_noBackslash. now apply allChars_trim.
Qed.

Lemma String_eqb_slash_join (absolute : bool) (s : string) (segs : list string) (t : string) :
  isSegment s ->
  (((if absolute then "/" else "") ++ join (s :: segs) ++ t) =? "/")%string = false.
Proof.
  intros Hs. apply String.eqb_neq. intros E.
  pose proof (join_cons_not_empty s segs Hs) as Hne.
  destruct absolute.
  - simpl in E. injection E as E. destruct (join (s :: segs)); [congruence|discriminate].
  - pose proof (startsWith_join s segs t Hs) as Hstart.
    simpl in E. rewrite E in Hstart. discriminate.
Qed.

(** [trimObjectPath] of a path without backslash, from the segments kept. *)
Lemma trimObjectPath_segments (p : string) :
  noBackslash p = true ->
  trimObjectPath p =
  match segmentsOf (Js.trim p) with
  | [] => if Js.startsWith (Js.trim p) "/" then "/" else "."
  | segs => join segs
  end.
Proof.
  intros H. unfold trimObjectPath. rewrite (trimmed_noBackslash p H).
  pose proof (canonical_isSegment _ _ (segmentsOf_canonical (Js.trim p))) as Hsegs.
  set (absolute := Js.startsWith (Js.trim p) "/").
  set (trailing := Js.endsWith (Js.trim p) "/").
  clearbody absolute trailing.
  destruct (segmentsOf (Js.trim p)) as [|s segs].
  - destruct absolute, trailing; reflexivity.
  - inversion Hsegs as [|? ? Hs Hrest]; subst.
    unfold render. rewrite String_eqb_slash_join by assumption.
    assert (Hstrip :
              (if Js.startsWith ((if absolute then "/" else "") ++ join (s :: segs)
                                   ++ (if trailing then "/" else "")) "/"
               then Js.slice1 ((if absolute then "/" else "") ++ join (s :: segs)
                                 ++ (if trailing then "/" else ""))
               else (if absolute then "/" else "") ++ join (s :: segs)
                      ++ (if trailing then "/" else ""))
              = join (s :: segs) ++ (if trailing then "/" else "")).
    { destruct absolute; [reflexivity|]. cbn [append]. now rewrite startsWith_join. }
    rewrite Hstrip. destruct trailing.
    + rewrite endsWith_append_slash, length_append. simpl String.length.
      replace (String.length (join (s :: segs)) + 1 - 1)
        with (String.length (join (s :: segs))) by lia.
      apply slice0_append.
    + rewrite append_nil_r, endsWith_join; auto. discriminate.
Qed.

(** X6. For a path without backslash, [trimObjectPath] returns the root
    ["/"], or a path that is not empty and neither starts nor ends with a
    separator. *)
Theorem trimObjectPath_no_outer_slash (p : string) :
  noBackslash p = true ->
  trimObjectPath p = "/" \/
  (trimObjectPath p <> "" /\
   Js.startsWith (trimObjectPath p) "/" = false /\
   Js.endsWith (trimObjectPath p) "/" = false).
Proof.
  intros H. rewrite (trimObjectPath_segments p H).
  pose proof (canonical_isSegment _ _ (segmentsOf_canonical (Js.trim p))) as Hsegs.
  destruct (segmentsOf (Js.trim p)) as [|s segs].
  - destruct (Js.startsWith (Js.trim p) "/"); [now left|right].
    split; [discriminate|split; reflexivity].
  - right. inversion Hsegs as [|? ? Hs Hrest]; subst. split; [|split].
    + now apply join_cons_not_empty.
    + rewrite <- (append_nil_r (join (s :: segs))). now apply startsWith_join.
    + apply endsWith_join; [discriminate|assumption].
Qed.

Lemma trimObjectPath_no_outer_slash_witness :
  trimObjectPath "//a/./b//" = "/" \/
  (trimObjectPath "//a/./b//" <> "" /\
   Js.startsWith (trimObjectPath "//a/./b//") "/" = false /\
   Js.endsWith (trimObjectPath "//a/./b//") "/" = false).
Proof. apply trimObjectPath_no_outer_slash. reflexivity. Defined.

(** ** [split] *)

Lemma splitChar_not_nil (sep : ascii) (s : string) : splitChar sep s <> [].
Proof.
  destruct s as [|c s]; simpl; [discriminate|].
  destruct (Ascii.eqb c sep); [discriminate|].
  destruct (splitChar sep s); discriminate.
Qed.

Lemma splitChar_slashFree (s : string) :
  List.Forall (fun x => slashFree x = true) (splitChar "/" s).
Proof.
  induction s as [|c s IH]; simpl; [repeat constructor|].
  destruct (Ascii.eqb c "/") eqn:Ec; [constructor; [reflexivity|assumption]|].
  destruct (splitChar "/" s) as [|h t].
  - constructor; [|constructor]. change (notSlash c && true = true).
    unfold notSlash. now rewrite Ec.
  - inversion IH as [|? ? Hh Ht]; subst. constructor; [|assumption].
    change (notSlash c && slashFree h = true). unfold notSlash. now rewrite Ec.
Qed.

Lemma splitChar_single (s : string) :
  slashFree s = true -> splitChar "/" s = [s].
Proof.
  induction s as [|c s IH]; [reflexivity|]. simpl. intros H.
  apply andb_true_iff in H as [Hc H]. unfold notSlash in Hc.
  destruct (Ascii.eqb c "/"); [discriminate|]. now rewrite IH.
Qed.

Lemma splitChar_append_slash (a b : string) :
  splitChar "/" (a ++ "/" ++ b) = (splitChar "/" a ++ splitChar "/" b)%list.
Proof.
  induction a as [|c a IH]; [reflexivity|]. simpl.
  destruct (Ascii.eqb c "/").
  - simpl. f_equal. exact IH.
  - simpl in IH. rewrite IH.
    pose proof (splitChar_not_nil "/" a) as Hne.
    destruct (splitChar "/" a) as [|h t]; [congruence|reflexivity].
Qed.

Lemma splitChar_only_empty (s : string) : splitChar "/" s = [""] -> s = "".
Proof.
  destruct s as [|c s]; [reflexivity|]. simpl.
  pose proof (splitChar_not_nil "/" s) as Hne.
  destruct (Ascii.eqb c "/"); destruct (splitChar "/" s); try congruence; discriminate.
Qed.

Lemma elementAt_last (l : list string) (x : string) :
  elementAt (l ++ [x]) (Z.of_nat (List.length (l ++ [x])) - 1) = Some x.
Proof.
  unfold elementAt. rewrite List.length_app. simpl List.length.
  replace (Z.of_nat (List.length l + 1) - 1)%Z with (Z.of_nat (List.length l)) by lia.
  destruct (Z.ltb_spec (Z.of_nat (List.length l)) 0); [lia|].
  rewrite Nat2Z.id, nth_error_app2, Nat.sub_diag; [reflexivity|lia].
Qed.

Lemma elementAt_before_last (l : list string) (y x : string) :
  elementAt (l ++ [y; x]) (Z.of_nat (List.length (l ++ [y; x])) - 2) = Some y.
Proof.
  unfold elementAt. rewrite List.length_app. simpl List.length.
  replace (Z.of_nat (List.length l + 2) - 2)%Z with (Z.of_nat (List.length l)) by lia.
  destruct (Z.ltb_spec (Z.of_nat (List.length l)) 0); [lia|].
  rewrite Nat2Z.id, nth_error_app2, Nat.sub_diag; [reflexivity|lia].
Qed.

Lemma replaceSeparators_not_empty (s : string) : s <> "" -> replaceSeparators s <> "".
Proof.
  destruct s as [|c s]; [congruence|]. intros _. unfold replaceSeparators. simpl.
  destruct (Ascii.eqb c "\"); discriminate.
Qed.

Lemma normalize_not_empty (p : string) : NodePath.normalize p <> "".
Proof.
  rewrite normalize_render. unfold render.
  pose proof (canonical_isSegment _ _ (segmentsOf_canonical p)) as Hsegs.
  destruct (segmentsOf p) as [|s segs].
  - destruct (Js.startsWith p "/"), (Js.endsWith p "/"); discriminate.
  - inversion Hsegs as [|? ? Hs _]; subst.
    pose proof (join_cons_not_empty s segs Hs) as Hne.
    destruct (Js.startsWith p "/"); [discriminate|].
    simpl. destruct (join (s :: segs)); [congruence|discriminate].
Qed.

(** ** [getObjectName] *)

(** X7. The name that [getObjectName] returns is never empty, and a
    separator can only be its last character: it is a part of the path
    without separator, or such a part followed by one separator (never
    the text [undefined]: the part before an empty last part exists). *)
Theorem getObjectName_shape (p : string) :
  getObjectName p <> "" /\
  exists n,
    List.In n (splitChar "/" (replaceSeparators (NodePath.normalize (Js.trim p)))) /\
    slashFree n = true /\
    ((n <> "" /\ getObjectName p = n) \/ getObjectName p = n ++ "/").
Proof.
  unfold getObjectName.
  pose proof (replaceSeparators_not_empty _ (normalize_not_empty (Js.trim p))) as Hne.
  pose proof (splitChar_slashFree (replaceSeparators (NodePath.normalize (Js.trim p))))
    as Hfree.
  pose proof (splitChar_not_nil "/" (replaceSeparators (NodePath.normalize (Js.trim p))))
    as Hnil.
  pose proof (splitChar_only_empty (replaceSeparators (NodePath.normalize (Js.trim p))))
    as Honly.
  destruct (snoc_cases (splitChar "/" (replaceSeparators (NodePath.normalize (Js.trim p)))))
    as [E|(l & x & E)]; [congruence|].
  rewrite E in *. cbv zeta. rewrite elementAt_last.
  apply Forall_snoc in Hfree as [Hl Hx].
  unfold Js.truthy. destruct (String.eqb_spec x "") as [->|Hx0]; cbn [negb].
  - destruct (snoc_cases l) as [->|(l' & y & ->)].
    + exfalso. apply Hne. now apply Honly.
    + rewrite <- app_assoc. cbn [app]. rewrite elementAt_before_last. cbn [plusString].
      apply Forall_snoc in Hl as [_ Hy]. split.
      * destruct y; discriminate.
      * exists y. split; [apply in_or_app; right; now left|].
        split; [assumption|now right].
  - split; [assumption|]. exists x.
    split; [apply in_or_app; right; now left|].
    split; [assumption|left; now split].
Qed.

(** *** Paths that end with a name *)

Lemma trimStart_append_slash (d r : string) :
  Js.trimStart (d ++ "/" ++ r) = Js.trimStart d ++ "/" ++ r.
Proof.
  induction d as [|c d IH]; [reflexivity|]. simpl.
  destruct (Js.isWhiteSpace c); [exact IH|reflexivity].
Qed.

Lemma trimEnd_append (a b : string) :
  Js.trimEnd b <> "" -> Js.trimEnd (a ++ b) = a ++ Js.trimEnd b.
Proof.
  intros Hb. induction a as [|c a IH]; [reflexivity|].
  change (String c a ++ b) with (String c (a ++ b)).
  cbn [Js.trimEnd]. rewrite IH.
  destruct (a ++ Js.trimEnd b) eqn:E.
  - destruct a; simpl in E; [congruence|discriminate].
  - simpl. now rewrite E.
Qed.

Lemma isName_not_empty (n : string) : isName n -> n <> "".
Proof. now intros (((H & _) & _) & _). Qed.

Lemma isName_slashFree (n : string) : isName n -> slashFree n = true.
Proof. now intros (((_ & H) & _) & _). Qed.

Lemma isName_segment (n : string) : isName n -> isSegment n.
Proof. now intros ((H & _) & _). Qed.

Lemma isDirectoryPrefix_append_slash (d : string) : isDirectoryPrefix (d ++ "/").
Proof. right. now exists d. Qed.

(** [trim] leaves the name at the end of a path as it is. *)
Lemma trim_path_to_name (d n t : string) :
  isDirectoryPrefix d -> isName n -> t = "" \/ t = "/" ->
  exists e, isDirectoryPrefix e /\ Js.trim (d ++ n ++ t) = e ++ n ++ t.
Proof.
  intros Hd Hn Ht.
  assert (Hend : Js.trimEnd (n ++ t) = n ++ t).
  { destruct Hn as (((Hn0 & _) & _) & _ & _ & He).
    destruct Ht as [->| ->].
    - now rewrite append_nil_r.
    - rewrite trimEnd_append; [reflexivity|discriminate]. }
  assert (Hne : Js.trimEnd (n ++ t) <> "").
  { rewrite Hend. pose proof (isName_not_empty n Hn). destruct n; [congruence|discriminate]. }
  unfold Js.trim. destruct Hd as [->|(d' & ->)].
  - exists "". split; [now left|]. simpl.
    pose proof (isName_not_empty n Hn) as Hn0.
    destruct Hn as (_ & _ & Hs & _).
    assert (Js.trimStart (n ++ t) = n ++ t) as ->; [|exact Hend].
    destruct n as [|c n]; [congruence|].
    simpl in *. destruct (Js.isWhiteSpace c); [|reflexivity].
    exfalso. clear -Hs. 
    assert (L : forall s, String.length (Js.trimStart s) <= String.length s).
    { induction s as [|x s IH]; simpl; [lia|]. destruct (Js.isWhiteSpace x); simpl; lia. }
    specialize (L n). rewrite Hs in L. simpl in L. lia.
  - exists (Js.trimStart d' ++ "/"). split; [apply isDirectoryPrefix_append_slash|].
    rewrite append_assoc, trimStart_append_slash.
    rewrite <- (append_assoc (Js.trimStart d') "/" (n ++ t)).
    change (Js.trimStart d' ++ "/" ++ n ++ t) with (Js.trimStart d' ++ String "/" (n ++ t)).
    rewrite <- Hend at 2.
    replace (Js.trimStart d' ++ String "/" (n ++ t))
      with ((Js.trimStart d' ++ "/") ++ (n ++ t)) by (now rewrite append_assoc).
    rewrite trimEnd_append by assumption. now rewrite Hend.
Qed.

Lemma pushSegment_name (aar : bool) (stack : list string) (n : string) :
  isName n -> pushSegment aar stack n = (stack ++ [n])%list.
Proof.
  intros (((Hn0 & _) & Hn1 & Hn2) & _). unfold pushSegment.
  destruct (String.eqb_spec n ""); [congruence|].
  destruct (String.eqb_spec n "."); [congruence|].
  destruct (String.eqb_spec n ".."); [congruence|]. reflexivity.
Qed.

Lemma segmentsLoop_name_end (aar : bool) (n t : string) (stack : list string) :
  isName n -> t = "" \/ t = "/" ->
  segmentsLoop aar (n ++ t) stack "" = (stack ++ [n])%list.
Proof.
  intros Hn Ht. rewrite segmentsLoop_append by now apply isName_slashFree.
  cbn [append]. destruct Ht as [->| ->].
  - cbn [segmentsLoop]. now apply pushSegment_name.
  - change (segmentsLoop aar "/" stack n)
      with (pushSegment aar (pushSegment aar stack n) "").
    rewrite (pushSegment_name aar stack n Hn). reflexivity.
Qed.

(** The name at the end of a path is the last segment kept. *)
Lemma segmentsLoop_name_last (aar : bool) (n t : string) (d : string) :
  isName n -> t = "" \/ t = "/" ->
  forall stack seg,
    exists stack', segmentsLoop aar (d ++ "/" ++ n ++ t) stack seg = (stack' ++ [n])%list.
Proof.
  intros Hn Ht. induction d as [|c d IH]; intros stack seg.
  - exists (pushSegment aar stack seg).
    exact (segmentsLoop_name_end aar n t _ Hn Ht).
  - simpl. destruct (Ascii.eqb c "/"); apply IH.
Qed.

Lemma segmentsOf_name_last (e n t : string) :
  isDirectoryPrefix e -> isName n -> t = "" \/ t = "/" ->
  exists stack, segmentsOf (e ++ n ++ t) = (stack ++ [n])%list.
Proof.
  intros [->|(d & ->)] Hn Ht; unfold segmentsOf.
  - exists []. exact (segmentsLoop_name_end _ n t [] Hn Ht).
  - rewrite append_assoc. exact (segmentsLoop_name_last _ n t d Hn Ht [] "").
Qed.

Lemma replaceSeparatorsFrom_append_slash_rest (b : bool) (a r : string) :
  replaceSeparatorsFrom b (a ++ "/" ++ r)
  = replaceSeparatorsFrom b a ++ "/" ++ replaceSeparatorsFrom false r.
Proof.
  revert b. induction a as [|c a IH]; intros b; [reflexivity|]. simpl.
  destruct (Ascii.eqb c "\"); [destruct b|]; simpl; now rewrite IH.
Qed.

Lemma replaceSeparators_prefix (x r : string) :
  isDirectoryPrefix x -> noBackslash r = true ->
  exists y, isDirectoryPrefix y /\ replaceSeparators (x ++ r) = y ++ r.
Proof.
  intros [->|(x' & ->)] Hr.
  - exists "". split; [now left|]. now apply replaceSeparators_fixed.
  - exists (replaceSeparators x' ++ "/"). split; [apply isDirectoryPrefix_append_slash|].
    unfold replaceSeparators.
    rewrite append_assoc, replaceSeparatorsFrom_append_slash_rest.
    rewrite (replaceSeparatorsFrom_fixed false r Hr). now rewrite append_assoc.
Qed.

Lemma splitChar_prefix (y r : string) :
  isDirectoryPrefix y ->
  exists pre, splitChar "/" (y ++ r) = (pre ++ splitChar "/" r)%list.
Proof.
  intros [->|(y' & ->)].
  - now exists [].
  - exists (splitChar "/" y'). rewrite append_assoc. apply splitChar_append_slash.
Qed.

Lemma isName_noBackslash_tail (n t : string) :
  isName n -> t = "" \/ t = "/" -> noBackslash (n ++ t) = true.
Proof.
  intros (_ & Hn & _) Ht. unfold noBackslash in *. rewrite allChars_append, Hn.
  destruct Ht as [->| ->]; reflexivity.
Qed.

(** What [path.normalize] and the replacement of separators leave of a
    path that ends with a name: the name still ends it. *)
Lemma normalized_path_to_name (d n t : string) :
  isDirectoryPrefix d -> isName n -> t = "" \/ t = "/" ->
  exists y,
    isDirectoryPrefix y /\
    replaceSeparators (NodePath.normalize (Js.trim (d ++ n ++ t))) = y ++ n ++ t.
Proof.
  intros Hd Hn Ht.
  destruct (trim_path_to_name d n t Hd Hn Ht) as (e & He & ->).
  rewrite normalize_render.
  destruct (segmentsOf_name_last e n t He Hn Ht) as (stack & ->).
  assert (Htrail : Js.endsWith (e ++ n ++ t) "/" = match t with "" => false | _ => true end).
  { destruct Ht as [->| ->].
    - rewrite append_nil_r. apply endsWith_append_slashFree;
        [now apply isName_not_empty|now apply isName_slashFree].
    - rewrite <- !append_assoc. apply endsWith_append_slash. }
  rewrite Htrail.
  assert (Hrender :
            render (Js.startsWith (e ++ n ++ t) "/")
                   (match t with "" => false | _ => true end) (stack ++ [n])
            = ((if Js.startsWith (e ++ n ++ t) "/" then "/" else "")
                 ++ (match stack with [] => "" | _ => join stack ++ "/" end))
                ++ n ++ t).
  { unfold render. destruct (stack ++ [n])%list eqn:E; [destruct stack; discriminate|].
    rewrite <- E, join_snoc_end, !append_assoc.
    destruct Ht as [->| ->]; reflexivity. }
  rewrite Hrender. apply replaceSeparators_prefix.
  - destruct stack as [|s stack].
    + destruct (Js.startsWith (e ++ n ++ t) "/"); [right; now exists ""|now left].
    + right. exists ((if Js.startsWith (e ++ n ++ t) "/" then "/" else "")
                       ++ join (s :: stack)).
      now rewrite append_assoc.
  - now apply isName_noBackslash_tail.
Qed.

Lemma getObjectName_name_end (d n : string) :
  isDirectoryPrefix d -> isName n ->
  getObjectName (d ++ n) = n /\ getObjectName (d ++ n ++ "/") = n ++ "/".
Proof.
  intros Hd Hn.
  pose proof (isName_not_empty n Hn) as Hn0.
  pose proof (isName_slashFree n Hn) as Hfree.
  split; unfold getObjectName.
  - destruct (normalized_path_to_name d n "" Hd Hn (or_introl eq_refl)) as (y & Hy & E).
    rewrite append_nil_r in E. rewrite E.
    destruct (splitChar_prefix y n Hy) as (pre & ->).
    rewrite (splitChar_single n Hfree). cbv zeta. rewrite elementAt_last.
    unfold Js.truthy. destruct (String.eqb_spec n ""); [congruence|reflexivity].
  - destruct (normalized_path_to_name d n "/" Hd Hn (or_intror eq_refl)) as (y & Hy & ->).
    destruct (splitChar_prefix y (n ++ "/") Hy) as (pre & ->).
    assert (Esplit : splitChar "/" (n ++ "/") = [n; ""]).
    { change (n ++ "/") with (n ++ "/" ++ "").
      now rewrite splitChar_append_slash, (splitChar_single n Hfree). }
    rewrite Esplit.
    assert (E1 : elementAt (pre ++ [n; ""])
                   (Z.of_nat (List.length (pre ++ [n; ""])) - 1) = Some "").
    { replace (pre ++ [n; ""])%list with ((pre ++ [n]) ++ [""])%list
        by (now rewrite <- app_assoc).
      apply elementAt_last. }
    cbv zeta. rewrite E1, elementAt_before_last. reflexivity.
Qed.

(** X8. For a path that ends with a name, [getObjectName] returns that name;
    if one separator follows the name, it returns the name and the
    separator. *)
Theorem getObjectName_of_name (d n : string) :
  isDirectoryPrefix d -> isName n ->
  getObjectName (d ++ n) = n /\ getObjectName (d ++ n ++ "/") = n ++ "/".
Proof. exact (getObjectName_name_end d n). Qed.

Lemma isName_canonical (n : string) : isName n -> canonical true [n].
Proof.
  intros (Hn & _). exists 0, [n]. repeat split; auto.
Qed.

Lemma trim_name (n t : string) :
  isName n -> t = "" \/ t = "/" -> Js.trim (n ++ t) = n ++ t.
Proof.
  intros Hn Ht.
  destruct (trim_path_to_name "" n t (or_introl eq_refl) Hn Ht) as (e & He & E).
  simpl in E. rewrite E.
  destruct He as [->|(e' & ->)]; [reflexivity|]. exfalso.
  (* the two sides have different lengths *)
  assert (L : forall s, String.length (Js.trimStart s) <= String.length s).
  { induction s as [|x s IH]; simpl; [lia|]. destruct (Js.isWhiteSpace x); simpl; lia. }
  assert (L' : forall s, String.length (Js.trimEnd s) <= String.length s).
  { induction s as [|x s IH]; simpl; [lia|].
    destruct (Js.trimEnd s); [destruct (Js.isWhiteSpace x)|]; simpl in *; lia. }
  pose proof (L (n ++ t)). pose proof (L' (Js.trimStart (n ++ t))).
  unfold Js.trim in E. rewrite E in H0. rewrite !length_append in *. simpl in *. lia.
Qed.

(** [trimObjectPath] of a name, with or without a separator after it, is
    the name. *)
Lemma trimObjectPath_name (n t : string) :
  isName n -> t = "" \/ t = "/" -> trimObjectPath (n ++ t) = n.
Proof.
  intros Hn Ht.
  rewrite trimObjectPath_segments by now apply isName_noBackslash_tail.
  rewrite (trim_name n t Hn Ht).
  assert (E : segmentsOf (n ++ t) = [n]).
  { change (n ++ t) with (join [n] ++ t). apply segmentsOf_join; auto.
    - discriminate.
    - now apply isName_canonical. }
  now rewrite E.
Qed.

Lemma isHidden_name_end (d n : string) :
  isDirectoryPrefix d -> isName n ->
  (getTrimmedObjectName (d ++ n) = n /\ getTrimmedObjectName (d ++ n ++ "/") = n) /\
  isHidden (d ++ n) = Js.startsWith n AwsSimpleStorageServiceHiddenPrefix /\
  isHidden (d ++ n ++ "/") = Js.startsWith n AwsSimpleStorageServiceHiddenPrefix.
Proof.
  intros Hd Hn. unfold isHidden, getTrimmedObjectName.
  destruct (getObjectName_name_end d n Hd Hn) as [-> ->].
  pose proof (trimObjectPath_name n "" Hn (or_introl eq_refl)) as T1.
  rewrite append_nil_r in T1.
  rewrite T1, (trimObjectPath_name n "/" Hn (or_intror eq_refl)).
  repeat split.
Qed.

(** X9. A path that ends with a name, followed or not by one separator, is
    hidden exactly when the name starts with the hidden prefix; its
    trimmed object name is the name. *)
Theorem isHidden_of_name (d n : string) :
  isDirectoryPrefix d -> isName n ->
  (getTrimmedObjectName (d ++ n) = n /\ getTrimmedObjectName (d ++ n ++ "/") = n) /\
  isHidden (d ++ n) = Js.startsWith n AwsSimpleStorageServiceHiddenPrefix /\
  isHidden (d ++ n ++ "/") = Js.startsWith n AwsSimpleStorageServiceHiddenPrefix.
Proof. exact (isHidden_name_end d n). Qed.

Lemma isName_hidden (n : string) :
  isName n -> isName (AwsSimpleStorageServiceHiddenPrefix ++ n).
Proof.
  intros (((Hn0 & Hfree) & Hn1 & Hn2) & Hback & Hs & He).
  unfold AwsSimpleStorageServiceHiddenPrefix. repeat split; try discriminate.
  - simpl. exact Hfree.
  - simpl. exact Hback.
  - change (Js.trimEnd (("_." ++ n)) = "_." ++ n).
    rewrite trimEnd_append; [now rewrite He|]. rewrite He. exact Hn0.
Qed.

(** X10. [generateHiddenName] does not change whether a name is hidden: the
    name it returns for a name of a path is hidden exactly when the name
    given was. *)
Theorem isHidden_generateHiddenName (d n : string) :
  isDirectoryPrefix d -> isName n ->
  isHidden (d ++ generateHiddenName n) = isHidden (d ++ n).
Proof.
  intros Hd Hn.
  destruct (isHidden_name_end d n Hd Hn) as (_ & -> & _).
  unfold generateHiddenName.
  destruct (Js.startsWith n AwsSimpleStorageServiceHiddenPrefix) eqn:E.
  - destruct (isHidden_name_end d _ Hd (isName_hidden n Hn)) as (_ & -> & _). reflexivity.
  - destruct (isHidden_name_end d n Hd Hn) as (_ & -> & _). exact E.
Qed.

(* ================================================================== *)
(** * What the methods send *)
(* ================================================================== *)

Section SendsOnly.

Context {St : Type}.

Lemma sendsOnly_ret {A} (P : Command -> bool) (a : A) : sendsOnly P (@ret St A a).
Proof. intros w. exists []. simpl. now rewrite app_nil_r. Qed.

Lemma sendsOnly_throw {A} (P : Command -> bool) (e : Error) : sendsOnly P (@throw St A e).
Proof. intros w. exists []. simpl. now rewrite app_nil_r. Qed.

Lemma sendsOnly_outOfFuel {A} (P : Command -> bool) : sendsOnly P (@outOfFuel St A).
Proof. intros w. exists []. simpl. now rewrite app_nil_r. Qed.

Lemma sendsOnly_send {A} (P : Command -> bool) (c : Command)
      (f : St -> Response A * St) :
  P c = true -> sendsOnly P (send c f).
Proof.
  intros Hc w. exists [c]. unfold send.
  destruct (f (store w)) as [[a|e] s]; simpl; now rewrite Hc.
Qed.

Lemma sendsOnly_bind {A B} (P : Command -> bool) (m : Async St A) (k : A -> Async St B) :
  sendsOnly P m -> (forall a, sendsOnly P (k a)) -> sendsOnly P (bind m k).
Proof.
  intros Hm Hk w. unfold bind. destruct (Hm w) as (cs1 & E1 & H1).
  destruct (m w) as [[a|e|] w1]; simpl in E1.
  - destruct (Hk a w1) as (cs2 & E2 & H2). exists (cs1 ++ cs2)%list.
    rewrite E2, E1, app_assoc, forallb_app, H1, H2. now split.
  - now exists cs1.
  - now exists cs1.
Qed.

Lemma sendsOnly_tryCatch {A} (P : Command -> bool) (m : Async St A)
      (h : Error -> Async St A) :
  sendsOnly P m -> (forall e, sendsOnly P (h e)) -> sendsOnly P (tryCatch m h).
Proof.
  intros Hm Hh w. unfold tryCatch. destruct (Hm w) as (cs1 & E1 & H1).
  destruct (m w) as [[a|e|] w1]; simpl in E1.
  - now exists cs1.
  - destruct (Hh e w1) as (cs2 & E2 & H2). exists (cs1 ++ cs2)%list.
    rewrite E2, E1, app_assoc, forallb_app, H1, H2. now split.
  - now exists cs1.
Qed.

Lemma sendsOnly_forOf {A B} (P : Command -> bool) (xs : list A) (f : B -> A -> Async St B) :
  (forall acc x, sendsOnly P (f acc x)) -> forall acc, sendsOnly P (forOf xs acc f).
Proof.
  intros Hf. induction xs as [|x xs IH]; intros acc; simpl.
  - apply sendsOnly_ret.
  - apply sendsOnly_bind; auto.
Qed.

Lemma sendsOnly_impl {A} (P Q : Command -> bool) (m : Async St A) :
  (forall c, P c = true -> Q c = true) -> sendsOnly P m -> sendsOnly Q m.
Proof.
  intros HPQ Hm w. destruct (Hm w) as (cs & E & H). exists cs. split; [assumption|].
  rewrite forallb_forall in *. auto.
Qed.

Variable client : S3 St.
Variable configuration : IAwsSimpleStorageServiceConfiguration.

(** The tests on commands, together with the bucket of the configuration. *)
Let here (P : Command -> bool) (c : Command) : bool :=
  inBucket (bucket configuration) c && P c.

Lemma inBucket_refl (c : Command) : bucketOf c = bucket configuration ->
  inBucket (bucket configuration) c = true.
Proof. intros H. unfold inBucket. rewrite H. apply String.eqb_refl. Qed.

Lemma headObjectAsync_sends (p : string) :
  sendsOnly (here isHeadCommand) (headObjectAsync client configuration p).
Proof.
  apply sendsOnly_send. unfold here. now rewrite inBucket_refl.
Qed.

Lemma objectExistsAsync_sends (p : string) :
  sendsOnly (here isHeadCommand) (objectExistsAsync client configuration p).
Proof.
  unfold objectExistsAsync. apply sendsOnly_tryCatch.
  - apply sendsOnly_bind; [apply headObjectAsync_sends|]. intros _. apply sendsOnly_ret.
  - intros e. destruct (name e =? "NotFound")%string;
      [apply sendsOnly_ret|apply sendsOnly_throw].
Qed.

Lemma listCommand_delimited (directoryPath token : option string) :
  here isDelimitedListCommand (listCommand configuration directoryPath token) = true.
Proof.
  unfold here, listCommand. rewrite inBucket_refl by reflexivity. cbn [andb].
  set (n := normalizePath _ (Some true)).
  destruct (directory_key_ends
              (match directoryPath with Some d => d | None => "/" end) (Some true) eq_refl)
    as [Hend Hne].
  fold n in Hend, Hne. unfold Js.truthy.
  destruct (String.eqb_spec (path n) ""); [congruence|]. cbn [negb isDelimitedListCommand].
  now rewrite Hend.
Qed.

Lemma listObjectsAsync_sends (fuel : nat) :
  forall directoryPath token,
    sendsOnly (here isDelimitedListCommand)
              (listObjectsAsync client configuration fuel directoryPath token).
Proof.
  induction fuel as [|fuel IH]; intros dir tok; cbn [listObjectsAsync].
  - apply sendsOnly_outOfFuel.
  - apply sendsOnly_bind.
    + apply sendsOnly_send. apply (listCommand_delimited dir tok).
    + intros request. destruct (isTrue (IsTruncated request)); [|apply sendsOnly_ret].
      apply sendsOnly_bind; [apply IH|]. intros second. apply sendsOnly_ret.
Qed.

Lemma here_impl (P Q : Command -> bool) :
  (forall c, P c = true -> Q c = true) -> forall c, here P c = true -> here Q c = true.
Proof.
  intros H c. unfold here. intros Hc. apply andb_true_iff in Hc as [-> Hc].
  now rewrite (H c Hc).
Qed.

Lemma directoryExistsAsync_sends (fuel : nat) (p : string) :
  sendsOnly (here isProbeCommand) (directoryExistsAsync client configuration fuel p).
Proof.
  unfold directoryExistsAsync. apply sendsOnly_bind.
  - eapply sendsOnly_impl; [|apply objectExistsAsync_sends].
    apply here_impl. now intros [].
  - intros [|]; [apply sendsOnly_ret|]. apply sendsOnly_tryCatch.
    + apply sendsOnly_bind; [|intros; apply sendsOnly_ret].
      eapply sendsOnly_impl; [|apply listObjectsAsync_sends].
      apply here_impl. now intros [].
    + intros e. destruct (name e =? "NotFound")%string;
        [apply sendsOnly_ret|apply sendsOnly_throw].
Qed.

Lemma getObjectAsync_sends (P : Command -> bool) (p : string) (s e : option Number) :
  (forall b k r, P (GetObjectCommand b k r) = true) ->
  sendsOnly (here P) (getObjectAsync client configuration p s e).
Proof.
  intros HP. apply sendsOnly_send. unfold here.
  now rewrite inBucket_refl, HP.
Qed.

Lemma putObjectAsync_sends (P : Command -> bool) (p : string) (content : option Body) :
  (forall a body b k sse kms, P (PutObjectCommand a body b k sse kms) = true) ->
  sendsOnly (here P) (putObjectAsync client configuration p content).
Proof.
  intros HP. apply sendsOnly_send. unfold here.
  now rewrite inBucket_refl, HP.
Qed.

(** The three methods that delete send list and delete commands only. *)
Lemma delete_sends (fuel : nat) :
  (forall p, sendsOnly (here isListOrDeleteCommand)
                       (deleteDirectoryAsync client configuration fuel p)) /\
  (forall k, sendsOnly (here isListOrDeleteCommand)
                       (deleteObjectAsync client configuration fuel k)) /\
  (forall k, sendsOnly (here isListOrDeleteCommand)
                       (deleteObjectsAsync client configuration fuel k)).
Proof.
  induction fuel as [|fuel (IHdir & IHone & IHmany)].
  - repeat split; intros; apply sendsOnly_outOfFuel.
  - assert (Hdelete : forall k,
               sendsOnly (here isListOrDeleteCommand)
                 (bind (send (DeleteObjectCommand (bucket configuration) k)
                             (sendDeleteObject client (bucket configuration) k))
                       (fun o => @ret St _ (Some (OneDeleted o))))).
    { intros k. apply sendsOnly_bind; [|intros; apply sendsOnly_ret].
      apply sendsOnly_send. unfold here. now rewrite inBucket_refl. }
    repeat split.
    + intros p. cbn [deleteDirectoryAsync].
      destruct (negb _); [apply sendsOnly_throw|].
      apply sendsOnly_bind.
      * eapply sendsOnly_impl; [|apply listObjectsAsync_sends].
        apply here_impl. now intros [].
      * intros data. destruct (_ =? 0); [apply sendsOnly_ret|].
        apply sendsOnly_bind.
        -- apply sendsOnly_forOf. intros [] prefix.
           destruct (truthyKey (Prefix prefix)); [|apply sendsOnly_ret].
           apply sendsOnly_bind; [apply IHdir|intros; apply sendsOnly_ret].
        -- intros _. apply sendsOnly_bind; [apply IHmany|]. intros _. apply Hdelete.
    + intros [k|ks]; cbn [deleteObjectAsync]; [|apply IHmany].
      destruct (directory _); [apply IHdir|apply Hdelete].
    + intros [k|ks]; cbn [deleteObjectsAsync].
      * destruct (_ =? 0); [apply sendsOnly_ret|apply IHone].
      * destruct (_ =? 0); [apply sendsOnly_ret|].
        apply sendsOnly_bind; [|intros; apply sendsOnly_ret].
        apply sendsOnly_send. unfold here. now rewrite inBucket_refl.
Qed.

Lemma copyObjectAsync_sends (fuel : nat) (src dst : string) (del : option bool) :
  sendsOnly (here (isCopyCommand del)) (copyObjectAsync client configuration fuel src dst del).
Proof.
  unfold copyObjectAsync. apply sendsOnly_bind.
  - apply getObjectAsync_sends. intros. unfold isCopyCommand. apply orb_true_r.
  - intros cur. apply sendsOnly_bind.
    + apply putObjectAsync_sends. intros. unfold isCopyCommand. apply orb_true_r.
    + intros new. apply sendsOnly_bind; [|intros; apply sendsOnly_ret].
      destruct (isTrue del) eqn:E; [|apply sendsOnly_ret].
      apply sendsOnly_bind; [|intros; apply sendsOnly_ret].
      eapply sendsOnly_impl; [|apply (proj1 (proj2 (delete_sends fuel)))].
      apply here_impl. intros c _. unfold isCopyCommand. now rewrite E.
Qed.

Lemma copyDirectoryAsync_sends (fuel : nat) :
  forall src dst del,
    sendsOnly (here (isCopyCommand del))
              (copyDirectoryAsync client configuration fuel src dst del).
Proof.
  induction fuel as [|fuel IH]; intros src dst del; cbn [copyDirectoryAsync].
  - apply sendsOnly_outOfFuel.
  - assert (Hprobe : forall p,
               sendsOnly (here (isCopyCommand del))
                         (directoryExistsAsync client configuration fuel p)).
    { intros p. eapply sendsOnly_impl; [|apply directoryExistsAsync_sends].
      apply here_impl. intros [] H; try discriminate; unfold isCopyCommand;
        apply orb_true_r. }
    apply sendsOnly_bind; [apply Hprobe|].
    intros found. destruct (negb found); [apply sendsOnly_throw|].
    apply sendsOnly_bind.
    { eapply sendsOnly_impl; [|apply listObjectsAsync_sends].
      apply here_impl. intros [] H; try discriminate; unfold isCopyCommand;
        apply orb_true_r. }
    intros data. apply sendsOnly_bind.
    { apply sendsOnly_forOf. intros acc object.
      destruct (truthyKey (Key object)); [|apply sendsOnly_ret].
      apply sendsOnly_bind; [apply copyObjectAsync_sends|intros; apply sendsOnly_ret]. }
    intros response. apply sendsOnly_bind.
    { apply sendsOnly_forOf. intros acc sub.
      destruct (truthyKey (Prefix sub)); [|apply sendsOnly_ret].
      apply sendsOnly_bind; [apply IH|intros; apply sendsOnly_ret]. }
    intros response'. apply sendsOnly_bind; [|intros; apply sendsOnly_ret].
    destruct (isTrue del) eqn:E; [|apply sendsOnly_ret].
    apply sendsOnly_bind; [apply Hprobe|].
    intros [|]; [|apply sendsOnly_ret].
    apply sendsOnly_bind; [|intros; apply sendsOnly_ret].
    eapply sendsOnly_impl; [|apply (proj1 (delete_sends fuel))].
    apply here_impl. intros c _. unfold isCopyCommand. now rewrite E.
Qed.

(** X11. Every listing is delimited: whatever the directory, [listObjectsAsync]
    sends list commands only, each with the delimiter ["/"] and a prefix
    that ends with ["/"].  The prefix is never empty, so no listing is
    sent without delimiter. *)
Theorem listObjectsAsync_always_delimited
        (fuel : nat) (directoryPath token : option string) :
  sendsOnly isDelimitedListCommand
            (listObjectsAsync client configuration fuel directoryPath token).
Proof.
  eapply sendsOnly_impl; [|apply listObjectsAsync_sends].
  intros c H. unfold here in H. now apply andb_true_iff in H.
Qed.

(** X12. A copy that is not asked to delete the original sends no delete
    command, whatever the store answers and however deep the tree. *)
Theorem copyDirectoryAsync_without_delete
        (fuel : nat) (src dst : string) (deleteOriginal : option bool) :
  isTrue deleteOriginal = false ->
  sendsOnly (fun c => negb (isDeleteCommand c))
            (copyDirectoryAsync client configuration fuel src dst deleteOriginal).
Proof.
  intros E. eapply sendsOnly_impl; [|apply copyDirectoryAsync_sends].
  intros c H. unfold here, isCopyCommand in H. rewrite E in H.
  now apply andb_true_iff in H.
Qed.

(** X13. The methods that delete never read or write an object: a directory
    or key deletion sends list and delete commands only. *)
Theorem deleteObjectAsync_lists_and_deletes (fuel : nat) (objectPath : Keys) :
  sendsOnly isListOrDeleteCommand (deleteObjectAsync client configuration fuel objectPath).
Proof.
  eapply sendsOnly_impl; [|apply (proj1 (proj2 (delete_sends fuel)))].
  intros c H. unfold here in H. now apply andb_true_iff in H.
Qed.

(** X14. Every command that a copy or a move of a directory sends, down to the
    deletions, names the bucket of the configuration. *)
Theorem copyDirectoryAsync_in_bucket
        (fuel : nat) (src dst : string) (deleteOriginal : option bool) :
  sendsOnly (inBucket (bucket configuration))
            (copyDirectoryAsync client configuration fuel src dst deleteOriginal).
Proof.
  eapply sendsOnly_impl; [|apply copyDirectoryAsync_sends].
  intros c H. unfold here in H. now apply andb_true_iff in H.
Qed.

End SendsOnly.

(* ================================================================== *)
(** * Existence probes *)
(* ================================================================== *)

Section Probes.

Context {St : Type}.
Variable client : S3 St.
Variable configuration : IAwsSimpleStorageServiceConfiguration.

Lemma objectExistsAsync_run (objectPath : string) (w : World St) :
  objectExistsAsync client configuration objectPath w =
  (match fst (sendHeadObject client (bucket configuration) (keyOf objectPath) (store w)) with
   | Fulfilled _ => Return true
   | Rejected e => if (name e =? "NotFound")%string then Return false else Throw e
   end,
   mkWorld (snd (sendHeadObject client (bucket configuration) (keyOf objectPath) (store w)))
           (log w ++ [HeadObjectCommand (bucket configuration) (keyOf objectPath)])%list).
Proof.
  unfold objectExistsAsync, headObjectAsync, tryCatch, bind, send, ret, throw.
  fold (keyOf objectPath).
  destruct (sendHeadObject _ _ _ _) as [[h|e] s]; cbn [fst snd]; [reflexivity|].
  destruct (name e =? "NotFound")%string; reflexivity.
Qed.

(** X15. [objectExistsAsync] sends one head command, for the key of the path.
    It returns [true] when the store answers, [false] when the store
    rejects the command with an error named [NotFound], and throws any
    other error of the store as it is. *)
Theorem objectExistsAsync_outcome (objectPath : string) (w : World St) :
  objectExistsAsync client configuration objectPath w =
  (match fst (sendHeadObject client (bucket configuration) (keyOf objectPath) (store w)) with
   | Fulfilled _ => Return true
   | Rejected e => if (name e =? "NotFound")%string then Return false else Throw e
   end,
   mkWorld (snd (sendHeadObject client (bucket configuration) (keyOf objectPath) (store w)))
           (log w ++ [HeadObjectCommand (bucket configuration) (keyOf objectPath)])%list).
Proof. exact (objectExistsAsync_run objectPath w). Qed.

(** The path that [directoryExistsAsync] probes: its test for a missing
    final separator never fires. *)
Lemma directory_probe_path (objectPath : string) :
  (if Js.endsWith (path (normalizePath objectPath (Some true))) "/"
   then path (normalizePath objectPath (Some true))
   else path (normalizePath objectPath (Some true)) ++ "/")
  = path (normalizePath objectPath (Some true)).
Proof.
  destruct (directory_key_ends objectPath (Some true) eq_refl) as [-> _].
  reflexivity.
Qed.

Lemma directoryExistsAsync_marker_run
        (fuel : nat) (objectPath : string) (w : World St)
        (marker : HeadObjectCommandOutput) (s : St) :
  sendHeadObject client (bucket configuration)
                 (keyOf (path (normalizePath objectPath (Some true)))) (store w)
  = (Fulfilled marker, s) ->
  directoryExistsAsync client configuration fuel objectPath w =
  (Return true,
   mkWorld s (log w ++ [HeadObjectCommand (bucket configuration)
                          (keyOf (path (normalizePath objectPath (Some true))))])%list).
Proof.
  intros Hhead. unfold directoryExistsAsync. rewrite directory_probe_path.
  unfold bind at 1. rewrite objectExistsAsync_run, Hhead. reflexivity.
Qed.

(** X16. When the store holds an object under the key of the directory (its
    marker), [directoryExistsAsync] returns [true] after the head command:
    it does not list. *)
Theorem directoryExistsAsync_marker
        (fuel : nat) (objectPath : string) (w : World St)
        (marker : HeadObjectCommandOutput) (s : St) :
  sendHeadObject client (bucket configuration)
                 (keyOf (path (normalizePath objectPath (Some true)))) (store w)
  = (Fulfilled marker, s) ->
  directoryExistsAsync client configuration fuel objectPath w =
  (Return true,
   mkWorld s (log w ++ [HeadObjectCommand (bucket configuration)
                          (keyOf (path (normalizePath objectPath (Some true))))])%list).
Proof. exact (directoryExistsAsync_marker_run fuel objectPath w marker s). Qed.

Lemma directoryExistsAsync_listing_run
        (fuel : nat) (objectPath : string) (w : World St) (e : Error) (s : St) :
  sendHeadObject client (bucket configuration)
                 (keyOf (path (normalizePath objectPath (Some true)))) (store w)
  = (Rejected e, s) ->
  name e = "NotFound" ->
  directoryExistsAsync client configuration fuel objectPath w =
  match listObjectsAsync client configuration fuel
          (Some (path (normalizePath objectPath (Some true)))) None
          (mkWorld s (log w ++ [HeadObjectCommand (bucket configuration)
                                  (keyOf (path (normalizePath objectPath (Some true))))])%list)
  with
  | (Return contents, w') =>
      (Return ((0 <? List.length (orEmpty (Contents contents)))
               || (0 <? List.length (orEmpty (CommonPrefixes contents)))), w')
  | (Throw e', w') =>
      (if (name e' =? "NotFound")%string then Return false else Throw e', w')
  | (OutOfFuel, w') => (OutOfFuel, w')
  end.
Proof.
  intros Hhead Hname. unfold directoryExistsAsync. rewrite directory_probe_path.
  unfold bind at 1. rewrite objectExistsAsync_run, Hhead. cbn [fst snd].
  rewrite Hname. cbn [String.eqb Ascii.eqb Bool.eqb andb].
  unfold tryCatch, bind.
  destruct (listObjectsAsync _ _ _ _ _ _) as [[contents|e'|] w']; try reflexivity.
  destruct (name e' =? "NotFound")%string; reflexivity.
Qed.

(** X17. Without marker, the answer is that of one listing of the directory:
    [true] when it reports an object or a common prefix, [false] when it
    reports neither or when the listing fails with [NotFound]; any other
    error of the listing is thrown. *)
Theorem directoryExistsAsync_listing
        (fuel : nat) (objectPath : string) (w : World St) (e : Error) (s : St) :
  sendHeadObject client (bucket configuration)
                 (keyOf (path (normalizePath objectPath (Some true)))) (store w)
  = (Rejected e, s) ->
  name e = "NotFound" ->
  directoryExistsAsync client configuration fuel objectPath w =
  match listObjectsAsync client configuration fuel
          (Some (path (normalizePath objectPath (Some true)))) None
          (mkWorld s (log w ++ [HeadObjectCommand (bucket configuration)
                                  (keyOf (path (normalizePath objectPath (Some true))))])%list)
  with
  | (Return contents, w') =>
      (Return ((0 <? List.length (orEmpty (Contents contents)))
               || (0 <? List.length (orEmpty (CommonPrefixes contents)))), w')
  | (Throw e', w') =>
      (if (name e' =? "NotFound")%string then Return false else Throw e', w')
  | (OutOfFuel, w') => (OutOfFuel, w')
  end.
Proof. exact (directoryExistsAsync_listing_run fuel objectPath w e s). Qed.

(** X18. The probes never fail with [NotFound], and they only send head and
    list commands. *)
Theorem directoryExistsAsync_never_NotFound
        (fuel : nat) (objectPath : string) (w w' : World St) (e : Error) :
  directoryExistsAsync client configuration fuel objectPath w = (Throw e, w') ->
  name e <> "NotFound" /\
  exists cs, log w' = (log w ++ cs)%list /\ List.forallb isProbeCommand cs = true.
Proof.
  intros Hrun. split.
  - revert Hrun. unfold directoryExistsAsync. rewrite directory_probe_path.
    unfold bind at 1. rewrite objectExistsAsync_run.
    destruct (fst (sendHeadObject _ _ _ _)) as [h|e0].
    + unfold ret. intros H. discriminate.
    + destruct (String.eqb_spec (name e0) "NotFound") as [E0|N0].
      * unfold tryCatch, bind.
        destruct (listObjectsAsync _ _ _ _ _ _) as [[contents|e'|] w2];
          try (unfold ret; intros H; discriminate).
        destruct (String.eqb_spec (name e') "NotFound").
        -- unfold ret. intros H. discriminate.
        -- unfold throw. intros H. injection H as <- _. assumption.
      * intros H. injection H as <- _. assumption.
  - destruct (directoryExistsAsync_sends client configuration fuel objectPath w)
      as (cs & E & H).
    rewrite Hrun in E. exists cs. split; [exact E|].
    rewrite forallb_forall in *. intros c Hc. specialize (H c Hc).
    now apply andb_true_iff in H.
Qed.

End Probes.

(* ================================================================== *)
(** * Copies *)
(* ================================================================== *)

Section Copies.

Context {St : Type}.
Variable client : S3 St.
Variable configuration : IAwsSimpleStorageServiceConfiguration.

(** X19. When the get of the source fails, [copyObjectAsync] throws the error
    of the store and has sent the get only: nothing is written and
    nothing is deleted, whatever [deleteOriginal] says. *)
Theorem copyObjectAsync_source_missing
        (fuel : nat) (src dst : string) (deleteOriginal : option bool)
        (w : World St) (e : Error) (s : St) :
  sendGetObject client (bucket configuration) (keyOf src) None (store w) = (Rejected e, s) ->
  copyObjectAsync client configuration fuel src dst deleteOriginal w =
  (Throw e, mkWorld s (log w ++ [GetObjectCommand (bucket configuration) (keyOf src) None])%list).
Proof.
  intros Hget. unfold copyObjectAsync, getObjectAsync.
  unfold bind at 1. unfold send at 1. cbn [truthyNumber].
  fold (keyOf src). rewrite Hget. reflexivity.
Qed.

Lemma copyObjectAsync_get_put
        (fuel : nat) (src dst : string) (deleteOriginal : option bool) (w : World St)
        (currentObject : GetObjectCommandOutput) (s1 : St) :
  let kms := truthyKey (keyManagementServiceKeyId configuration) in
  let sse := match kms with Some _ => Some "aws:kms" | None => None end in
  let body := match GetBody currentObject with
              | Some c => BodyContent c
              | None => BodyIsoDate
              end in
  isTrue deleteOriginal = false ->
  sendGetObject client (bucket configuration) (keyOf src) None (store w)
    = (Fulfilled currentObject, s1) ->
  copyObjectAsync client configuration fuel src dst deleteOriginal w =
  (match fst (sendPutObject client "private" body (bucket configuration) (keyOf dst)
                            sse kms s1) with
   | Fulfilled newObject => Return newObject
   | Rejected e => Throw e
   end,
   mkWorld (snd (sendPutObject client "private" body (bucket configuration) (keyOf dst)
                               sse kms s1))
           (log w ++ [GetObjectCommand (bucket configuration) (keyOf src) None;
                      PutObjectCommand "private" body (bucket configuration) (keyOf dst)
                                       sse kms])%list).
Proof.
  intros kms sse body Hdel Hget.
  unfold copyObjectAsync, getObjectAsync, putObjectAsync.
  unfold bind at 1. unfold send at 1. cbn [truthyNumber].
  fold (keyOf src). rewrite Hget.
  unfold bind at 1. unfold send at 1. cbn [store log].
  fold (keyOf dst). fold kms. fold sse. fold body. rewrite Hdel.
  destruct (sendPutObject _ _ _ _ _ _ _ _) as [[newObject|e] s2]; cbn [fst snd];
    unfold bind, ret; rewrite <- !app_assoc; reflexivity.
Qed.

(** X20. Without [deleteOriginal], a copy whose get succeeds sends the get and
    the put and nothing else, and returns or throws what the put does. *)
Theorem copyObjectAsync_without_delete
        (fuel : nat) (src dst : string) (deleteOriginal : option bool) (w : World St)
        (currentObject : GetObjectCommandOutput) (s1 : St) :
  let kms := truthyKey (keyManagementServiceKeyId configuration) in
  let sse := match kms with Some _ => Some "aws:kms" | None => None end in
  let body := match GetBody currentObject with
              | Some c => BodyContent c
              | None => BodyIsoDate
              end in
  isTrue deleteOriginal = false ->
  sendGetObject client (bucket configuration) (keyOf src) None (store w)
    = (Fulfilled currentObject, s1) ->
  copyObjectAsync client configuration fuel src dst deleteOriginal w =
  (match fst (sendPutObject client "private" body (bucket configuration) (keyOf dst)
                            sse kms s1) with
   | Fulfilled newObject => Return newObject
   | Rejected e => Throw e
   end,
   mkWorld (snd (sendPutObject client "private" body (bucket configuration) (keyOf dst)
                               sse kms s1))
           (log w ++ [GetObjectCommand (bucket configuration) (keyOf src) None;
                      PutObjectCommand "private" body (bucket configuration) (keyOf dst)
                                       sse kms])%list).
Proof. exact (copyObjectAsync_get_put fuel src dst deleteOriginal w currentObject s1). Qed.

(** X21. When the put fails, the destination is not deleted, even with
    [deleteOriginal]: the error is thrown after the get and the put. *)
Theorem copyObjectAsync_put_failed
        (fuel : nat) (src dst : string) (deleteOriginal : option bool) (w : World St)
        (currentObject : GetObjectCommandOutput) (e : Error) (s1 s2 : St) :
  let kms := truthyKey (keyManagementServiceKeyId configuration) in
  let sse := match kms with Some _ => Some "aws:kms" | None => None end in
  let body := match GetBody currentObject with
              | Some c => BodyContent c
              | None => BodyIsoDate
              end in
  sendGetObject client (bucket configuration) (keyOf src) None (store w)
    = (Fulfilled currentObject, s1) ->
  sendPutObject client "private" body (bucket configuration) (keyOf dst) sse kms s1
    = (Rejected e, s2) ->
  copyObjectAsync client configuration fuel src dst deleteOriginal w =
  (Throw e,
   mkWorld s2
           (log w ++ [GetObjectCommand (bucket configuration) (keyOf src) None;
                      PutObjectCommand "private" body (bucket configuration) (keyOf dst)
                                       sse kms])%list).
Proof.
  intros kms sse body Hget Hput.
  unfold copyObjectAsync, getObjectAsync, putObjectAsync.
  unfold bind at 1. unfold send at 1. cbn [truthyNumber].
  fold (keyOf src). rewrite Hget.
  unfold bind at 1. unfold send at 1. cbn [store log].
  fold (keyOf dst). fold kms. fold sse. fold body. rewrite Hput.
  rewrite <- !app_assoc. reflexivity.
Qed.

(** X22. When the source directory does not exist, [copyDirectoryAsync] throws
    [Object Directory Not Found] right after the probe: it has sent head
    and list commands only. *)
Theorem copyDirectoryAsync_source_missing
        (fuel : nat) (src dst : string) (deleteOriginal : option bool) (w w' : World St) :
  directoryExistsAsync client configuration fuel (path (normalizePath src (Some true))) w
    = (Return false, w') ->
  copyDirectoryAsync client configuration (S fuel) src dst deleteOriginal w
    = (Throw (mkError "Error" "Object Directory Not Found"), w') /\
  exists cs, log w' = (log w ++ cs)%list /\ List.forallb isProbeCommand cs = true.
Proof.
  intros Hprobe. split.
  - cbn [copyDirectoryAsync]. unfold bind at 1. rewrite Hprobe. reflexivity.
  - destruct (directoryExistsAsync_sends client configuration fuel
                (path (normalizePath src (Some true))) w) as (cs & E & H).
    rewrite Hprobe in E. exists cs. split; [exact E|].
    rewrite forallb_forall in *. intros c Hc. specialize (H c Hc).
    now apply andb_true_iff in H.
Qed.

End Copies.

(* ================================================================== *)
(** * Pages *)
(* ================================================================== *)

(** X23. The common prefixes of the pages after the first are dropped: the
    listing returned carries those of the first page only. *)
Theorem listObjectsAsync_drops_later_prefixes
        (configuration : IAwsSimpleStorageServiceConfiguration)
        (directoryPath token : option string)
        (pages : list ListObjectsV2CommandOutput) (last : ListObjectsV2CommandOutput)
        (fuel : nat) :
  List.Forall (fun p => IsTruncated p = Some true) pages ->
  IsTruncated last <> Some true ->
  List.length pages < fuel ->
  exists result w',
    listObjectsAsync ScriptedStore.client configuration fuel directoryPath token
      (mkWorld (pages ++ [last])%list []) = (Return result, w') /\
    CommonPrefixes result = CommonPrefixes (List.hd last pages).
Proof.
  intros Htrunc Hlast Hfuel.
  eexists _, _. split; [apply listObjectsAsync_scripted; assumption|].
  destruct pages; reflexivity.
Qed.

(** X24. One list command is sent per page, and the command for a page after
    the first carries, as its token, the [ContinuationToken] field of the
    page before. *)
Theorem listObjectsAsync_tokens
        (configuration : IAwsSimpleStorageServiceConfiguration)
        (directoryPath token : option string)
        (pages : list ListObjectsV2CommandOutput) (last : ListObjectsV2CommandOutput)
        (fuel : nat) :
  List.Forall (fun p => IsTruncated p = Some true) pages ->
  IsTruncated last <> Some true ->
  List.length pages < fuel ->
  log (snd (listObjectsAsync ScriptedStore.client configuration fuel directoryPath token
              (mkWorld (pages ++ [last])%list [])))
  = List.map (listCommand configuration directoryPath)
             (token :: List.map ContinuationToken pages).
Proof.
  intros Htrunc Hlast Hfuel.
  rewrite listObjectsAsync_scripted by assumption. reflexivity.
Qed.

(** X25. A page that the store rejects ends the listing: the error is thrown
    and the pages read so far are not returned. *)
Theorem listObjectsAsync_page_rejected
        (configuration : IAwsSimpleStorageServiceConfiguration)
        (directoryPath : option string)
        (pages : list ListObjectsV2CommandOutput) :
  forall (token : option string) (fuel : nat) (l : list Command),
    List.Forall (fun p => IsTruncated p = Some true) pages ->
    List.length pages < fuel ->
    fst (listObjectsAsync ScriptedStore.client configuration fuel directoryPath token
           (mkWorld pages l))
    = Throw (mkError "NoSuchKey" "end of script").
Proof.
  induction pages as [|p pages IH]; intros token fuel l Htrunc Hfuel;
    (destruct fuel as [|fuel]; [inversion Hfuel|]).
  - reflexivity.
  - inversion Htrunc as [|? ? Hp Hps]; subst.
    cbn [listObjectsAsync]. unfold bind at 1. unfold send. simpl.
    rewrite Hp. cbn [isTrue]. unfold bind.
    assert (Hf : List.length pages < fuel) by (simpl in Hfuel; lia).
    specialize (IH (ContinuationToken p) fuel
                   (l ++ [listCommand configuration directoryPath token])%list Hps Hf).
    unfold listCommand in IH.
    destruct (listObjectsAsync _ _ fuel _ _ _) as [[r|e|] w2]; simpl in *; congruence.
Qed.

(* ================================================================== *)
(** * Destination keys of a directory copy *)
(* ================================================================== *)

Lemma startsWith_append (a b : string) : Js.startsWith (a ++ b) a = true.
Proof. induction a as [|c a IH]; simpl; [reflexivity|]. now rewrite Ascii.eqb_refl. Qed.

Lemma sliceFrom_append (a b : string) : sliceFrom (String.length a) (a ++ b) = b.
Proof. induction a as [|c a IH]; simpl; [now destruct b|exact IH]. Qed.

Lemma getSubstitution_notDollar (matched before after replacement : string) :
  allChars notDollar replacement = true ->
  getSubstitution matched before after replacement = replacement.
Proof.
  induction replacement as [|c r IH]; [reflexivity|]. simpl. intros H.
  apply andb_true_iff in H as [Hc H]. unfold notDollar in Hc.
  destruct (Ascii.eqb c "$"); [discriminate|]. now rewrite IH.
Qed.

(** X26. The key under the destination for a key under the source: when the
    destination prefix holds no [$], the source prefix at the start of
    the key is replaced by the destination prefix and the rest of the key
    is kept, even if the source prefix occurs again in it. *)
Theorem replace_source_prefix (sourcePrefix destinationPrefix rest : string) :
  allChars notDollar destinationPrefix = true ->
  replace (sourcePrefix ++ rest) sourcePrefix destinationPrefix = destinationPrefix ++ rest.
Proof.
  intros H. unfold replace.
  destruct (sourcePrefix ++ rest) eqn:E.
  - destruct sourcePrefix; [|discriminate]. simpl in E. subst. simpl.
    rewrite getSubstitution_notDollar by assumption. reflexivity.
  - rewrite <- E. 
    assert (Hsplit : splitAtFirst sourcePrefix (sourcePrefix ++ rest) = Some ("", rest)).
    { rewrite E. cbn [splitAtFirst]. rewrite <- E.
      now rewrite startsWith_append, sliceFrom_append. }
    rewrite Hsplit, getSubstitution_notDollar by assumption. reflexivity.
Qed.

Lemma replace_source_prefix_witness :
  replace ("src/" ++ "sub/src/b.txt") "src/" "dst/" = "dst/" ++ "sub/src/b.txt".
Proof. apply replace_source_prefix. reflexivity. Defined.

(* ================================================================== *)
(** * Copies and moves in the in-memory bucket *)
(* ================================================================== *)

Lemma get_put_same (k : string) (b : Body) (s : MemoryStore.Objects) :
  MemoryStore.get k (MemoryStore.put k b s) = Some b.
Proof.
  induction s as [|[k' b'] s IH]; simpl.
  - now rewrite String.eqb_refl.
  - destruct (String.eqb_spec k' k); simpl.
    + now rewrite String.eqb_refl.
    + destruct (String.eqb_spec k' k); [congruence|exact IH].
Qed.

Lemma get_put_other (k k' : string) (b : Body) (s : MemoryStore.Objects) :
  k' <> k -> MemoryStore.get k' (MemoryStore.put k b s) = MemoryStore.get k' s.
Proof.
  intros Hk. induction s as [|[k0 b0] s IH]; simpl.
  - destruct (String.eqb_spec k k'); [congruence|reflexivity].
  - destruct (String.eqb_spec k0 k); simpl.
    + subst. destruct (String.eqb_spec k k'); [congruence|reflexivity].
    + destruct (String.eqb_spec k0 k'); [reflexivity|exact IH].
Qed.

Lemma get_remove_same (k : string) (s : MemoryStore.Objects) :
  MemoryStore.get k (MemoryStore.remove k s) = None.
Proof.
  unfold MemoryStore.remove. induction s as [|[k' b'] s IH]; simpl; [reflexivity|].
  destruct (String.eqb_spec k' k); simpl; [exact IH|].
  destruct (String.eqb_spec k' k); [congruence|exact IH].
Qed.

Lemma get_remove_other (k k' : string) (s : MemoryStore.Objects) :
  k' <> k -> MemoryStore.get k' (MemoryStore.remove k s) = MemoryStore.get k' s.
Proof.
  intros Hk. unfold MemoryStore.remove. induction s as [|[k0 b0] s IH]; simpl; [reflexivity|].
  destruct (String.eqb_spec k0 k); simpl.
  - subst. destruct (String.eqb_spec k k'); [congruence|exact IH].
  - destruct (String.eqb_spec k0 k'); [reflexivity|exact IH].
Qed.

(** The key sent for a path that its caller has normalized is the key of
    the path, when that key is not empty, has no white space at either
    end and ends with a separator only for a directory. *)
Lemma keyOf_clean (p : string) :
  path (normalizePath p None) <> "" ->
  Js.trim (path (normalizePath p None)) = path (normalizePath p None) ->
  (Js.endsWith (path (normalizePath p None)) "/" = true ->
   directory (normalizePath p None) = true) ->
  keyOf p = path (normalizePath p None).
Proof.
  intros Hne Htrim Hends. unfold keyOf.
  destruct (normalizePath_key p None Hne Hends) as (absolute & segs & Hcanon & Hchars & Hkey).
  assert (Hd : directory (normalizePath p None) = false -> orFalse None = false)
    by reflexivity.
  rewrite Hkey in Hne, Htrim |- *.
  rewrite normalizePath_keyOfSegments; auto.
Qed.

Section MemoryCopies.

Variable configuration : IAwsSimpleStorageServiceConfiguration.

(** X27. Copy, then read: in the in-memory bucket, after a copy without
    deletion of an object that exists, [getObjectAsync] of the
    destination path returns the body of the source, provided that the
    key of the destination path is not empty, has no white space at
    either end and ends with a separator only for a directory. *)
Theorem copyObjectAsync_then_getObjectAsync
        (fuel : nat) (src dst : string) (deleteOriginal : option bool)
        (s : MemoryStore.Objects) (body : Body) :
  isTrue deleteOriginal = false ->
  MemoryStore.get (keyOf src) s = Some body ->
  path (normalizePath dst None) <> "" ->
  Js.trim (path (normalizePath dst None)) = path (normalizePath dst None) ->
  (Js.endsWith (path (normalizePath dst None)) "/" = true ->
   directory (normalizePath dst None) = true) ->
  fst (bind (copyObjectAsync MemoryStore.client configuration fuel src dst deleteOriginal)
            (fun _ => getObjectAsync MemoryStore.client configuration dst None None)
            (MemoryStore.start s))
  = Return (mkGetOutput (Some body)).
Proof.
  intros Hdel Hsrc Hne Htrim Hends. unfold bind.
  rewrite (copyObjectAsync_get_put MemoryStore.client configuration fuel src dst
             deleteOriginal (MemoryStore.start s) (mkGetOutput (Some body)) s Hdel)
    by (cbn [MemoryStore.client sendGetObject MemoryStore.start store]; now rewrite Hsrc).
  cbn [MemoryStore.client sendPutObject fst snd GetBody].
  unfold getObjectAsync, send. cbn [store MemoryStore.client sendGetObject truthyNumber].
  rewrite <- (keyOf_clean dst Hne Htrim Hends), get_put_same. reflexivity.
Qed.

(** X28. A move of an object in the in-memory bucket: when the source exists
    and the destination key is another key, not directory-shaped, the
    source is still there with its body after [moveObjectAsync], and the
    destination key holds nothing. *)
Theorem moveObjectAsync_keeps_source
        (fuel : nat) (src dst : string) (s : MemoryStore.Objects) (body : Body) :
  MemoryStore.get (keyOf src) s = Some body ->
  keyOf src <> keyOf dst ->
  directory (normalizePath (path (normalizePath dst None)) None) = false ->
  exists w',
    moveObjectAsync MemoryStore.client configuration (S fuel) src dst (MemoryStore.start s)
      = (Return tt, w') /\
    MemoryStore.get (keyOf src) (store w') = Some body /\
    MemoryStore.get (keyOf dst) (store w') = None.
Proof.
  intros Hsrc Hkeys Hdir. unfold moveObjectAsync, copyObjectAsync, getObjectAsync, putObjectAsync.
  unfold bind at 1 2. unfold send at 1. cbn [truthyNumber store MemoryStore.start].
  fold (keyOf src). cbn [MemoryStore.client sendGetObject]. rewrite Hsrc.
  unfold bind at 1. unfold send at 1. cbn [store log sendPutObject GetBody].
  fold (keyOf dst). cbn [isTrue deleteObjectAsync]. rewrite Hdir.
  unfold bind, send, ret. cbn [store log sendDeleteObject].
  fold (keyOf dst).
  eexists. split; [reflexivity|]. cbn [store]. split.
  - rewrite get_remove_other, get_put_other; auto.
  - apply get_remove_same.
Qed.

End MemoryCopies.

(* ================================================================== *)
(** * Directories of the in-memory bucket *)
(* ================================================================== *)

Lemma startsWith_refl (s : string) : Js.startsWith s s = true.
Proof. induction s as [|c s IH]; simpl; [reflexivity|]. now rewrite Ascii.eqb_refl. Qed.

Lemma get_Some_startsWith (k : string) (s : MemoryStore.Objects) (b : Body) :
  MemoryStore.get k s = Some b ->
  List.existsb (fun key => Js.startsWith key k) (MemoryStore.keys s) = true.
Proof.
  induction s as [|[k' b'] s IH]; simpl; [discriminate|].
  destruct (String.eqb_spec k' k) as [->|].
  - intros _. now rewrite startsWith_refl.
  - intros H. rewrite (IH H). apply orb_true_r.
Qed.

(** A listing reports something exactly when a key starts with the prefix. *)
Lemma listing_reports (delimiter : option string) (prefix : string) (ks : list string) :
  forall contents prefixes,
    (match MemoryStore.listing delimiter prefix ks contents prefixes with
     | (cs, ps) => (0 <? List.length cs) || (0 <? List.length ps)
     end)
    = (0 <? List.length contents) || (0 <? List.length prefixes)
      || List.existsb (fun key => Js.startsWith key prefix) ks.
Proof.
  induction ks as [|k ks IH]; intros contents prefixes; simpl.
  - now rewrite orb_false_r.
  - destruct (Js.startsWith k prefix); cbn [orb].
    + rewrite orb_true_r.
      destruct (MemoryStore.commonPrefixOf delimiter prefix k) as [p|].
      * destruct (List.existsb (String.eqb p) prefixes) eqn:E.
        -- rewrite IH. destruct prefixes as [|q prefixes]; [discriminate|].
           simpl. now rewrite orb_true_r.
        -- rewrite IH, List.length_app. simpl.
           replace (0 <? List.length prefixes + 1) with true
             by (symmetry; apply Nat.ltb_lt; lia).
           now rewrite orb_true_r.
      * rewrite IH, List.length_app. simpl.
        replace (0 <? List.length contents + 1) with true
          by (symmetry; apply Nat.ltb_lt; lia).
        reflexivity.
    + apply IH.
Qed.

Lemma length_orEmpty_nonEmpty {A B} (f : A -> B) (l : list A) :
  List.length (orEmpty (MemoryStore.nonEmpty (List.map f l))) = List.length l.
Proof. destruct l; simpl; [reflexivity|]. now rewrite List.length_map. Qed.

(** A directory key that [trim] leaves as it is, is normalized to itself. *)
Lemma normalizePath_directory_fixed (p : string) (d : option bool) :
  Js.trim (path (normalizePath p (Some true))) = path (normalizePath p (Some true)) ->
  normalizePath (path (normalizePath p (Some true))) d
  = mkNormalizedPath true (path (normalizePath p (Some true))).
Proof.
  intros Htrim.
  destruct (directory_key_ends p (Some true) eq_refl) as [Hends Hne].
  destruct (normalizePath_key p (Some true) Hne (fun _ => eq_refl))
    as (absolute & segs & Hcanon & Hchars & Hkey).
  cbn [directory] in Hkey. change (directory (normalizePath p (Some true))) with true in Hkey.
  rewrite Hkey in Htrim, Hne |- *.
  apply normalizePath_keyOfSegments; auto. discriminate.
Qed.

Section MemoryDirectories.

Variable configuration : IAwsSimpleStorageServiceConfiguration.

(** X29. In the in-memory bucket, a directory exists exactly when some key
    starts with the key of the directory, the marker included, provided
    that [trim] leaves the directory key as it is. *)
Theorem directoryExistsAsync_in_memory
        (fuel : nat) (objectPath : string) (s : MemoryStore.Objects) :
  Js.trim (path (normalizePath objectPath (Some true)))
  = path (normalizePath objectPath (Some true)) ->
  fst (directoryExistsAsync MemoryStore.client configuration (S fuel) objectPath
         (MemoryStore.start s))
  = Return (List.existsb
              (fun key => Js.startsWith key (path (normalizePath objectPath (Some true))))
              (MemoryStore.keys s)).
Proof.
  intros Htrim.
  set (k := path (normalizePath objectPath (Some true))) in *.
  assert (Hkey : keyOf k = k).
  { unfold keyOf, k. rewrite !normalizePath_directory_fixed; auto.
    cbn [path]. rewrite normalizePath_directory_fixed; auto. }
  assert (Hfix : normalizePath k (Some true) = mkNormalizedPath true k)
    by (now apply normalizePath_directory_fixed).
  destruct (MemoryStore.get k s) as [b|] eqn:Hget.
  - rewrite (directoryExistsAsync_marker_run MemoryStore.client configuration (S fuel)
               objectPath (MemoryStore.start s)
               (mkHeadOutput (Some (String.length b))) s).
    + cbn [fst]. fold k. now rewrite (get_Some_startsWith k s b Hget).
    + fold k. rewrite Hkey. cbn [MemoryStore.client sendHeadObject MemoryStore.start store].
      now rewrite Hget.
  - rewrite (directoryExistsAsync_listing_run MemoryStore.client configuration (S fuel)
               objectPath (MemoryStore.start s)
               (mkError "NotFound" "UnknownError") s).
    + fold k. cbn [listObjectsAsync]. rewrite Hfix. cbn [path].
      unfold bind, send.
      cbn [store log MemoryStore.client sendListObjectsV2].
      unfold MemoryStore.list_.
      pose proof (listing_reports (if Js.truthy k then Some "/" else None) k
                    (MemoryStore.keys s) [] []) as Hrep.
      destruct (MemoryStore.listing _ k (MemoryStore.keys s) [] []) as [cs ps].
      cbn [IsTruncated isTrue fst Contents CommonPrefixes ret].
      rewrite !length_orEmpty_nonEmpty. now rewrite Hrep.
    + fold k. rewrite Hkey. cbn [MemoryStore.client sendHeadObject MemoryStore.start store].
      now rewrite Hget.
    + reflexivity.
Qed.

End MemoryDirectories.

(* ================================================================== *)
(** * Instances *)
(* ================================================================== *)

Lemma getObjectName_of_name_witness :
  getObjectName ("a/b/" ++ "c.txt") = "c.txt" /\
  getObjectName ("a/b/" ++ "c.txt" ++ "/") = "c.txt" ++ "/".
Proof.
  apply getObjectName_of_name.
  - right. now exists "a/b".
  - repeat split; discriminate.
Defined.

Lemma isHidden_of_name_witness :
  (getTrimmedObjectName ("a/" ++ "_.tmp") = "_.tmp" /\
   getTrimmedObjectName ("a/" ++ "_.tmp" ++ "/") = "_.tmp") /\
  isHidden ("a/" ++ "_.tmp") = Js.startsWith "_.tmp" AwsSimpleStorageServiceHiddenPrefix /\
  isHidden ("a/" ++ "_.tmp" ++ "/") = Js.startsWith "_.tmp" AwsSimpleStorageServiceHiddenPrefix.
Proof.
  apply isHidden_of_name.
  - right. now exists "a".
  - repeat split; discriminate.
Defined.

Lemma isHidden_generateHiddenName_witness :
  isHidden ("" ++ generateHiddenName "report") = isHidden ("" ++ "report").
Proof.
  apply isHidden_generateHiddenName.
  - now left.
  - repeat split; discriminate.
Defined.

Lemma directoryExistsAsync_marker_witness :
  directoryExistsAsync MemoryStore.client MemoryStore.configuration 0 "d"
    (MemoryStore.start [("d/", "")])
  = (Return true, mkWorld [("d/", "")] [HeadObjectCommand "bucket" "d/"]).
Proof.
  apply (directoryExistsAsync_marker MemoryStore.client MemoryStore.configuration 0 "d"
           (MemoryStore.start [("d/", "")]) (mkHeadOutput (Some 0)) [("d/", "")]).
  reflexivity.
Defined.

Lemma directoryExistsAsync_listing_witness :
  fst (directoryExistsAsync MemoryStore.client MemoryStore.configuration 1 "d"
         (MemoryStore.start [("d/x", "X")]))
  = Return true.
Proof.
  rewrite (directoryExistsAsync_listing MemoryStore.client MemoryStore.configuration 1 "d"
             (MemoryStore.start [("d/x", "X")]) (mkError "NotFound" "UnknownError")
             [("d/x", "X")]).
  - reflexivity.
  - reflexivity.
  - reflexivity.
Defined.

Lemma directoryExistsAsync_never_NotFound_witness :
  name (mkError "NotImplemented" "") <> "NotFound" /\
  exists cs,
    [HeadObjectCommand "bucket" "d/"] = ([] ++ cs)%list /\
    List.forallb isProbeCommand cs = true.
Proof.
  apply (directoryExistsAsync_never_NotFound (PagedStore.client []) MemoryStore.configuration
           1 "d" (mkWorld tt []) (mkWorld tt [HeadObjectCommand "bucket" "d/"])).
  reflexivity.
Defined.

Lemma listObjectsAsync_drops_later_prefixes_witness :
  exists result w',
    listObjectsAsync ScriptedStore.client MemoryStore.configuration 2 (Some "d") None
      (mkWorld prefixedPages []) = (Return result, w') /\
    CommonPrefixes result = Some [mkCommonPrefix (Some "d/x/")].
Proof.
  apply (listObjectsAsync_drops_later_prefixes MemoryStore.configuration (Some "d") None
           [mkListing (Some [mkObject (Some "d/a")]) (Some [mkCommonPrefix (Some "d/x/")])
                      (Some true) (Some "t1") None]
           (mkListing (Some [mkObject (Some "d/b")]) (Some [mkCommonPrefix (Some "d/y/")])
                      (Some false) None None) 2).
  - repeat constructor.
  - discriminate.
  - simpl. lia.
Defined.

Lemma listObjectsAsync_tokens_witness :
  log (snd (listObjectsAsync ScriptedStore.client MemoryStore.configuration 2 (Some "d") None
              (mkWorld prefixedPages [])))
  = [ListObjectsV2Command "bucket" None (Some "/") "d/";
     ListObjectsV2Command "bucket" (Some "t1") (Some "/") "d/"].
Proof.
  apply (listObjectsAsync_tokens MemoryStore.configuration (Some "d") None
           [mkListing (Some [mkObject (Some "d/a")]) (Some [mkCommonPrefix (Some "d/x/")])
                      (Some true) (Some "t1") None]
           (mkListing (Some [mkObject (Some "d/b")]) (Some [mkCommonPrefix (Some "d/y/")])
                      (Some false) None None) 2).
  - repeat constructor.
  - discriminate.
  - simpl. lia.
Defined.

Lemma listObjectsAsync_page_rejected_witness :
  fst (listObjectsAsync ScriptedStore.client MemoryStore.configuration 2 (Some "d") None
         (mkWorld [mkListing (Some [mkObject (Some "d/a")]) None (Some true) (Some "t1") None]
                  []))
  = Throw (mkError "NoSuchKey" "end of script").
Proof.
  apply listObjectsAsync_page_rejected.
  - repeat constructor.
  - simpl. lia.
Defined.

Lemma copyObjectAsync_source_missing_witness :
  copyObjectAsync MemoryStore.client MemoryStore.configuration 1 "a" "b" (Some true)
    (MemoryStore.start [])
  = (Throw (mkError "NoSuchKey" "The specified key does not exist."),
     mkWorld [] [GetObjectCommand "bucket" "a" None]).
Proof.
  apply (copyObjectAsync_source_missing MemoryStore.client MemoryStore.configuration
           1 "a" "b" (Some true) (MemoryStore.start [])).
  reflexivity.
Defined.

Lemma copyObjectAsync_without_delete_witness :
  copyObjectAsync MemoryStore.client MemoryStore.configuration 1 "a" "b" None
    (MemoryStore.start [("a", "A")])
  = (Return (mkPutOutput None),
     mkWorld [("a", "A"); ("b", "A")]
             [GetObjectCommand "bucket" "a" None;
              PutObjectCommand "private" (BodyContent "A") "bucket" "b" None None]).
Proof.
  apply (copyObjectAsync_without_delete MemoryStore.client MemoryStore.configuration
           1 "a" "b" None (MemoryStore.start [("a", "A")]) (mkGetOutput (Some "A"))
           [("a", "A")]).
  - reflexivity.
  - reflexivity.
Defined.

Lemma copyObjectAsync_put_failed_witness :
  copyObjectAsync ReadOnlyStore.client MemoryStore.configuration 1 "a" "b" (Some true)
    (MemoryStore.start [("a", "A")])
  = (Throw (mkError "AccessDenied" "Access Denied"),
     mkWorld [("a", "A")]
             [GetObjectCommand "bucket" "a" None;
              PutObjectCommand "private" (BodyContent "A") "bucket" "b" None None]).
Proof.
  apply (copyObjectAsync_put_failed ReadOnlyStore.client MemoryStore.configuration
           1 "a" "b" (Some true) (MemoryStore.start [("a", "A")]) (mkGetOutput (Some "A"))
           (mkError "AccessDenied" "Access Denied") [("a", "A")] [("a", "A")]).
  - reflexivity.
  - reflexivity.
Defined.

Lemma copyDirectoryAsync_source_missing_witness :
  copyDirectoryAsync MemoryStore.client MemoryStore.configuration 2 "src" "dst" None
    (MemoryStore.start [("other/a", "A")])
  = (Throw (mkError "Error" "Object Directory Not Found"),
     mkWorld [("other/a", "A")]
             [HeadObjectCommand "bucket" "src/";
              ListObjectsV2Command "bucket" None (Some "/") "src/"]).
Proof.
  apply (copyDirectoryAsync_source_missing MemoryStore.client MemoryStore.configuration
           1 "src" "dst" None (MemoryStore.start [("other/a", "A")])).
  reflexivity.
Defined.

Lemma copyDirectoryAsync_without_delete_witness :
  sendsOnly (fun c => negb (isDeleteCommand c))
            (copyDirectoryAsync MemoryStore.client MemoryStore.configuration 5
                                "src/" "dst/" (Some false)).
Proof.
  apply copyDirectoryAsync_without_delete. reflexivity.
Defined.

Lemma copyObjectAsync_then_getObjectAsync_witness :
  fst (bind (copyObjectAsync MemoryStore.client MemoryStore.configuration 1
                             "in\a.txt" "/out//a.txt" None)
            (fun _ => getObjectAsync MemoryStore.client MemoryStore.configuration
                                     "/out//a.txt" None None)
            (MemoryStore.start [("in/a.txt", "A")]))
  = Return (mkGetOutput (Some "A")).
Proof.
  apply copyObjectAsync_then_getObjectAsync.
  - reflexivity.
  - reflexivity.
  - vm_compute. discriminate.
  - reflexivity.
  - vm_compute. discriminate.
Defined.

Lemma moveObjectAsync_keeps_source_witness :
  exists w',
    moveObjectAsync MemoryStore.client MemoryStore.configuration 1 "a" "b"
      (MemoryStore.start [("a", "A"); ("b", "old")])
    = (Return tt, w') /\
    MemoryStore.get (keyOf "a") (store w') = Some "A" /\
    MemoryStore.get (keyOf "b") (store w') = None.
Proof.
  apply (moveObjectAsync_keeps_source MemoryStore.configuration 0 "a" "b"
           [("a", "A"); ("b", "old")] "A").
  - reflexivity.
  - vm_compute. discriminate.
  - reflexivity.
Defined.

Lemma directoryExistsAsync_in_memory_witness :
  fst (directoryExistsAsync MemoryStore.client MemoryStore.configuration 1 "photos/2024"
         (MemoryStore.start [("photos/2024/a.jpg", "A")]))
  = Return (List.existsb
              (fun key => Js.startsWith key
                            (path (normalizePath "photos/2024" (Some true))))
              (MemoryStore.keys [("photos/2024/a.jpg", "A")])).
Proof.
  apply directoryExistsAsync_in_memory. reflexivity.
Defined.
